(** * mwlmc: time resampling of orientation and coefficient tables

    A shallow embedding of [include/orient.h] (structure [SphOrient] and the
    functions [find_time_index], [interpolate_centre],
    [interpolate_velocity_centre], [return_centre], [return_vel_centre],
    [find_initial_velocity], [read_orient]) and of the coefficient header
    [sphcoefs.h] (structure [SphCoefs], functions [select_coefficient_time]
    and [read_coef_file]), followed by the properties proved about them.

    Conventions of the embedding.
    - A C++ [double] is a rational [Q].  The interpolation formulas are
      evaluated exactly; rounding is written out where the code narrows a
      value to [float] ([dtime], through [to_float]) and in the regression of
      [find_initial_velocity], whose test compares rounding noise with a
      tolerance (every operation there is rounded by the parameter [fp],
      [to_double] in the code).  Infinities and NaN are outside the model.
    - An [int] is a [Z].  The conversion [(int) x] truncates toward zero and is
      undefined outside the 32-bit range, in particular for the infinity or
      NaN that a division by a zero spacing yields; every other [int]
      operation of the code acts on indices bounded by a vector length.
    - [v[i]] on a [std::vector] (or a [boost::multi_array]) outside its bounds
      is undefined behaviour in C++; the embedding stops there with the fault
      [OutOfBounds], which records the vector and the index.
    - [cout]/[cerr] output is a log carried by every outcome; [exit] ends the
      run with its code.
    - The process-wide switches [backwards], [backwardsaccel] and
      [havevelocity] are read from a [Flags] record.
    - The build modelled is the one without [SPLINEORIENT]. *)

From Stdlib Require Import ZArith QArith Qabs Qround List String Bool Lia.
From Stdlib Require Import Ascii DecimalString.
Import ListNotations.

Local Open Scope Z_scope.

(** ** Outcomes: values, diagnostics, [exit] and undefined behaviour *)

Module Exec.

Inductive fault : Type :=
| OutOfBounds (vec : string) (i : Z)
| LengthError (n : Z)
| IntCastRange.

Inductive stream : Type := Cout | Cerr.

Definition diag : Type := (stream * string)%type.

Inductive outcome (A : Type) : Type :=
| Val (a : A) (log : list diag)
| Exit (code : Z) (log : list diag)
| Fault (f : fault) (log : list diag).

Arguments Val {A} a log.
Arguments Exit {A} code log.
Arguments Fault {A} f log.

Definition ret {A : Type} (a : A) : outcome A := Val a [].

Definition prepend {A : Type} (l : list diag) (m : outcome A) : outcome A :=
  match m with
  | Val a l' => Val a (l ++ l')
  | Exit c l' => Exit c (l ++ l')
  | Fault f l' => Fault f (l ++ l')
  end.

Definition bind {A B : Type} (m : outcome A) (k : A -> outcome B) : outcome B :=
  match m with
  | Val a l => prepend l (k a)
  | Exit c l => Exit c l
  | Fault f l => Fault f l
  end.

Definition emit (s : stream) (msg : string) : outcome unit := Val tt [(s, msg)].

Definition exit {A : Type} (code : Z) : outcome A := Exit code [].

Definition when (b : bool) (m : outcome unit) : outcome unit :=
  if b then m else ret tt.

Definition log_of {A : Type} (m : outcome A) : list diag :=
  match m with
  | Val _ l | Exit _ l | Fault _ l => l
  end.

Definition returns {A : Type} (m : outcome A) : bool :=
  match m with
  | Val _ _ => true
  | _ => false
  end.

End Exec.

Export Exec.

Declare Scope exec_scope.
Delimit Scope exec_scope with exec.
Notation "x <- m ;; k" := (bind m (fun x => k))
  (at level 61, m at next level, right associativity) : exec_scope.
Notation "' pat <- m ;; k" := (bind m (fun x => match x with pat => k end))
  (at level 61, pat pattern, m at next level, right associativity) : exec_scope.
Notation "m ;;; k" := (bind m (fun _ => k))
  (at level 61, right associativity) : exec_scope.
Local Open Scope exec_scope.

(** ** Numbers and vectors *)

(** [(int) x]: truncation toward zero, undefined outside the [int] range. *)
Definition int_min : Z := - 2 ^ 31.
Definition int_max : Z := 2 ^ 31 - 1.

Definition Qtrunc (x : Q) : Z := Z.quot (Qnum x) (Zpos (Qden x)).

Definition double_to_int (x : Q) : outcome Z :=
  let z := Qtrunc x in
  if (int_min <=? z) && (z <=? int_max) then ret z else Fault IntCastRange [].

(** [(int) (num / den)] on doubles: for [den = 0] the quotient is an
    infinity or NaN and the conversion is undefined. *)
Definition quotient_to_int (num den : Q) : outcome Z :=
  if Qeq_bool den 0 then Fault IntCastRange []
  else double_to_int (num / den)%Q.

(** Binary floating point.  [binary_round prec emin x] is [x] rounded to the
    nearest value of the binary format with [prec] bits of precision and
    least positive value [2^emin], ties going to the even significand (the
    default rounding of IEEE 754).  Overflow to an infinity is outside the
    model.  [Qlog2 x] is the floor of the binary logarithm of a positive
    [x]. *)
Definition pow2 (e : Z) : Q := Qpower 2 e.

Definition Qlog2 (x : Q) : Z :=
  let e := Z.log2 (Qnum x) - Z.log2 (Zpos (Qden x)) in
  if Qle_bool (pow2 e) x then e else e - 1.

Definition round_half_even (x : Q) : Z :=
  let f := Qfloor x in
  match Qcompare (x - inject_Z f) (1 # 2) with
  | Lt => f
  | Gt => f + 1
  | Eq => if Z.even f then f else f + 1
  end.

Definition binary_round (prec emin : Z) (x : Q) : Q :=
  if Qeq_bool x 0 then 0%Q
  else
    let e := Z.max (Qlog2 (Qabs x) - (prec - 1)) emin in
    Qred (inject_Z (round_half_even (x / pow2 e)) * pow2 e).

(** The conversions to [float] (binary32) and to [double] (binary64). *)
Definition to_float : Q -> Q := binary_round 24 (-149).
Definition to_double : Q -> Q := binary_round 53 (-1074).

(** Arithmetic without rounding, for statements about the formulas. *)
Definition exact (x : Q) : Q := x.

(** [a > b] and [a < b] on doubles. *)
Definition Qgtb (a b : Q) : bool := negb (Qle_bool a b).
Definition Qltb (a b : Q) : bool := negb (Qle_bool b a).

Definition in_bounds {A : Type} (v : list A) (i : Z) : bool :=
  (0 <=? i) && (i <? Z.of_nat (List.length v)).

(** [v[i]] read. *)
Definition vec_get (name : string) (v : list Q) (i : Z) : outcome Q :=
  if in_bounds v i then ret (nth (Z.to_nat i) v 0%Q)
  else Fault (OutOfBounds name i) [].

Fixpoint replace_nth (n : nat) (v : list Q) (x : Q) : list Q :=
  match v, n with
  | [], _ => []
  | _ :: r, O => x :: r
  | y :: r, S n' => y :: replace_nth n' r x
  end.

(** [v[i] = x] write. *)
Definition vec_set (name : string) (v : list Q) (i : Z) (x : Q) : outcome (list Q) :=
  if in_bounds v i then ret (replace_nth (Z.to_nat i) v x)
  else Fault (OutOfBounds name i) [].

(** [v.resize(n)]: keeps the leading elements, pads with zeros; a negative
    [int] converts to a size beyond [max_size] and throws. *)
Definition resize (n : Z) (v : list Q) : outcome (list Q) :=
  if n <? 0 then Fault (LengthError n) []
  else ret (firstn (Z.to_nat n) v ++ repeat 0%Q (Z.to_nat n - List.length v)).

(** The element of [v] at [i], total ([0] outside), for statements. *)
Definition at_ (v : list Q) (i : Z) : Q := nth (Z.to_nat i) v 0%Q.

(** The integers [start, start+1, ...], [k] of them. *)
Fixpoint zrange (start : Z) (k : nat) : list Z :=
  match k with
  | O => []
  | S k' => start :: zrange (start + 1) k'
  end.

(** The entry [c[i][l][n]] of a three-dimensional array, total ([0]
    outside). *)
Definition cget (c : list (list (list Q))) (i l n : Z) : Q :=
  nth (Z.to_nat n) (nth (Z.to_nat l) (nth (Z.to_nat i) c []) []) 0%Q.

(** ** orient.h *)

Module Orient.

Record Flags : Type := mkFlags {
  backwards : bool;
  backwardsaccel : bool;
  havevelocity : bool
}.

(** The initial values of the three globals. *)
Definition default_flags : Flags := mkFlags false false true.

Record SphOrient : Type := mkSphOrient {
  inertial : bool;
  eventime : bool;
  NUMT : Z;
  time : list Q;
  xcen : list Q;
  ycen : list Q;
  zcen : list Q;
  ucen : list Q;
  vcen : list Q;
  wcen : list Q;
  zerotimevelocities : list Q;
  zerotimeintercepts : list Q
}.

(** A default-constructed [SphOrient]: the two flags carry their member
    initialisers, the vectors are empty, and [NUMT] has no initialiser, so its
    value [numt0] is whatever the storage held. *)
Definition SphOrient_init (numt0 : Z) : SphOrient :=
  mkSphOrient true true numt0 [] [] [] [] [] [] [] [] [].

Definition msg_fti_after : string :=
  "orient::find_time_index: time after to simulation end selected. setting to latest step.".

(** The [while (orient.time[indx]<=desired_time) indx++] loop.  [rest] is the
    part of [orient.time] from position [indx] on: reading [time[indx]] takes
    its head, and once the vector is exhausted the read is out of bounds. *)
Fixpoint scan_time (rest : list Q) (desired_time : Q) (indx : Z) : outcome Z :=
  match rest with
  | [] => Fault (OutOfBounds "time" indx) []
  | t :: rest' =>
      if Qle_bool t desired_time then scan_time rest' desired_time (indx + 1)
      else ret indx
  end.

Definition find_time_index (desired_time : Q) (orient : SphOrient)
  : outcome (Z * Q) :=
  indx <- scan_time (time orient) desired_time 0 ;;
  let indx := indx - 1 in
  when (indx >? NUMT orient - 2) (emit Cerr msg_fti_after) ;;;
  let indx := if indx <? 0 then 0 else indx in
  let indx := if indx >? NUMT orient - 2 then NUMT orient - 2 else indx in
  t1 <- vec_get "time" (time orient) (indx + 1) ;;
  t0 <- vec_get "time" (time orient) indx ;;
  ret (indx, (t1 - t0)%Q).

(** The block that opens both evaluators: on a table flagged evenly spaced
    the index is the truncated quotient, otherwise the scan is used. *)
Definition locate_time (desired_time : Q) (orient : SphOrient)
  : outcome (Z * Q) :=
  if eventime orient then
    t1 <- vec_get "time" (time orient) 1 ;;
    t0 <- vec_get "time" (time orient) 0 ;;
    let dt := (t1 - t0)%Q in
    indx <- quotient_to_int (desired_time - t0) dt ;;
    ret (indx, dt)
  else
    find_time_index desired_time orient.

(** [out[k] = x1*a[indx] + x2*a[indx+1]]. *)
Definition blend_into (out_name a_name : string) (out a : list Q) (k indx : Z)
  (x1 x2 : Q) : outcome (list Q) :=
  a0 <- vec_get a_name a indx ;;
  a1 <- vec_get a_name a (indx + 1) ;;
  vec_set out_name out k (x1 * a0 + x2 * a1)%Q.

(** The weights of the standard mode, after the upper clamp of the index. *)
Definition weights (desired_time : Q) (orient : SphOrient) (indx : Z) (dt : Q)
  : outcome (Z * Q * Q) :=
  let indx := if indx >? NUMT orient - 2 then NUMT orient - 2 else indx in
  t1 <- vec_get "time" (time orient) (indx + 1) ;;
  let x1 := ((t1 - desired_time) / dt)%Q in
  t0 <- vec_get "time" (time orient) indx ;;
  let x2 := ((desired_time - t0) / dt)%Q in
  ret (indx, x1, x2).

(** In the early branch [dtime] is declared [float]: the difference is
    narrowed to single precision before it is used. *)
Definition interpolate_centre (flags : Flags) (desired_time : Q)
  (orient : SphOrient) (centre : list Q) : outcome (list Q) :=
  '(indx, dt) <- locate_time desired_time orient ;;
  if havevelocity flags && (indx <? 0) then
    t0 <- vec_get "time" (time orient) 0 ;;
    let dtime := to_float (desired_time - t0) in
    if backwardsaccel flags then
      x0 <- vec_get "xcen" (xcen orient) 0 ;;
      v0 <- vec_get "zerotimevelocities" (zerotimevelocities orient) 0 ;;
      c0 <- vec_get "zerotimeintercepts" (zerotimeintercepts orient) 0 ;;
      centre <- vec_set "centre" centre 0 (x0 + dtime * (v0 * dtime + c0))%Q ;;
      y0 <- vec_get "ycen" (ycen orient) 0 ;;
      v1 <- vec_get "zerotimevelocities" (zerotimevelocities orient) 1 ;;
      c1 <- vec_get "zerotimeintercepts" (zerotimeintercepts orient) 1 ;;
      centre <- vec_set "centre" centre 1 (y0 + dtime * (v1 * dtime + c1))%Q ;;
      z0 <- vec_get "zcen" (zcen orient) 0 ;;
      v2 <- vec_get "zerotimevelocities" (zerotimevelocities orient) 2 ;;
      c2 <- vec_get "zerotimeintercepts" (zerotimeintercepts orient) 2 ;;
      vec_set "centre" centre 2 (z0 + dtime * (v2 * dtime + c2))%Q
    else
      x0 <- vec_get "xcen" (xcen orient) 0 ;;
      v0 <- vec_get "zerotimevelocities" (zerotimevelocities orient) 0 ;;
      centre <- vec_set "centre" centre 0 (x0 + dtime * v0)%Q ;;
      y0 <- vec_get "ycen" (ycen orient) 0 ;;
      v1 <- vec_get "zerotimevelocities" (zerotimevelocities orient) 1 ;;
      centre <- vec_set "centre" centre 1 (y0 + dtime * v1)%Q ;;
      z0 <- vec_get "zcen" (zcen orient) 0 ;;
      v2 <- vec_get "zerotimevelocities" (zerotimevelocities orient) 2 ;;
      vec_set "centre" centre 2 (z0 + dtime * v2)%Q
  else
    '(indx, x1, x2) <- weights desired_time orient indx dt ;;
    centre <- blend_into "centre" "xcen" centre (xcen orient) 0 indx x1 x2 ;;
    centre <- blend_into "centre" "ycen" centre (ycen orient) 1 indx x1 x2 ;;
    blend_into "centre" "zcen" centre (zcen orient) 2 indx x1 x2.

(** Unlike [interpolate_centre], the early branch is guarded by [indx<0]
    alone: [havevelocity] is not consulted. *)
Definition interpolate_velocity_centre (flags : Flags) (desired_time : Q)
  (orient : SphOrient) (velcentre : list Q) : outcome (list Q) :=
  '(indx, dt) <- locate_time desired_time orient ;;
  if indx <? 0 then
    if backwardsaccel flags then
      t0 <- vec_get "time" (time orient) 0 ;;
      let dtime := to_float (desired_time - t0) in
      v0 <- vec_get "zerotimevelocities" (zerotimevelocities orient) 0 ;;
      c0 <- vec_get "zerotimeintercepts" (zerotimeintercepts orient) 0 ;;
      velcentre <- vec_set "velcentre" velcentre 0 (v0 * dtime + c0)%Q ;;
      v1 <- vec_get "zerotimevelocities" (zerotimevelocities orient) 1 ;;
      c1 <- vec_get "zerotimeintercepts" (zerotimeintercepts orient) 1 ;;
      velcentre <- vec_set "velcentre" velcentre 1 (v1 * dtime + c1)%Q ;;
      v2 <- vec_get "zerotimevelocities" (zerotimevelocities orient) 2 ;;
      c2 <- vec_get "zerotimeintercepts" (zerotimeintercepts orient) 2 ;;
      vec_set "velcentre" velcentre 2 (v2 * dtime + c2)%Q
    else
      v0 <- vec_get "zerotimevelocities" (zerotimevelocities orient) 0 ;;
      velcentre <- vec_set "velcentre" velcentre 0 v0 ;;
      v1 <- vec_get "zerotimevelocities" (zerotimevelocities orient) 1 ;;
      velcentre <- vec_set "velcentre" velcentre 1 v1 ;;
      v2 <- vec_get "zerotimevelocities" (zerotimevelocities orient) 2 ;;
      vec_set "velcentre" velcentre 2 v2
  else
    '(indx, x1, x2) <- weights desired_time orient indx dt ;;
    velcentre <- blend_into "velcentre" "ucen" velcentre (ucen orient) 0 indx x1 x2 ;;
    velcentre <- blend_into "velcentre" "vcen" velcentre (vcen orient) 1 indx x1 x2 ;;
    blend_into "velcentre" "wcen" velcentre (wcen orient) 2 indx x1 x2.

(** [out[0] = out[1] = out[2] = 0.] *)
Definition set_zero (name : string) (out : list Q) : outcome (list Q) :=
  out <- vec_set name out 0 0%Q ;;
  out <- vec_set name out 1 0%Q ;;
  vec_set name out 2 0%Q.

Definition return_centre (flags : Flags) (desired_time : Q)
  (orient : SphOrient) (centre : list Q) : outcome (list Q) :=
  if inertial orient then set_zero "centre" centre
  else interpolate_centre flags desired_time orient centre.

Definition return_vel_centre (flags : Flags) (desired_time : Q)
  (orient : SphOrient) (velcentre : list Q) : outcome (list Q) :=
  if inertial orient then set_zero "velcentre" velcentre
  else interpolate_velocity_centre flags desired_time orient velcentre.

(** Assignments to one member of the structure. *)
Definition set_inertial (o : SphOrient) (x : bool) : SphOrient :=
  mkSphOrient x (eventime o) (NUMT o) (time o) (xcen o) (ycen o) (zcen o) (ucen o) (vcen o) (wcen o) (zerotimevelocities o) (zerotimeintercepts o).
Definition set_eventime (o : SphOrient) (x : bool) : SphOrient :=
  mkSphOrient (inertial o) x (NUMT o) (time o) (xcen o) (ycen o) (zcen o) (ucen o) (vcen o) (wcen o) (zerotimevelocities o) (zerotimeintercepts o).
Definition set_NUMT (o : SphOrient) (x : Z) : SphOrient :=
  mkSphOrient (inertial o) (eventime o) x (time o) (xcen o) (ycen o) (zcen o) (ucen o) (vcen o) (wcen o) (zerotimevelocities o) (zerotimeintercepts o).
Definition set_time (o : SphOrient) (x : list Q) : SphOrient :=
  mkSphOrient (inertial o) (eventime o) (NUMT o) x (xcen o) (ycen o) (zcen o) (ucen o) (vcen o) (wcen o) (zerotimevelocities o) (zerotimeintercepts o).
Definition set_xcen (o : SphOrient) (x : list Q) : SphOrient :=
  mkSphOrient (inertial o) (eventime o) (NUMT o) (time o) x (ycen o) (zcen o) (ucen o) (vcen o) (wcen o) (zerotimevelocities o) (zerotimeintercepts o).
Definition set_ycen (o : SphOrient) (x : list Q) : SphOrient :=
  mkSphOrient (inertial o) (eventime o) (NUMT o) (time o) (xcen o) x (zcen o) (ucen o) (vcen o) (wcen o) (zerotimevelocities o) (zerotimeintercepts o).
Definition set_zcen (o : SphOrient) (x : list Q) : SphOrient :=
  mkSphOrient (inertial o) (eventime o) (NUMT o) (time o) (xcen o) (ycen o) x (ucen o) (vcen o) (wcen o) (zerotimevelocities o) (zerotimeintercepts o).
Definition set_ucen (o : SphOrient) (x : list Q) : SphOrient :=
  mkSphOrient (inertial o) (eventime o) (NUMT o) (time o) (xcen o) (ycen o) (zcen o) x (vcen o) (wcen o) (zerotimevelocities o) (zerotimeintercepts o).
Definition set_vcen (o : SphOrient) (x : list Q) : SphOrient :=
  mkSphOrient (inertial o) (eventime o) (NUMT o) (time o) (xcen o) (ycen o) (zcen o) (ucen o) x (wcen o) (zerotimevelocities o) (zerotimeintercepts o).
Definition set_wcen (o : SphOrient) (x : list Q) : SphOrient :=
  mkSphOrient (inertial o) (eventime o) (NUMT o) (time o) (xcen o) (ycen o) (zcen o) (ucen o) (vcen o) x (zerotimevelocities o) (zerotimeintercepts o).
Definition set_zerotimevelocities (o : SphOrient) (x : list Q) : SphOrient :=
  mkSphOrient (inertial o) (eventime o) (NUMT o) (time o) (xcen o) (ycen o) (zcen o) (ucen o) (vcen o) (wcen o) x (zerotimeintercepts o).
Definition set_zerotimeintercepts (o : SphOrient) (x : list Q) : SphOrient :=
  mkSphOrient (inertial o) (eventime o) (NUMT o) (time o) (xcen o) (ycen o) (zcen o) (ucen o) (vcen o) (wcen o) (zerotimevelocities o) x.

Definition msg_fit_fail : string :=
  "orient::find_initial_velocity: can't extrapolate, given these times.".
Definition msg_no_file : string :=
  "orient::read_orient: no orient file detected . . . proceeding with inertial centre.".
Definition msg_cannot_open : string :=
  "orient::read_orient: unable to open specified file. exiting.".

(** The eight running sums of the regression. *)
Record Sums : Type := mkSums {
  sumT : Q; sumX : Q; sumY : Q; sumZ : Q;
  sumTX : Q; sumTY : Q; sumTZ : Q; sumT2 : Q
}.

Definition Sums_zero : Sums := mkSums 0 0 0 0 0 0 0 0.

(** The regression works on [double]s throughout, and its test compares
    a difference of nearly equal sums with a tolerance, so the rounding of
    each operation matters: [fp] is applied to the result of every addition,
    subtraction, multiplication and division, one operation at a time (no
    fused multiply-add).  The code is the instance [fp = to_double]; the
    instance [fp = exact] gives the formulas without rounding. *)

(** One pass of the body of [for(int i=0; i<nPoints; i++)]. *)
Definition fit_step (fp : Q -> Q) (tm xterm yterm zterm : list Q) (i : Z)
  (s : Sums) : outcome Sums :=
  t <- vec_get "time" tm i ;;
  x <- vec_get "xterm" xterm i ;;
  y <- vec_get "yterm" yterm i ;;
  z <- vec_get "zterm" zterm i ;;
  ret (mkSums (fp (sumT s + t)) (fp (sumX s + x)) (fp (sumY s + y))
              (fp (sumZ s + z))
              (fp (sumTX s + fp (t * x))) (fp (sumTY s + fp (t * y)))
              (fp (sumTZ s + fp (t * z)))
              (fp (sumT2 s + fp (t * t))))%Q.

(** The loop, [k] passes from index [i] on. *)
Fixpoint fit_loop (fp : Q -> Q) (k : nat) (tm xterm yterm zterm : list Q)
  (i : Z) (s : Sums) : outcome Sums :=
  match k with
  | O => ret s
  | S k' =>
      s' <- fit_step fp tm xterm yterm zterm i s ;;
      fit_loop fp k' tm xterm yterm zterm (i + 1) s'
  end.

(** The literal [1e-7], before its conversion to a [double]. *)
Definition fit_tolerance : Q := 1 # 10000000.

Definition default_nPoints : Z := 2000.

(** The conversion of [nPoints] to [double] is exact.  For [nPoints = 0]
    the means are NaN, which is outside the model. *)
Definition find_initial_velocity (fp : Q -> Q) (orient : SphOrient)
  (accel : bool) (nPoints : Z) : outcome SphOrient :=
  let xterm := if accel then ucen orient else xcen orient in
  let yterm := if accel then vcen orient else ycen orient in
  let zterm := if accel then wcen orient else zcen orient in
  s <- fit_loop fp (Z.to_nat nPoints) (time orient) xterm yterm zterm 0
         Sums_zero ;;
  let tMean := fp (sumT s / inject_Z nPoints)%Q in
  let xMean := fp (sumX s / inject_Z nPoints)%Q in
  let yMean := fp (sumY s / inject_Z nPoints)%Q in
  let zMean := fp (sumZ s / inject_Z nPoints)%Q in
  let denominator := fp (sumT2 s - fp (sumT s * tMean))%Q in
  when (Qltb (Qabs denominator) (fp fit_tolerance))
       (emit Cerr msg_fit_fail ;;; exit (-1)) ;;;
  zv <- vec_set "zerotimevelocities" (zerotimevelocities orient) 0
          (fp (fp (sumTX s - fp (sumT s * xMean)) / denominator)%Q) ;;
  zv <- vec_set "zerotimevelocities" zv 1
          (fp (fp (sumTY s - fp (sumT s * yMean)) / denominator)%Q) ;;
  zv <- vec_set "zerotimevelocities" zv 2
          (fp (fp (sumTZ s - fp (sumT s * zMean)) / denominator)%Q) ;;
  let orient := set_zerotimevelocities orient zv in
  if accel then
    v0 <- vec_get "zerotimevelocities" zv 0 ;;
    zi <- vec_set "zerotimeintercepts" (zerotimeintercepts orient) 0
            (fp (xMean - fp (v0 * tMean))%Q) ;;
    v1 <- vec_get "zerotimevelocities" zv 1 ;;
    zi <- vec_set "zerotimeintercepts" zi 1 (fp (yMean - fp (v1 * tMean))%Q) ;;
    v2 <- vec_get "zerotimevelocities" zv 2 ;;
    zi <- vec_set "zerotimeintercepts" zi 2 (fp (zMean - fp (v2 * tMean))%Q) ;;
    ret (set_zerotimeintercepts orient zi)
  else ret orient.

(** *** The loader

    The text file is taken after tokenising: a file is the list of its lines
    and a line the list of its numeric tokens.  [fs] maps a path to the file
    that [ifstream::open] finds there, [None] when it cannot be opened. *)

Definition line : Type := list Q.
Definition file_system : Type := string -> option (list line).

(** The state of an [istringstream]: the tokens left, and whether the stream
    is still good. *)
Definition sstream : Type := (list Q * bool)%type.

(** One [ss >> x] on a [double]: a stream that has failed, or that has no
    token left, leaves [x] as it was; the stream is failed from then on. *)
Definition extract (ss : sstream) (old : Q) : Q * sstream :=
  match ss with
  | (toks, false) => (old, (toks, false))
  | ([], true) => (old, ([], false))
  | (t :: r, true) => (t, (r, true))
  end.

(** [ss >> orient.NUMT]: the integer part of the first token, saturated to
    the [int] range; on an empty line the extraction fails and [NUMT] keeps
    the value [old] it had. *)
Definition extract_int (toks : line) (old : Z) : Z :=
  match toks with
  | [] => old
  | t :: _ => Z.max int_min (Z.min int_max (Qtrunc t))
  end.

(** [ss >> v[i]]. *)
Definition read_into (name : string) (v : list Q) (i : Z) (ss : sstream)
  : outcome (list Q * sstream) :=
  old <- vec_get name v i ;;
  let '(x, ss') := extract ss old in
  v' <- vec_set name v i x ;;
  ret (v', ss').

(** The header line: [NUMT] and the resizes. *)
Definition read_header (hv : bool) (toks : line) (orient : SphOrient)
  : outcome SphOrient :=
  let orient := set_NUMT orient (extract_int toks (NUMT orient)) in
  let n := NUMT orient in
  v <- resize n (time orient) ;; let orient := set_time orient v in
  v <- resize n (xcen orient) ;; let orient := set_xcen orient v in
  v <- resize n (ycen orient) ;; let orient := set_ycen orient v in
  v <- resize n (zcen orient) ;; let orient := set_zcen orient v in
  if hv then
    v <- resize n (ucen orient) ;; let orient := set_ucen orient v in
    v <- resize n (vcen orient) ;; let orient := set_vcen orient v in
    v <- resize n (wcen orient) ;; let orient := set_wcen orient v in
    ret orient
  else ret orient.

(** A data line, stored at index [i = linenum-1]. *)
Definition read_row (hv : bool) (toks : line) (i : Z) (orient : SphOrient)
  : outcome SphOrient :=
  let ss : sstream := (toks, true) in
  '(v, ss) <- read_into "time" (time orient) i ss ;;
  let orient := set_time orient v in
  '(v, ss) <- read_into "xcen" (xcen orient) i ss ;;
  let orient := set_xcen orient v in
  '(v, ss) <- read_into "ycen" (ycen orient) i ss ;;
  let orient := set_ycen orient v in
  '(v, ss) <- read_into "zcen" (zcen orient) i ss ;;
  let orient := set_zcen orient v in
  if hv then
    '(v, ss) <- read_into "ucen" (ucen orient) i ss ;;
    let orient := set_ucen orient v in
    '(v, ss) <- read_into "vcen" (vcen orient) i ss ;;
    let orient := set_vcen orient v in
    '(v, ss) <- read_into "wcen" (wcen orient) i ss ;;
    ret (set_wcen orient v)
  else ret orient.

(** [while (getline(infile, line)) { ...; linenum ++; }] *)
Fixpoint read_lines (hv : bool) (lines : list line) (linenum : Z)
  (orient : SphOrient) : outcome SphOrient :=
  match lines with
  | [] => ret orient
  | toks :: rest =>
      orient' <- (if linenum =? 0 then read_header hv toks orient
                  else read_row hv toks (linenum - 1) orient) ;;
      read_lines hv rest (linenum + 1) orient'
  end.

(** [for (int i=2;i<orient.NUMT;i++)], [k] passes from index [i] on.  The
    [abs] of the source is applied to a [double] and resolves to the
    floating-point overload. *)
Fixpoint check_spacing (k : nat) (i : Z) (dt : Q) (orient : SphOrient)
  : outcome SphOrient :=
  match k with
  | O => ret orient
  | S k' =>
      ti <- vec_get "time" (time orient) i ;;
      tp <- vec_get "time" (time orient) (i - 1) ;;
      let orient' :=
        if Qgtb (Qabs (ti - tp - dt)) (dt / 10) then set_eventime orient false
        else orient in
      check_spacing k' (i + 1) dt orient'
  end.

(** The first half of the body of [read_orient] once the file is open: the
    lines are stored and the spacing of the time axis is checked. *)
Definition read_table (hv : bool) (lines : list line) (orient : SphOrient)
  : outcome SphOrient :=
  orient <- read_lines hv lines 0 orient ;;
  t1 <- vec_get "time" (time orient) 1 ;;
  t0 <- vec_get "time" (time orient) 0 ;;
  let dt := (t1 - t0)%Q in
  check_spacing (Z.to_nat (NUMT orient - 2)) 2 dt orient.

(** The second half, [if (havevelocity) { ... }]: the slopes and intercepts
    of the pre-simulation model. *)
Definition init_zero_time (flags : Flags) (orient : SphOrient)
  : outcome SphOrient :=
  if havevelocity flags then
    zv <- resize 3 (zerotimevelocities orient) ;;
    let orient := set_zerotimevelocities orient zv in
    if backwards flags then
      if backwardsaccel flags then
        zi <- resize 3 (zerotimeintercepts orient) ;;
        find_initial_velocity to_double (set_zerotimeintercepts orient zi) true
          default_nPoints
      else
        find_initial_velocity to_double orient false default_nPoints
    else
      u0 <- vec_get "ucen" (ucen orient) 0 ;;
      zv <- vec_set "zerotimevelocities" zv 0 u0 ;;
      v0 <- vec_get "vcen" (vcen orient) 0 ;;
      zv <- vec_set "zerotimevelocities" zv 1 v0 ;;
      w0 <- vec_get "wcen" (wcen orient) 0 ;;
      zv <- vec_set "zerotimevelocities" zv 2 w0 ;;
      ret (set_zerotimevelocities orient zv)
  else ret orient.

Definition read_orient (flags : Flags) (fs : file_system)
  (orient_file : string) (orient : SphOrient) : outcome SphOrient :=
  if String.eqb orient_file "" then
    emit Cout msg_no_file ;;; ret orient
  else
    match fs orient_file with
    | None => emit Cout msg_cannot_open ;;; exit 1
    | Some lines =>
        let orient := set_inertial orient false in
        orient <- read_table (havevelocity flags) lines orient ;;
        init_zero_time flags orient
    end.

End Orient.

(** ** sphcoefs.h *)

Module Coefs.

Record SphCoefs : Type := mkSphCoefs {
  LMAX : Z;
  NMAX : Z;
  NUMT : Z;
  t : list Q;
  coefs : list (list (list Q))
}.

Definition msg_sct_before : string :=
  "select_coefficient_time: time prior to simulation start selected. setting to earliest step.".
Definition msg_sct_after : string :=
  "select_coefficient_time: time after to simulation end selected. setting to latest step.".

(** [coefs[i][l][n]] read on the three-dimensional array. *)
Definition coef_get (c : list (list (list Q))) (i l n : Z) : outcome Q :=
  if in_bounds c i then
    let plane := nth (Z.to_nat i) c [] in
    if in_bounds plane l then
      vec_get "coefs" (nth (Z.to_nat l) plane []) n
    else Fault (OutOfBounds "coefs" l) []
  else Fault (OutOfBounds "coefs" i) [].

(** [for (int n=0; n<coeftable.NMAX; n++)], [k] passes from [n] on, filling
    one row of [coefs_at_time]. *)
Fixpoint blend_row (k : nat) (c : list (list (list Q))) (indx l n : Z)
  (x1 x2 : Q) : outcome (list Q) :=
  match k with
  | O => ret []
  | S k' =>
      a <- coef_get c indx l n ;;
      b <- coef_get c (indx + 1) l n ;;
      r <- blend_row k' c indx l (n + 1) x1 x2 ;;
      ret ((x1 * a + x2 * b)%Q :: r)
  end.

(** [for (int l=0; l<numl; l++)], [k] passes from [l] on. *)
Fixpoint blend_rows (k : nat) (c : list (list (list Q))) (nmax : Z)
  (indx l : Z) (x1 x2 : Q) : outcome (list (list Q)) :=
  match k with
  | O => ret []
  | S k' =>
      row <- blend_row (Z.to_nat nmax) c indx l 0 x1 x2 ;;
      rows <- blend_rows k' c nmax indx (l + 1) x1 x2 ;;
      ret (row :: rows)
  end.

(** The index of [select_coefficient_time] before and after its clamps. *)
Definition raw_index (desired_time : Q) (coeftable : SphCoefs) : outcome (Z * Q) :=
  t1 <- vec_get "t" (t coeftable) 1 ;;
  t0 <- vec_get "t" (t coeftable) 0 ;;
  let dt := (t1 - t0)%Q in
  indx <- quotient_to_int (desired_time - t0) dt ;;
  ret (indx, dt).

Definition clamp_index (coeftable : SphCoefs) (indx : Z) : outcome Z :=
  when (indx <? 0) (emit Cerr msg_sct_before) ;;;
  when (indx >? NUMT coeftable - 2) (emit Cerr msg_sct_after) ;;;
  let indx := if indx <? 0 then 0 else indx in
  let indx := if indx >? NUMT coeftable - 2 then NUMT coeftable - 2 else indx in
  ret indx.

(** [coefs_at_time] is resized to [numl] by [NMAX] and every entry is
    overwritten, so the result does not depend on what it held. *)
Definition select_coefficient_time (desired_time : Q) (coeftable : SphCoefs)
  : outcome (list (list Q)) :=
  '(indx, dt) <- raw_index desired_time coeftable ;;
  indx <- clamp_index coeftable indx ;;
  t1 <- vec_get "t" (t coeftable) (indx + 1) ;;
  let x1 := ((t1 - desired_time) / dt)%Q in
  t0 <- vec_get "t" (t coeftable) indx ;;
  let x2 := ((desired_time - t0) / dt)%Q in
  let numl := (LMAX coeftable + 1) * (LMAX coeftable + 1) in
  if NMAX coeftable <? 0 then Fault (LengthError (NMAX coeftable)) []
  else blend_rows (Z.to_nat numl) (coefs coeftable) (NMAX coeftable) indx 0 x1 x2.

(** *** The loader

    The binary file is taken after decoding, in the sizes in which
    [read_coef_file] consumes it: [header_words] are the complete 4-byte
    integers among its first twelve bytes (at most three), [body_words] the
    complete 8-byte doubles that follow a complete header.  A file that ends
    inside a word is outside the model.  [None] stands for a path that
    [ifstream] cannot open.  The switch [splinecoefs] has its initial value
    [false], so the splines are not built.  The product
    [(LMAX+1) * (LMAX+1)] is an [int] in the source; the statements about
    the loader and the interpolation assume that it does not overflow. *)

Record coef_file : Type := mkCoefFile {
  header_words : list Z;
  body_words : list Q
}.

Definition coef_file_system : Type := string -> option coef_file.

(** The state of the [ifstream]: the words left and whether it is good. *)
Record bstream : Type := mkBstream {
  ints_left : list Z;
  doubles_left : list Q;
  good : bool
}.

Definition open_stream (f : option coef_file) : bstream :=
  match f with
  | Some f => mkBstream (header_words f) (body_words f) true
  | None => mkBstream [] [] false
  end.

(** [in.read] of [sizeof(int)] bytes into [x]: a stream that has failed, or
    has no word left, leaves [x] as it was. *)
Definition read_int (s : bstream) (old : Z) : Z * bstream :=
  if good s then
    match ints_left s with
    | z :: r => (z, mkBstream r (doubles_left s) true)
    | [] => (old, mkBstream [] (doubles_left s) false)
    end
  else (old, s).

(** [in.read] of [sizeof(double)] bytes into [x]. *)
Definition read_double (s : bstream) (old : Q) : Q * bstream :=
  if good s then
    match doubles_left s with
    | x :: r => (x, mkBstream (ints_left s) r true)
    | [] => (old, mkBstream (ints_left s) [] false)
    end
  else (old, s).

Fixpoint update_nth {A : Type} (n : nat) (f : A -> A) (l : list A) : list A :=
  match l, n with
  | [], _ => []
  | a :: r, O => f a :: r
  | a :: r, S n' => a :: update_nth n' f r
  end.

(** [coefs[i][l][n] = x] write on the three-dimensional array. *)
Definition coef_set (c : list (list (list Q))) (i l n : Z) (x : Q)
  : outcome (list (list (list Q))) :=
  if in_bounds c i then
    let plane := nth (Z.to_nat i) c [] in
    if in_bounds plane l then
      if in_bounds (nth (Z.to_nat l) plane []) n then
        ret (update_nth (Z.to_nat i)
               (update_nth (Z.to_nat l)
                  (fun row => replace_nth (Z.to_nat n) row x)) c)
      else Fault (OutOfBounds "coefs" n) []
    else Fault (OutOfBounds "coefs" l) []
  else Fault (OutOfBounds "coefs" i) [].

(** [coefs.resize(boost::extents[n1][n2][n3])]: the entries inside the old
    extents are kept, the others are zero. *)
Definition resize3 (n1 n2 n3 : Z) (c : list (list (list Q)))
  : outcome (list (list (list Q))) :=
  if n1 <? 0 then Fault (LengthError n1) []
  else if n2 <? 0 then Fault (LengthError n2) []
  else if n3 <? 0 then Fault (LengthError n3) []
  else ret (map (fun i =>
                   map (fun l => map (fun n => cget c i l n)
                                     (zrange 0 (Z.to_nat n3)))
                       (zrange 0 (Z.to_nat n2)))
                (zrange 0 (Z.to_nat n1))).

Definition msg_reading : string :=
  "sphcoefs.read_coef_file: reading NUMT, LMAX, NMAX from file . . . ".
Definition msg_success : string := "success!!".

Definition show_int (z : Z) : string := NilZero.string_of_int (Z.to_int z).

Fixpoint spaces (n : nat) : string :=
  match n with
  | O => EmptyString
  | S k => String " "%char (spaces k)
  end.

(** [setw(w) << s]: padded on the left up to [w] characters. *)
Definition setw (w : nat) (s : string) : string :=
  (spaces (w - String.length s) ++ s)%string.

(** [for (int ir=0; ir<coeftable.NMAX; ir++)], [k] passes from [ir] on. *)
Fixpoint read_radial (k : nat) (c : list (list (list Q))) (s : bstream)
  (tt l ir : Z) : outcome (list (list (list Q)) * bstream) :=
  match k with
  | O => ret (c, s)
  | S k' =>
      old <- coef_get c tt l ir ;;
      let '(x, s') := read_double s old in
      c' <- coef_set c tt l ir x ;;
      read_radial k' c' s' tt l (ir + 1)
  end.

(** [for (int l=0; l<numl; l++)], [k] passes from [l] on. *)
Fixpoint read_harmonics (k : nat) (nmax : Z) (c : list (list (list Q)))
  (s : bstream) (tt l : Z) : outcome (list (list (list Q)) * bstream) :=
  match k with
  | O => ret (c, s)
  | S k' =>
      '(c', s') <- read_radial (Z.to_nat nmax) c s tt l 0 ;;
      read_harmonics k' nmax c' s' tt (l + 1)
  end.

(** [for (int tt=0;tt<coeftable.NUMT;tt++)], [k] passes from [tt] on. *)
Fixpoint read_times (k : nat) (numl nmax : Z) (tv : list Q)
  (c : list (list (list Q))) (s : bstream) (tt : Z)
  : outcome (list Q * list (list (list Q)) * bstream) :=
  match k with
  | O => ret (tv, c, s)
  | S k' =>
      old <- vec_get "t" tv tt ;;
      let '(x, s') := read_double s old in
      tv' <- vec_set "t" tv tt x ;;
      '(c', s'') <- read_harmonics (Z.to_nat numl) nmax c s' tt 0 ;;
      read_times k' numl nmax tv' c' s'' (tt + 1)
  end.

Definition read_coef_file (fs : coef_file_system) (coef_file : string)
  (coeftable : SphCoefs) : outcome SphCoefs :=
  let s := open_stream (fs coef_file) in
  let '(numt, s) := read_int s (NUMT coeftable) in
  let '(lmax, s) := read_int s (LMAX coeftable) in
  let '(nmax, s) := read_int s (NMAX coeftable) in
  emit Cout msg_reading ;;;
  emit Cout (setw 18 (show_int numt) ++ setw 18 (show_int lmax)
             ++ setw 18 (show_int nmax))%string ;;;
  let numl := (lmax + 1) * (lmax + 1) in
  c <- resize3 numt numl nmax (coefs coeftable) ;;
  tv <- resize numt (t coeftable) ;;
  '(tv, c, s) <- read_times (Z.to_nat numt) numl nmax tv c s 0 ;;
  emit Cout msg_success ;;;
  ret (mkSphCoefs lmax nmax numt tv c).

End Coefs.

(** ** Vocabulary of the statements *)

Definition vlen (v : list Q) : Z := Z.of_nat (List.length v).

(** A strictly increasing time axis. *)
Definition increasing (v : list Q) : Prop :=
  forall i j, 0 <= i -> i < j -> j < vlen v -> (at_ v i < at_ v j)%Q.

(** The table holds [NUMT >= 2] samples in the time and position series. *)
Definition populated (orient : Orient.SphOrient) : Prop :=
  Orient.NUMT orient = vlen (Orient.time orient) /\
  2 <= Orient.NUMT orient /\
  vlen (Orient.xcen orient) = Orient.NUMT orient /\
  vlen (Orient.ycen orient) = Orient.NUMT orient /\
  vlen (Orient.zcen orient) = Orient.NUMT orient.

(** The table also holds the velocity series, the three slopes and, when the
    acceleration switch is on, the three intercepts. *)
Definition with_velocity (flags : Orient.Flags) (orient : Orient.SphOrient)
  : Prop :=
  vlen (Orient.ucen orient) = Orient.NUMT orient /\
  vlen (Orient.vcen orient) = Orient.NUMT orient /\
  vlen (Orient.wcen orient) = Orient.NUMT orient /\
  vlen (Orient.zerotimevelocities orient) = 3 /\
  (Orient.backwardsaccel flags = true ->
   vlen (Orient.zerotimeintercepts orient) = 3).

(** The pre-simulation model written out: affine, or quadratic when [accel]. *)
Definition presim_centre (accel : bool) (orient : Orient.SphOrient) (q : Q)
  : list Q :=
  let d := to_float (q - at_ (Orient.time orient) 0) in
  let zv := at_ (Orient.zerotimevelocities orient) in
  let zi := at_ (Orient.zerotimeintercepts orient) in
  if accel then
    [ (at_ (Orient.xcen orient) 0 + d * (zv 0%Z * d + zi 0%Z))%Q;
      (at_ (Orient.ycen orient) 0 + d * (zv 1%Z * d + zi 1%Z))%Q;
      (at_ (Orient.zcen orient) 0 + d * (zv 2%Z * d + zi 2%Z))%Q ]
  else
    [ (at_ (Orient.xcen orient) 0 + d * zv 0%Z)%Q;
      (at_ (Orient.ycen orient) 0 + d * zv 1%Z)%Q;
      (at_ (Orient.zcen orient) 0 + d * zv 2%Z)%Q ].

Definition presim_velocity (accel : bool) (orient : Orient.SphOrient) (q : Q)
  : list Q :=
  let d := to_float (q - at_ (Orient.time orient) 0) in
  let zv := at_ (Orient.zerotimevelocities orient) in
  let zi := at_ (Orient.zerotimeintercepts orient) in
  if accel then [ (zv 0%Z * d + zi 0%Z)%Q; (zv 1%Z * d + zi 1%Z)%Q; (zv 2%Z * d + zi 2%Z)%Q ]
  else [ zv 0%Z; zv 1%Z; zv 2%Z ].

(** The linear blend [w1*a[i] + w2*a[i+1]] with [w1 = (T[i+1]-q)/dt] and
    [w2 = (q-T[i])/dt]. *)
Definition segment_blend (tm a : list Q) (i : Z) (dt q : Q) : Q :=
  (((at_ tm (i + 1) - q) / dt) * at_ a i
   + ((q - at_ tm i) / dt) * at_ a (i + 1))%Q.

(** Every series that the loader fills holds [NUMT] samples. *)
Definition sized (hv : bool) (orient : Orient.SphOrient) : Prop :=
  vlen (Orient.time orient) = Orient.NUMT orient /\
  vlen (Orient.xcen orient) = Orient.NUMT orient /\
  vlen (Orient.ycen orient) = Orient.NUMT orient /\
  vlen (Orient.zcen orient) = Orient.NUMT orient /\
  (hv = true ->
   vlen (Orient.ucen orient) = Orient.NUMT orient /\
   vlen (Orient.vcen orient) = Orient.NUMT orient /\
   vlen (Orient.wcen orient) = Orient.NUMT orient).


(** The series other than the slopes and intercepts, and the flags. *)
Definition same_series (o o' : Orient.SphOrient) : Prop :=
  Orient.inertial o' = Orient.inertial o /\
  Orient.eventime o' = Orient.eventime o /\
  Orient.NUMT o' = Orient.NUMT o /\
  Orient.time o' = Orient.time o /\
  Orient.xcen o' = Orient.xcen o /\
  Orient.ycen o' = Orient.ycen o /\
  Orient.zcen o' = Orient.zcen o /\
  Orient.ucen o' = Orient.ucen o /\
  Orient.vcen o' = Orient.vcen o /\
  Orient.wcen o' = Orient.wcen o.

(** The series summed by the regression all hold [NUMT] samples. *)
Definition fit_series_sized (accel : bool) (orient : Orient.SphOrient) : Prop :=
  vlen (Orient.time orient) = Orient.NUMT orient /\
  vlen (if accel then Orient.ucen orient else Orient.xcen orient)
  = Orient.NUMT orient /\
  vlen (if accel then Orient.vcen orient else Orient.ycen orient)
  = Orient.NUMT orient /\
  vlen (if accel then Orient.wcen orient else Orient.zcen orient)
  = Orient.NUMT orient.

(** [acc + f i + f (i+1) + ...], [k] terms, added in the order of the loop. *)
Fixpoint sum_from (f : Z -> Q) (k : nat) (i : Z) (acc : Q) : Q :=
  match k with
  | O => acc
  | S k' => sum_from f k' (i + 1) (acc + f i)%Q
  end.

(** The same sum with every addition rounded by [fp]. *)
Fixpoint sum_from_fp (fp : Q -> Q) (f : Z -> Q) (k : nat) (i : Z) (acc : Q)
  : Q :=
  match k with
  | O => acc
  | S k' => sum_from_fp fp f k' (i + 1) (fp (acc + f i)%Q)
  end.

(** The denominator as the code forms it, [sumT2 - sumT * tMean], over the
    leading [n] samples of [tm], every operation rounded by [fp]. *)
Definition fit_denominator (fp : Q -> Q) (tm : list Q) (n : Z) : Q :=
  let sT := sum_from_fp fp (at_ tm) (Z.to_nat n) 0 0 in
  let sT2 :=
    sum_from_fp fp (fun i => fp (at_ tm i * at_ tm i)%Q) (Z.to_nat n) 0 0 in
  fp (sT2 - fp (sT * fp (sT / inject_Z n)))%Q.

(** The denominator in the words of the specification: the sum of the
    squared times minus [n] times the squared mean time. *)
Definition time_variance (tm : list Q) (n : Z) : Q :=
  let sT := sum_from (at_ tm) (Z.to_nat n) 0 0 in
  let sT2 := sum_from (fun i => at_ tm i * at_ tm i)%Q (Z.to_nat n) 0 0 in
  let meanT := (sT / inject_Z n)%Q in
  (sT2 - inject_Z n * (meanT * meanT))%Q.


(** Componentwise equality of two vectors of rationals as numbers. *)
Definition Qvec_eq (u v : list Q) : Prop := Forall2 Qeq u v.

(** The axis advances by its first gap at every step. *)
Definition uniform_axis (tm : list Q) : Prop :=
  forall j, 0 <= j < vlen tm ->
    (at_ tm j == at_ tm 0 + inject_Z j * (at_ tm 1 - at_ tm 0))%Q.

(** Linear interpolation of the series [a] over the interval [i] of the axis
    [tm]: [a[i] + (q - T[i]) / (T[i+1] - T[i]) * (a[i+1] - a[i])]. *)
Definition lerp (tm a : list Q) (i : Z) (q : Q) : Q :=
  (at_ a i
   + (q - at_ tm i) / (at_ tm (i + 1) - at_ tm i) * (at_ a (i + 1) - at_ a i))%Q.

(** Column [k] of the data lines of a file, a missing token counting as
    zero. *)
Definition column (k : nat) (rows : list (list Q)) : list Q :=
  map (fun r => nth k r 0%Q) rows.

(** A column followed by zeros up to [n] entries. *)
Definition padded (n : Z) (col : list Q) : list Q :=
  col ++ repeat 0%Q (Z.to_nat n - List.length col).

(** The table after the header declared [n] samples and the data lines
    [rows] were stored, starting from [base]. *)
Definition filled (hv : bool) (n : Z) (rows : list (list Q))
  (base : Orient.SphOrient) : Orient.SphOrient :=
  Orient.mkSphOrient (Orient.inertial base) (Orient.eventime base) n
    (padded n (column 0 rows)) (padded n (column 1 rows))
    (padded n (column 2 rows)) (padded n (column 3 rows))
    (if hv then padded n (column 4 rows) else Orient.ucen base)
    (if hv then padded n (column 5 rows) else Orient.vcen base)
    (if hv then padded n (column 6 rows) else Orient.wcen base)
    (Orient.zerotimevelocities base) (Orient.zerotimeintercepts base).

(** The state of the stream of a data line after [k] extractions. *)
Definition ss_after (k : nat) (toks : Orient.line) : Orient.sstream :=
  if (k <=? List.length toks)%nat then (skipn k toks, true) else ([], false).

(** Every [exit] that the run [m] can end in carries a code in [P]. *)
Definition exit_codes {A : Type} (P : Z -> Prop) (m : outcome A) : Prop :=
  forall c l, m = Exit c l -> P c.

(** The [rows] by [cols] array whose entry [(l, n)] is [f l n]. *)
Definition tabulate (rows cols : Z) (f : Z -> Z -> Q) : list (list Q) :=
  map (fun l => map (f l) (zrange 0 (Z.to_nat cols))) (zrange 0 (Z.to_nat rows)).

(** The number of harmonics, [(LMAX+1)*(LMAX+1)]. *)
Definition numl_of (tbl : Coefs.SphCoefs) : Z :=
  (Coefs.LMAX tbl + 1) * (Coefs.LMAX tbl + 1).

(** The coefficient table holds [NUMT >= 2] times and [NUMT] planes of
    [numl] rows of [NMAX] coefficients, [numl] being an [int]. *)
Definition well_shaped (tbl : Coefs.SphCoefs) : Prop :=
  Coefs.NUMT tbl = vlen (Coefs.t tbl) /\
  2 <= Coefs.NUMT tbl /\
  0 <= Coefs.NMAX tbl /\
  numl_of tbl <= int_max /\
  Z.of_nat (List.length (Coefs.coefs tbl)) = Coefs.NUMT tbl /\
  Forall (fun plane =>
            Z.of_nat (List.length plane) = numl_of tbl /\
            Forall (fun row => vlen row = Coefs.NMAX tbl) plane)
         (Coefs.coefs tbl).

(** Entrywise equality of two arrays of rationals as numbers. *)
Definition Qmat_eq (a b : list (list Q)) : Prop := Forall2 Qvec_eq a b.

(** The array has [n1] planes of [n2] rows of [n3] entries. *)
Definition shape3 (c : list (list (list Q))) (n1 n2 n3 : Z) : Prop :=
  Z.of_nat (List.length c) = n1 /\
  Forall (fun plane =>
            Z.of_nat (List.length plane) = n2 /\
            Forall (fun row => vlen row = n3) plane) c.

(** Word [j] of the body of a coefficient file, or [old] when the body is
    shorter. *)
Definition word_or (D : list Q) (j : Z) (old : Q) : Q :=
  if j <? Z.of_nat (List.length D) then nth (Z.to_nat j) D 0%Q else old.

(** The stream of a coefficient file with body [D] once the header and [j]
    words of the body were asked for. *)
Definition bs_after (D : list Q) (j : Z) : Coefs.bstream :=
  if j <=? Z.of_nat (List.length D)
  then Coefs.mkBstream [] (skipn (Z.to_nat j) D) true
  else Coefs.mkBstream [] [] false.

(** The three lines that a completed [read_coef_file] writes on [cout]. *)
Definition coef_log (numt lmax nmax : Z) : list diag :=
  [ (Cout, Coefs.msg_reading);
    (Cout, (Coefs.setw 18 (Coefs.show_int numt)
            ++ Coefs.setw 18 (Coefs.show_int lmax)
            ++ Coefs.setw 18 (Coefs.show_int nmax))%string);
    (Cout, Coefs.msg_success) ].


(** ** Example tables and files *)

Module Examples.
Import Orient.

(** Three samples on the axis 0, 1, 2.5: positions 0, 10, 20 on each axis
    and velocity 1 on each axis. *)
Definition uneven_lines : list line :=
  [ [3]; [0; 0; 0; 0; 1; 1; 1]; [1; 10; 10; 10; 1; 1; 1];
    [5 # 2; 20; 20; 20; 1; 1; 1] ]%Q.

(** Four samples on the axis 0, 1, 2, 3. *)
Definition even_lines : list line :=
  [ [4]; [0; 0; 0; 0; 1; 1; 1]; [1; 10; 10; 10; 1; 1; 1];
    [2; 20; 20; 20; 1; 1; 1]; [3; 30; 30; 30; 1; 1; 1] ]%Q.

(** Axis 0, 1, 2 with positions 0, 10, 20 and velocity columns all zero. *)
Definition ramp_lines : list line :=
  [ [3]; [0; 0; 0; 0; 0; 0; 0]; [1; 10; 10; 10; 0; 0; 0];
    [2; 20; 20; 20; 0; 0; 0] ]%Q.

(** The same table in the four-column layout. *)
Definition ramp_lines4 : list line :=
  [ [3]; [0; 0; 0; 0]; [1; 10; 10; 10]; [2; 20; 20; 20] ]%Q.

Definition fs : file_system := fun path =>
  if String.eqb path "uneven.orient" then Some uneven_lines
  else if String.eqb path "even.orient" then Some even_lines
  else if String.eqb path "ramp.orient" then Some ramp_lines
  else if String.eqb path "ramp4.orient" then Some ramp_lines4
  else None.

Definition uneven_table : SphOrient :=
  mkSphOrient false false 3 [0; 1; 5 # 2]%Q [0; 10; 20]%Q [0; 10; 20]%Q
    [0; 10; 20]%Q [1; 1; 1]%Q [1; 1; 1]%Q [1; 1; 1]%Q [1; 1; 1]%Q [].

Definition even_table : SphOrient :=
  mkSphOrient false true 4 [0; 1; 2; 3]%Q [0; 10; 20; 30]%Q [0; 10; 20; 30]%Q
    [0; 10; 20; 30]%Q [1; 1; 1; 1]%Q [1; 1; 1; 1]%Q [1; 1; 1; 1]%Q
    [1; 1; 1]%Q [].

(** Three samples that all carry the time 1. *)
Definition stalled_table : SphOrient :=
  mkSphOrient false true 3 [1; 1; 1]%Q [0; 1; 2]%Q [0; 1; 2]%Q [0; 1; 2]%Q
    [0; 0; 0]%Q [0; 0; 0]%Q [0; 0; 0]%Q [0; 0; 0]%Q [].

(** The [double] nearest to 50000.3, and three samples that all carry it. *)
Definition far_time : Q := to_double (500003 # 10).

Definition far_stalled_table : SphOrient :=
  mkSphOrient false true 3 [far_time; far_time; far_time] [0; 1; 2]%Q
    [0; 1; 2]%Q [0; 1; 2]%Q [0; 0; 0]%Q [0; 0; 0]%Q [0; 0; 0]%Q [0; 0; 0]%Q [].

(** Axis 0, 1, 2 and positions 0, 10, 20 on each axis, flagged evenly
    spaced, with whatever velocity data is supplied. *)
Definition ramp_table (us vs ws zv zi : list Q) : SphOrient :=
  mkSphOrient false true 3 [0; 1; 2]%Q [0; 10; 20]%Q [0; 10; 20]%Q
    [0; 10; 20]%Q us vs ws zv zi.

(** The coefficient table with one harmonic and one radial term on the axis
    0, 1, 2 with values 0, 10, 20. *)
Definition ramp_coefs : Coefs.SphCoefs :=
  Coefs.mkSphCoefs 0 1 3 [0; 1; 2]%Q [[[0]]; [[10]]; [[20]]]%Q.

End Examples.

(** * Properties *)

(** ** The outcome monad and the vectors *)

Lemma prepend_nil {A : Type} (m : outcome A) : prepend [] m = m.
Proof. destruct m; reflexivity. Qed.

Lemma bind_ret_l {A B : Type} (a : A) (k : A -> outcome B) :
  bind (Val a []) k = k a.
Proof. simpl. apply prepend_nil. Qed.

Lemma bind_val_inv {A B : Type} (m : outcome A) (k : A -> outcome B) b l :
  bind m k = Val b l ->
  exists a l1 l2, m = Val a l1 /\ k a = Val b l2 /\ l = l1 ++ l2.
Proof.
  destruct m as [a l1 | c l1 | f l1]; simpl; try discriminate.
  destruct (k a) as [b' l2 | c l2 | f l2] eqn:Hk; simpl; try discriminate.
  intros H; injection H as Hb Hl. subst b l. now exists a, l1, l2.
Qed.

Lemma in_bounds_true {A : Type} (v : list A) (i : Z) :
  0 <= i < Z.of_nat (List.length v) -> in_bounds v i = true.
Proof.
  intros [H0 H1]. unfold in_bounds.
  apply andb_true_intro; split; [now apply Z.leb_le | now apply Z.ltb_lt].
Qed.

Lemma in_bounds_false {A : Type} (v : list A) (i : Z) :
  i < 0 \/ Z.of_nat (List.length v) <= i -> in_bounds v i = false.
Proof.
  intros H. unfold in_bounds. apply andb_false_iff.
  destruct H; [left; now apply Z.leb_gt | right; now apply Z.ltb_ge].
Qed.

Lemma vec_get_in (name : string) (v : list Q) (i : Z) :
  0 <= i < vlen v -> vec_get name v i = Val (at_ v i) [].
Proof. intros H. unfold vec_get. now rewrite in_bounds_true. Qed.

Lemma vec_get_out (name : string) (v : list Q) (i : Z) :
  i < 0 \/ vlen v <= i -> vec_get name v i = Fault (OutOfBounds name i) [].
Proof. intros H. unfold vec_get. now rewrite in_bounds_false. Qed.

Lemma vec_get_val_inv (name : string) (v : list Q) (i : Z) x l :
  vec_get name v i = Val x l -> x = at_ v i /\ l = [] /\ 0 <= i < vlen v.
Proof.
  unfold vec_get, in_bounds, vlen.
  destruct (0 <=? i) eqn:H0; destruct (i <? Z.of_nat (List.length v)) eqn:H1;
    simpl; try discriminate.
  intros H; injection H as <- <-.
  apply Z.leb_le in H0. apply Z.ltb_lt in H1. now repeat split.
Qed.

Lemma gtb_false (a b : Z) : a <= b -> (a >? b) = false.
Proof. intros H. rewrite Z.gtb_ltb. now apply Z.ltb_ge. Qed.

Lemma gtb_true (a b : Z) : b < a -> (a >? b) = true.
Proof. intros H. rewrite Z.gtb_ltb. now apply Z.ltb_lt. Qed.

Lemma at_nth (v : list Q) (k : nat) : at_ v (Z.of_nat k) = nth k v 0%Q.
Proof. unfold at_. now rewrite Nat2Z.id. Qed.

Lemma length3 (v : list Q) :
  List.length v = 3%nat -> exists a b c, v = [a; b; c].
Proof.
  destruct v as [| a [| b [| c [| d v]]]]; simpl; try discriminate.
  intros _. now exists a, b, c.
Qed.

Lemma vec_set_0 (name : string) (a x : Q) (r : list Q) :
  vec_set name (a :: r) 0 x = Val (x :: r) [].
Proof.
  unfold vec_set. rewrite in_bounds_true by (cbn [List.length]; lia).
  reflexivity.
Qed.

Lemma vec_set_1 (name : string) (a b x : Q) (r : list Q) :
  vec_set name (a :: b :: r) 1 x = Val (a :: x :: r) [].
Proof.
  unfold vec_set. rewrite in_bounds_true by (cbn [List.length]; lia).
  reflexivity.
Qed.

Lemma vec_set_2 (name : string) (a b c x : Q) (r : list Q) :
  vec_set name (a :: b :: c :: r) 2 x = Val (a :: b :: x :: r) [].
Proof.
  unfold vec_set. rewrite in_bounds_true by (cbn [List.length]; lia).
  reflexivity.
Qed.

(** Runs a straight-line block of reads and writes that stay in bounds. *)
Ltac exec :=
  repeat first
    [ rewrite bind_ret_l
    | rewrite vec_get_in by lia
    | rewrite vec_set_0
    | rewrite vec_set_1
    | rewrite vec_set_2
    | progress unfold ret
    | progress cbv beta iota zeta ].

(** ** Truncation toward zero *)

Lemma Qtrunc_le_m1 (x : Q) : (x <= -1)%Q -> Qtrunc x <= -1.
Proof.
  destruct x as [n d]. unfold Qle, Qtrunc. simpl. intros H.
  assert (Hq : Z.quot n (Zpos d) <= Z.quot (- Zpos d) (Zpos d))
    by (apply Z.quot_le_mono; lia).
  rewrite Z.quot_opp_l, Z.quot_same in Hq by lia. exact Hq.
Qed.

Lemma Qtrunc_lower (a : Z) (x : Q) :
  a <= 0 -> (inject_Z a <= x)%Q -> a <= Qtrunc x.
Proof.
  destruct x as [n d]. unfold Qle, Qtrunc, inject_Z. simpl. intros Ha H.
  destruct (Z_le_gt_dec 0 n) as [Hn | Hn].
  - assert (0 <= Z.quot n (Zpos d)) by (apply Z.quot_pos; lia). lia.
  - assert (Hq : Z.quot (- n) (Zpos d) <= Z.quot (- a * Zpos d) (Zpos d))
      by (apply Z.quot_le_mono; lia).
    rewrite Z.quot_opp_l, Z.quot_mul in Hq by lia. lia.
Qed.

(** Between [-1] and [0] the truncation is [0] where the floor is [-1]. *)
Lemma Qtrunc_small_neg (x : Q) : (-1 < x)%Q -> (x < 0)%Q -> Qtrunc x = 0.
Proof.
  destruct x as [n d]. unfold Qlt, Qtrunc. simpl. intros H1 H0.
  apply Z.quot_small_iff; lia.
Qed.

Lemma Qfloor_small_neg (x : Q) : (-1 < x)%Q -> (x < 0)%Q -> Qfloor x = -1.
Proof.
  destruct x as [n d]. unfold Qlt, Qfloor. simpl. intros H1 H0.
  symmetry. apply Z.div_unique with (n + Zpos d); lia.
Qed.

Lemma quotient_gap (num den : Q) : ~ (num / den == 0)%Q -> ~ (den == 0)%Q.
Proof.
  intros H E. apply H. unfold Qdiv. rewrite E. unfold Qinv. simpl.
  apply Qmult_0_r.
Qed.

Lemma quotient_le_m1_gap (num den : Q) : (num / den <= -1)%Q -> ~ (den == 0)%Q.
Proof.
  intros H. apply (quotient_gap num). intros E. rewrite E in H.
  now apply (Qle_not_lt _ _ H).
Qed.

Lemma double_to_int_in_range (x : Q) :
  int_min <= Qtrunc x <= int_max -> double_to_int x = Val (Qtrunc x) [].
Proof.
  intros [Hlo Hhi]. unfold double_to_int.
  apply Z.leb_le in Hlo. apply Z.leb_le in Hhi. now rewrite Hlo, Hhi.
Qed.

Lemma quotient_to_int_in_range (num den : Q) :
  ~ (den == 0)%Q ->
  int_min <= Qtrunc (num / den) <= int_max ->
  quotient_to_int num den = Val (Qtrunc (num / den)) [].
Proof.
  intros Hden Hx. unfold quotient_to_int.
  destruct (Qeq_bool den 0) eqn:E.
  - apply Qeq_bool_eq in E. contradiction.
  - now apply double_to_int_in_range.
Qed.

Lemma quotient_to_int_zero_gap (num den : Q) :
  (den == 0)%Q -> quotient_to_int num den = Fault IntCastRange [].
Proof.
  intros E. unfold quotient_to_int. now rewrite (Qeq_eq_bool _ _ E).
Qed.

(** ** The scan of [find_time_index] *)

Module OrientFacts.
Import Orient.

(** The loop either stops at the first stored time beyond the query, or runs
    through the whole vector and reads one element past it. *)
Lemma scan_time_cases (rest : list Q) (q : Q) :
  forall indx,
    (exists k : nat,
        (k < List.length rest)%nat /\
        (forall j, (j < k)%nat -> (nth j rest 0 <= q)%Q) /\
        (q < nth k rest 0)%Q /\
        scan_time rest q indx = Val (indx + Z.of_nat k) [])
    \/ ((forall j, (j < List.length rest)%nat -> (nth j rest 0 <= q)%Q) /\
        scan_time rest q indx
        = Fault (OutOfBounds "time" (indx + Z.of_nat (List.length rest))) []).
Proof.
  induction rest as [| t rest IH]; intros indx.
  - right. split; [intros j Hj; inversion Hj |].
    simpl. now rewrite Z.add_0_r.
  - simpl scan_time. destruct (Qle_bool t q) eqn:Ht.
    + apply Qle_bool_iff in Ht.
      destruct (IH (indx + 1)) as [(k & Hk & Hle & Hgt & Hs) | (Hall & Hs)].
      * left. exists (S k). repeat split.
        -- simpl. lia.
        -- intros [| j] Hj; simpl; [assumption | apply Hle; lia].
        -- exact Hgt.
        -- rewrite Hs. f_equal. lia.
      * right. split.
        -- intros [| j] Hj; simpl; [assumption | apply Hall; simpl in Hj; lia].
        -- rewrite Hs. do 2 f_equal. simpl List.length. lia.
    + left. exists 0%nat. repeat split.
      * simpl. lia.
      * intros j Hj. inversion Hj.
      * simpl. apply Qnot_le_lt. intros H. apply Qle_bool_iff in H. congruence.
      * now rewrite Z.add_0_r.
Qed.

(** C4.  On a strictly increasing time axis of [n >= 2] samples and for a
    query [q] with [T[0] <= q < T[n-1]], [find_time_index] returns the largest
    index [i] with [T[i] <= q], together with the spacing [T[i+1] - T[i]]; it
    lies in [[0, n-2]] and no diagnostic is written. *)
Theorem find_time_index_in_domain (q : Q) (orient : SphOrient) :
  NUMT orient = vlen (time orient) ->
  2 <= NUMT orient ->
  increasing (time orient) ->
  (at_ (time orient) 0 <= q)%Q ->
  (q < at_ (time orient) (NUMT orient - 1))%Q ->
  exists i,
    find_time_index q orient
    = Val (i, (at_ (time orient) (i + 1) - at_ (time orient) i)%Q) [] /\
    0 <= i <= NUMT orient - 2 /\
    (at_ (time orient) i <= q)%Q /\
    (forall j, 0 <= j < NUMT orient -> (at_ (time orient) j <= q)%Q -> j <= i).
Proof.
  intros Hn H2 Hinc Hlo Hhi. unfold vlen in Hn.
  destruct (scan_time_cases (time orient) q 0)
    as [(k & Hk & Hle & Hgt & Hs) | (Hall & _)].
  - assert (Hk1 : (1 <= k)%nat).
    { destruct k; [| lia]. exfalso.
      apply (Qlt_not_le _ _ Hgt). now rewrite <- at_nth. }
    exists (Z.of_nat k - 1). split; [| split; [| split]].
    + assert (E1 : (Z.of_nat k - 1 >? NUMT orient - 2) = false)
        by (apply gtb_false; lia).
      assert (E2 : (Z.of_nat k - 1 <? 0) = false) by (apply Z.ltb_ge; lia).
      unfold find_time_index. rewrite Hs, bind_ret_l. simpl Z.add. cbv zeta.
      rewrite E1, E2. cbv iota. rewrite E1. unfold when, ret.
      rewrite bind_ret_l.
      rewrite !vec_get_in by (unfold vlen; lia).
      now rewrite !bind_ret_l.
    + lia.
    + replace (Z.of_nat k - 1) with (Z.of_nat (k - 1)) by lia.
      rewrite at_nth. apply Hle. lia.
    + intros j Hj Hjq.
      destruct (Z_lt_le_dec j (Z.of_nat k)) as [Hlt | Hge]; [lia |]. exfalso.
      rewrite <- at_nth in Hgt.
      destruct (Z.eq_dec j (Z.of_nat k)) as [-> | Hne].
      * exact (Qlt_not_le _ _ Hgt Hjq).
      * assert (Hkj : (at_ (time orient) (Z.of_nat k) < at_ (time orient) j)%Q)
          by (apply Hinc; unfold vlen; lia).
        apply (Qlt_not_le _ _ Hgt).
        apply Qle_trans with (at_ (time orient) j);
          [now apply Qlt_le_weak | assumption].
  - exfalso. apply (Qlt_not_le _ _ Hhi).
    replace (NUMT orient - 1) with (Z.of_nat (Z.to_nat (NUMT orient - 1))) by lia.
    rewrite at_nth. apply Hall. lia.
Qed.

(** Before the first stored time the scan stops at once; the index [-1] is
    reset to [0] and nothing is written on [cerr]. *)
Lemma find_time_index_below_start (q : Q) (orient : SphOrient) :
  NUMT orient = vlen (time orient) ->
  2 <= NUMT orient ->
  (q < at_ (time orient) 0)%Q ->
  find_time_index q orient
  = Val (0, (at_ (time orient) 1 - at_ (time orient) 0)%Q) [].
Proof.
  intros Hn H2 Hq. unfold find_time_index.
  assert (Hs : scan_time (time orient) q 0 = Val 0 []).
  { unfold vlen in Hn. destruct (time orient) as [| t0 rest] eqn:Ht;
      [simpl in Hn; lia |].
    simpl. replace (Qle_bool t0 q) with false; [reflexivity |].
    symmetry. apply not_true_is_false. intros H. apply Qle_bool_iff in H.
    exact (Qlt_not_le _ _ Hq H). }
  rewrite Hs, bind_ret_l. cbv zeta.
  replace (0 - 1 >? NUMT orient - 2) with false
    by (symmetry; apply gtb_false; lia).
  change (0 - 1 <? 0) with true. cbv iota.
  replace (0 >? NUMT orient - 2) with false
    by (symmetry; apply gtb_false; lia).
  unfold when, ret. rewrite bind_ret_l.
  rewrite !vec_get_in by lia. now rewrite !bind_ret_l.
Qed.

(** Whenever [find_time_index] returns, its index lies in [[0, NUMT-2]] and
    its spacing is that of the interval it names. *)
Lemma find_time_index_val_inv (q : Q) (orient : SphOrient) (i : Z) (dt : Q) l :
  find_time_index q orient = Val (i, dt) l ->
  0 <= i <= NUMT orient - 2 /\
  i + 1 < vlen (time orient) /\
  dt = (at_ (time orient) (i + 1) - at_ (time orient) i)%Q.
Proof.
  unfold find_time_index. intros H.
  apply bind_val_inv in H as (k & ? & ? & _ & H & ->). cbv zeta in H.
  apply bind_val_inv in H as (u & ? & ? & _ & H & ->).
  apply bind_val_inv in H as (t1 & ? & ? & H1 & H & ->).
  apply vec_get_val_inv in H1 as (-> & -> & B1).
  apply bind_val_inv in H as (t0 & ? & ? & H0 & H & ->).
  apply vec_get_val_inv in H0 as (-> & -> & B0).
  injection H as <- <- _. split; [| split; [lia | reflexivity]].
  destruct (k - 1 <? 0) eqn:E0;
    [| apply Z.ltb_ge in E0];
    destruct (_ >? NUMT orient - 2) eqn:E1 in B0 |- *;
    rewrite Z.gtb_ltb in E1;
    (apply Z.ltb_lt in E1 || apply Z.ltb_ge in E1); lia.
Qed.

(** C9.  On a strictly increasing time axis and for a query at or beyond
    the last stored time, the scan of [find_time_index] passes every stored
    time and reads [time[NUMT]], one element past the series.  The run stops
    at that read with an empty log: neither the diagnostic nor the clamps that
    follow the loop are reached. *)
Theorem find_time_index_reads_past_end (q : Q) (orient : SphOrient) :
  NUMT orient = vlen (time orient) ->
  1 <= NUMT orient ->
  increasing (time orient) ->
  (at_ (time orient) (NUMT orient - 1) <= q)%Q ->
  find_time_index q orient = Fault (OutOfBounds "time" (NUMT orient)) [].
Proof.
  intros Hn H1 Hinc Hq. unfold vlen in Hn.
  destruct (scan_time_cases (time orient) q 0)
    as [(k & Hk & _ & Hgt & _) | (_ & Hs)].
  - exfalso. rewrite <- at_nth in Hgt. apply (Qlt_not_le _ _ Hgt).
    destruct (Z.eq_dec (Z.of_nat k) (NUMT orient - 1)) as [E | NE].
    + now rewrite E.
    + apply Qle_trans with (at_ (time orient) (NUMT orient - 1)); [| exact Hq].
      apply Qlt_le_weak, Hinc; unfold vlen; lia.
  - unfold find_time_index. rewrite Hs. simpl. do 2 f_equal. lia.
Qed.

(** ** The example tables under the scan *)

Lemma increasing_uneven_table : increasing (time Examples.uneven_table).
Proof.
  intros i j Hi Hij Hj. change (vlen (time Examples.uneven_table)) with 3 in Hj.
  assert (Hc : (i = 0 /\ j = 1) \/ (i = 0 /\ j = 2) \/ (i = 1 /\ j = 2)) by lia.
  destruct Hc as [[-> ->] | [[-> ->] | [-> ->]]]; reflexivity.
Qed.

Lemma find_time_index_in_domain_witness :
  exists i,
    find_time_index (3 # 2) Examples.uneven_table
    = Val (i, (at_ (time Examples.uneven_table) (i + 1)
               - at_ (time Examples.uneven_table) i)%Q) [] /\
    0 <= i <= NUMT Examples.uneven_table - 2 /\
    (at_ (time Examples.uneven_table) i <= 3 # 2)%Q /\
    (forall j, 0 <= j < NUMT Examples.uneven_table ->
               (at_ (time Examples.uneven_table) j <= 3 # 2)%Q -> j <= i).
Proof.
  apply (find_time_index_in_domain (3 # 2) Examples.uneven_table).
  - reflexivity.
  - discriminate.
  - exact increasing_uneven_table.
  - discriminate.
  - reflexivity.
Defined.

Lemma find_time_index_reads_past_end_witness :
  find_time_index 3 Examples.uneven_table = Fault (OutOfBounds "time" 3) [].
Proof.
  apply (find_time_index_reads_past_end 3 Examples.uneven_table).
  - reflexivity.
  - discriminate.
  - exact increasing_uneven_table.
  - discriminate.
Defined.

(** ** The evaluators before the first stored time *)

(** On a table flagged evenly spaced with a first gap that is not zero the
    index is the truncated quotient. *)
Lemma locate_time_even (q : Q) (orient : SphOrient) :
  eventime orient = true ->
  2 <= vlen (time orient) ->
  let dt := (at_ (time orient) 1 - at_ (time orient) 0)%Q in
  let x := ((q - at_ (time orient) 0) / dt)%Q in
  ~ (dt == 0)%Q ->
  int_min <= Qtrunc x <= int_max ->
  locate_time q orient = Val (Qtrunc x, dt) [].
Proof.
  intros Hev Hlen dt x Hdt Hx. unfold locate_time. rewrite Hev. exec.
  fold dt. rewrite quotient_to_int_in_range by assumption.
  now rewrite bind_ret_l.
Qed.

(** The sibling path.  On a table with velocity data whose time axis is
    flagged evenly spaced, a query at least one step before the first stored
    time, [(q - T[0]) / dt <= -1] with the quotient still an [int], does reach
    the early branch of both evaluators: [interpolate_centre] returns
    [cen[0] + d * zeroTimeSlope] and [interpolate_velocity_centre] returns
    [zeroTimeSlope], with [d] the difference [q - T[0]] narrowed to [float];
    with the acceleration switch on they return
    [cen[0] + d * (zeroTimeSlope * d + zeroTimeIntercept)] and
    [zeroTimeSlope * d + zeroTimeIntercept]. *)
Lemma presimulation_model_one_step_before (flags : Flags) (q : Q)
  (orient : SphOrient) (centre velcentre : list Q) :
  populated orient ->
  with_velocity flags orient ->
  havevelocity flags = true ->
  eventime orient = true ->
  List.length centre = 3%nat ->
  List.length velcentre = 3%nat ->
  let dt := (at_ (time orient) 1 - at_ (time orient) 0)%Q in
  let x := ((q - at_ (time orient) 0) / dt)%Q in
  (inject_Z int_min <= x)%Q ->
  (x <= -1)%Q ->
  interpolate_centre flags q orient centre
  = Val (presim_centre (backwardsaccel flags) orient q) [] /\
  interpolate_velocity_centre flags q orient velcentre
  = Val (presim_velocity (backwardsaccel flags) orient q) [].
Proof.
  intros (Hn & H2 & Hx & Hy & Hz) (Hu & Hv & Hw & Hzv & Hzi) Hhv Hev Hc Hvc
    dt x Hlo Hhi.
  destruct (length3 _ Hc) as (c0 & c1 & c2 & ->).
  destruct (length3 _ Hvc) as (v0 & v1 & v2 & ->).
  assert (Hneg : Qtrunc x <= -1) by now apply Qtrunc_le_m1.
  assert (Hmin : int_min <= Qtrunc x)
    by (apply Qtrunc_lower; [unfold int_min; lia | exact Hlo]).
  assert (Hloc : locate_time q orient = Val (Qtrunc x, dt) []).
  { apply locate_time_even;
      [exact Hev | lia | exact (quotient_le_m1_gap _ _ Hhi) |].
    fold dt; fold x. unfold int_max. lia. }
  assert (Hlt : (Qtrunc x <? 0) = true) by (apply Z.ltb_lt; lia).
  unfold interpolate_centre, interpolate_velocity_centre, presim_centre,
    presim_velocity.
  rewrite Hloc, Hhv. exec. rewrite Hlt. cbn [andb].
  destruct (backwardsaccel flags) eqn:Hacc.
  - specialize (Hzi eq_refl). split; exec; reflexivity.
  - split; exec; reflexivity.
Qed.

(** On a table flagged unevenly spaced, a query before the first stored time
    comes back from [find_time_index] with index [0], so the weights of the
    first segment are used whatever the velocity data. *)
Lemma interpolate_centre_uneven_below_start (flags : Flags) (q : Q)
  (orient : SphOrient) (centre : list Q) :
  populated orient ->
  eventime orient = false ->
  List.length centre = 3%nat ->
  (q < at_ (time orient) 0)%Q ->
  let dt := (at_ (time orient) 1 - at_ (time orient) 0)%Q in
  interpolate_centre flags q orient centre
  = Val [ segment_blend (time orient) (xcen orient) 0 dt q;
          segment_blend (time orient) (ycen orient) 0 dt q;
          segment_blend (time orient) (zcen orient) 0 dt q ] [].
Proof.
  intros (Hn & H2 & Hx & Hy & Hz) Hev Hc Hq dt.
  destruct (length3 _ Hc) as (c0 & c1 & c2 & ->).
  unfold interpolate_centre, locate_time. rewrite Hev.
  rewrite find_time_index_below_start by assumption. exec.
  change (0 <? 0) with false. rewrite andb_false_r.
  unfold weights. rewrite (gtb_false 0 (NUMT orient - 2)) by lia.
  exec. unfold blend_into. exec. reflexivity.
Qed.

Lemma presimulation_model_one_step_before_example :
  interpolate_centre default_flags (-1) Examples.even_table [0; 0; 0]%Q
  = Val (presim_centre false Examples.even_table (-1)) [] /\
  interpolate_velocity_centre default_flags (-1) Examples.even_table
    [0; 0; 0]%Q
  = Val (presim_velocity false Examples.even_table (-1)) [].
Proof.
  apply (presimulation_model_one_step_before default_flags (-1)
           Examples.even_table [0; 0; 0]%Q [0; 0; 0]%Q).
  - repeat split. discriminate.
  - repeat split. discriminate.
  - reflexivity.
  - reflexivity.
  - reflexivity.
  - reflexivity.
  - vm_compute. discriminate.
  - vm_compute. discriminate.
Qed.

(** The step [dtime] is a [float]: at [q = -1.1] on the axis 0, 1, 2, 3 with
    slopes 1 the centre returned is [-9227469 / 8388608], the single-precision
    neighbour of [-1.1], not [-1.1]. *)
Lemma presimulation_step_is_single_precision :
  interpolate_centre default_flags (- (11 # 10)) Examples.even_table
    [0; 0; 0]%Q
  = Val [- (9227469 # 8388608); - (9227469 # 8388608);
         - (9227469 # 8388608)]%Q [] /\
  ~ (- (9227469 # 8388608) == - (11 # 10))%Q.
Proof. split; [vm_compute; reflexivity | discriminate]. Qed.

Lemma interpolate_velocity_centre_uneven_below_start (flags : Flags) (q : Q)
  (orient : SphOrient) (velcentre : list Q) :
  populated orient ->
  vlen (ucen orient) = NUMT orient -> vlen (vcen orient) = NUMT orient ->
  vlen (wcen orient) = NUMT orient ->
  eventime orient = false ->
  List.length velcentre = 3%nat ->
  (q < at_ (time orient) 0)%Q ->
  let dt := (at_ (time orient) 1 - at_ (time orient) 0)%Q in
  interpolate_velocity_centre flags q orient velcentre
  = Val [ segment_blend (time orient) (ucen orient) 0 dt q;
          segment_blend (time orient) (vcen orient) 0 dt q;
          segment_blend (time orient) (wcen orient) 0 dt q ] [].
Proof.
  intros (Hn & H2 & _) Hu Hv Hw Hev Hc Hq dt.
  destruct (length3 _ Hc) as (c0 & c1 & c2 & ->).
  unfold interpolate_velocity_centre, locate_time. rewrite Hev.
  rewrite find_time_index_below_start by assumption. exec.
  change (0 <? 0) with false. cbv iota.
  unfold weights. rewrite (gtb_false 0 (NUMT orient - 2)) by lia.
  exec. unfold blend_into. exec. reflexivity.
Qed.

(** C1, at the inputs where the code departs from it.  On a table flagged
    unevenly spaced [find_time_index] resets a negative index to [0], so for
    a query before the first stored time neither evaluator reaches the early
    branch that its comments announce for such a time, whatever the switches
    and the velocity data: with a first gap that is not zero,
    [interpolate_centre] and
    [interpolate_velocity_centre] return the weights of the first segment
    applied to the stored positions and velocities, and the slopes and
    intercepts of the pre-simulation model are never read. *)
Theorem presimulation_branch_is_dead_on_uneven_tables (flags : Flags) (q : Q)
  (orient : SphOrient) (centre velcentre : list Q) :
  populated orient ->
  with_velocity flags orient ->
  havevelocity flags = true ->
  eventime orient = false ->
  List.length centre = 3%nat ->
  List.length velcentre = 3%nat ->
  (q < at_ (time orient) 0)%Q ->
  let dt := (at_ (time orient) 1 - at_ (time orient) 0)%Q in
  ~ (dt == 0)%Q ->
  interpolate_centre flags q orient centre
  = Val [ segment_blend (time orient) (xcen orient) 0 dt q;
          segment_blend (time orient) (ycen orient) 0 dt q;
          segment_blend (time orient) (zcen orient) 0 dt q ] [] /\
  interpolate_velocity_centre flags q orient velcentre
  = Val [ segment_blend (time orient) (ucen orient) 0 dt q;
          segment_blend (time orient) (vcen orient) 0 dt q;
          segment_blend (time orient) (wcen orient) 0 dt q ] [].
Proof.
  intros Hp (Hu & Hv & Hw & _) _ Hev Hc Hvc Hq dt _. split.
  - now apply interpolate_centre_uneven_below_start.
  - now apply interpolate_velocity_centre_uneven_below_start.
Qed.

(** At the query [-1] on the axis 0, 1, 2.5 with positions 0, 10, 20 and
    slopes 1 the centre returned is [-10] on each axis, where the
    pre-simulation model [cen[0] + d * zeroTimeSlope] gives [-1]. *)
Lemma presimulation_branch_is_dead_on_uneven_tables_witness :
  interpolate_centre default_flags (-1) Examples.uneven_table [0; 0; 0]%Q
  = Val [-10; -10; -10]%Q [] /\
  presim_centre false Examples.uneven_table (-1) = [-1; -1; -1]%Q.
Proof.
  split; [| reflexivity].
  rewrite (proj1 (presimulation_branch_is_dead_on_uneven_tables default_flags
                    (-1) Examples.uneven_table [0; 0; 0]%Q [0; 0; 0]%Q
                    ltac:(repeat split; discriminate)
                    ltac:(repeat split; discriminate)
                    eq_refl eq_refl eq_refl eq_refl eq_refl
                    ltac:(discriminate))).
  reflexivity.
Defined.

(** ** The loader *)

Lemma replace_nth_length (n : nat) (v : list Q) (x : Q) :
  List.length (replace_nth n v x) = List.length v.
Proof.
  revert n. induction v as [| y v IH]; intros [| n]; simpl; auto.
Qed.

Lemma vec_set_cases (name : string) (v : list Q) (i : Z) (x : Q) :
  (0 <= i < vlen v /\
   exists v', vec_set name v i x = Val v' [] /\ vlen v' = vlen v)
  \/ (~ 0 <= i < vlen v /\ vec_set name v i x = Fault (OutOfBounds name i) []).
Proof.
  unfold vec_set.
  destruct (Z_le_gt_dec 0 i) as [H0 | H0];
    [destruct (Z_lt_le_dec i (vlen v)) as [H1 | H1] |].
  - left. split; [lia |]. rewrite in_bounds_true by (unfold vlen in H1; lia).
    eexists. split; [reflexivity |]. unfold vlen.
    now rewrite replace_nth_length.
  - right. split; [lia |]. now rewrite in_bounds_false by (unfold vlen in H1; lia).
  - right. split; [lia |]. now rewrite in_bounds_false by lia.
Qed.

Lemma vec_set_val_inv (name : string) (v : list Q) (i : Z) (x : Q) v' l :
  vec_set name v i x = Val v' l -> l = [] /\ vlen v' = vlen v.
Proof.
  destruct (vec_set_cases name v i x) as [(_ & w & Hw & Hl) | (_ & Hf)];
    intros H; rewrite H in *; [| discriminate].
  injection Hw as -> ->. now split.
Qed.

Lemma resize_val (n : Z) (v : list Q) :
  0 <= n -> exists v', resize n v = Val v' [] /\ vlen v' = n.
Proof.
  intros Hn. unfold resize. rewrite (proj2 (Z.ltb_ge n 0) Hn).
  eexists. split; [reflexivity |]. unfold vlen.
  rewrite length_app, repeat_length, length_firstn. lia.
Qed.

Lemma resize_neg (n : Z) (v : list Q) :
  n < 0 -> resize n v = Fault (LengthError n) [].
Proof. intros Hn. unfold resize. now rewrite (proj2 (Z.ltb_lt n 0) Hn). Qed.


Lemma read_into_out (name : string) (v : list Q) (i : Z) (ss : sstream) :
  ~ 0 <= i < vlen v ->
  read_into name v i ss = Fault (OutOfBounds name i) [].
Proof.
  intros Hi. unfold read_into. rewrite vec_get_out by lia. reflexivity.
Qed.


Lemma read_row_out (hv : bool) (toks : line) (i : Z) (o : SphOrient) :
  sized hv o -> ~ 0 <= i < NUMT o ->
  read_row hv toks i o = Fault (OutOfBounds "time" i) [].
Proof.
  intros (Ht & _) Hi. unfold read_row.
  rewrite read_into_out by lia. reflexivity.
Qed.


Lemma read_header_cases (hv : bool) (toks : line) (o : SphOrient) :
  (0 <= extract_int toks (NUMT o) /\
   exists o', read_header hv toks o = Val o' [] /\ sized hv o' /\
              NUMT o' = extract_int toks (NUMT o) /\ eventime o' = eventime o /\
              inertial o' = inertial o)
  \/ (extract_int toks (NUMT o) < 0 /\
      exists n, read_header hv toks o = Fault (LengthError n) []).
Proof.
  unfold read_header. cbn.
  destruct (Z_lt_le_dec (extract_int toks (NUMT o)) 0) as [Hneg | Hpos].
  - right. split; [exact Hneg |]. exists (extract_int toks (NUMT o)).
    now rewrite resize_neg.
  - left. split; [exact Hpos |].
    destruct (resize_val _ (time o) Hpos) as (v1 & E1 & L1).
    rewrite E1, bind_ret_l. cbn.
    destruct (resize_val _ (xcen o) Hpos) as (v2 & E2 & L2).
    rewrite E2, bind_ret_l. cbn.
    destruct (resize_val _ (ycen o) Hpos) as (v3 & E3 & L3).
    rewrite E3, bind_ret_l. cbn.
    destruct (resize_val _ (zcen o) Hpos) as (v4 & E4 & L4).
    rewrite E4, bind_ret_l. cbn.
    destruct hv.
    + destruct (resize_val _ (ucen o) Hpos) as (v5 & E5 & L5).
      rewrite E5, bind_ret_l. cbn.
      destruct (resize_val _ (vcen o) Hpos) as (v6 & E6 & L6).
      rewrite E6, bind_ret_l. cbn.
      destruct (resize_val _ (wcen o) Hpos) as (v7 & E7 & L7).
      rewrite E7, bind_ret_l. cbn.
      eexists. split; [reflexivity |]. unfold sized; cbn. now repeat split.
    + eexists. split; [reflexivity |]. unfold sized; cbn.
      repeat split; try assumption; discriminate.
Qed.

Lemma Qgtb_true_iff (a b : Q) : Qgtb a b = true <-> ~ (a <= b)%Q.
Proof.
  unfold Qgtb. rewrite negb_true_iff, <- not_true_iff_false.
  now rewrite Qle_bool_iff.
Qed.

Lemma Qltb_true_iff (a b : Q) : Qltb a b = true <-> (a < b)%Q.
Proof.
  unfold Qltb. rewrite negb_true_iff, <- not_true_iff_false, Qle_bool_iff.
  split; [apply Qnot_le_lt | apply Qlt_not_le].
Qed.

Lemma set_eventime_same (o : SphOrient) : set_eventime o (eventime o) = o.
Proof. now destruct o. Qed.

(** The spacing loop leaves the table alone but for the flag, which ends up
    set exactly when it was set before and no gap was off by more than a tenth
    of [dt]. *)
Lemma check_spacing_spec (dt : Q) :
  forall (k : nat) (i : Z) (o : SphOrient),
    1 <= i -> i + Z.of_nat k <= vlen (time o) ->
    exists b,
      check_spacing k i dt o = Val (set_eventime o b) [] /\
      (b = true <->
       eventime o = true /\
       forall j, i <= j < i + Z.of_nat k ->
         (Qabs (at_ (time o) j - at_ (time o) (j - 1) - dt) <= dt / 10)%Q).
Proof.
  induction k as [| k IH]; intros i o Hi Hk.
  - exists (eventime o). split.
    + simpl. now rewrite set_eventime_same.
    + split; [intros H; split; [exact H | intros; lia] | tauto].
  - cbn [check_spacing]. rewrite !vec_get_in by lia. exec.
    destruct (Qgtb (Qabs (at_ (time o) i - at_ (time o) (i - 1) - dt)) (dt / 10))
      eqn:Etest.
    + apply Qgtb_true_iff in Etest.
      destruct (IH (i + 1) (set_eventime o false)) as (b & Hb & Hiff);
        [lia | cbn; lia |].
      exists b. split; [rewrite Hb; reflexivity |].
      split.
      * intros Hbt. apply Hiff in Hbt. destruct Hbt as [Hf _]. discriminate Hf.
      * intros [_ Hall]. exfalso. apply Etest, Hall. lia.
    + assert (Hle : (Qabs (at_ (time o) i - at_ (time o) (i - 1) - dt)
                     <= dt / 10)%Q).
      { destruct (Qlt_le_dec (dt / 10)
                    (Qabs (at_ (time o) i - at_ (time o) (i - 1) - dt)))
          as [Hlt | Hle]; [| exact Hle].
        exfalso. apply not_true_iff_false in Etest. apply Etest.
        apply Qgtb_true_iff. now apply Qlt_not_le. }
      destruct (IH (i + 1) o) as (b & Hb & Hiff); [lia | lia |].
      exists b. split; [exact Hb |]. rewrite Hiff. split.
      * intros [He Hall]. split; [exact He |]. intros j Hj.
        destruct (Z.eq_dec j i) as [-> | Hne]; [exact Hle | apply Hall; lia].
      * intros [He Hall]. split; [exact He |]. intros j Hj. apply Hall. lia.
Qed.



(** ** The regression sums *)

Lemma fit_step_in (fp : Q -> Q) (tm xt yt zt : list Q) (i : Z) (s : Sums) :
  0 <= i < vlen tm -> 0 <= i < vlen xt -> 0 <= i < vlen yt ->
  0 <= i < vlen zt ->
  exists s',
    fit_step fp tm xt yt zt i s = Val s' [] /\
    sumT s' = fp (sumT s + at_ tm i)%Q /\
    sumT2 s' = fp (sumT2 s + fp (at_ tm i * at_ tm i))%Q.
Proof.
  intros Ht Hx Hy Hz. unfold fit_step. exec.
  eexists. split; [reflexivity |]. split; reflexivity.
Qed.

Lemma fit_step_val_inv (fp : Q -> Q) (tm xt yt zt : list Q) (i : Z)
  (s s' : Sums) l :
  fit_step fp tm xt yt zt i s = Val s' l ->
  l = [] /\
  sumT s' = fp (sumT s + at_ tm i)%Q /\
  sumT2 s' = fp (sumT2 s + fp (at_ tm i * at_ tm i))%Q.
Proof.
  unfold fit_step. intros H.
  apply bind_val_inv in H as (t & l1 & l2 & Ht & H & ->).
  apply vec_get_val_inv in Ht as (-> & -> & _).
  apply bind_val_inv in H as (x & l1 & l3 & Hx & H & ->).
  apply vec_get_val_inv in Hx as (-> & -> & _).
  apply bind_val_inv in H as (y & l1 & l4 & Hy & H & ->).
  apply vec_get_val_inv in Hy as (-> & -> & _).
  apply bind_val_inv in H as (z & l1 & l5 & Hz & H & ->).
  apply vec_get_val_inv in Hz as (-> & -> & _).
  injection H as <- <-. now repeat split.
Qed.

(** When the loop completes, [sumT] and [sumT2] are the rounded sums of
    the times and of their rounded squares over the window. *)
Lemma fit_loop_val_inv (fp : Q -> Q) (tm xt yt zt : list Q) :
  forall (k : nat) (i : Z) (s s' : Sums) l,
    fit_loop fp k tm xt yt zt i s = Val s' l ->
    l = [] /\
    sumT s' = sum_from_fp fp (at_ tm) k i (sumT s) /\
    sumT2 s'
    = sum_from_fp fp (fun j => fp (at_ tm j * at_ tm j)%Q) k i (sumT2 s).
Proof.
  induction k as [| k IH]; intros i s s' l H.
  - injection H as <- <-. now repeat split.
  - cbn [fit_loop] in H.
    apply bind_val_inv in H as (s1 & l1 & l2 & Hs & H & ->).
    apply fit_step_val_inv in Hs as (-> & HT & HT2).
    apply IH in H as (-> & HT' & HT2').
    split; [reflexivity |]. cbn [sum_from_fp]. now rewrite HT', HT2', HT, HT2.
Qed.

Lemma fit_loop_in (fp : Q -> Q) (tm xt yt zt : list Q) (n : Z) :
  n <= vlen tm -> n <= vlen xt -> n <= vlen yt -> n <= vlen zt ->
  forall (k : nat) (i : Z) (s : Sums),
    0 <= i -> i + Z.of_nat k <= n ->
    exists s', fit_loop fp k tm xt yt zt i s = Val s' [].
Proof.
  intros Ht Hx Hy Hz. induction k as [| k IH]; intros i s Hi Hk.
  - now exists s.
  - cbn [fit_loop].
    destruct (fit_step_in fp tm xt yt zt i s) as (s1 & Hs & _); try lia.
    rewrite Hs, bind_ret_l. apply IH; lia.
Qed.

Lemma sum_from_acc_wd (f : Z -> Q) :
  forall (k : nat) (i : Z) (a a' : Q),
    (a == a')%Q -> (sum_from f k i a == sum_from f k i a')%Q.
Proof.
  induction k as [| k IH]; intros i a a' H; cbn [sum_from]; [exact H |].
  apply IH. now rewrite H.
Qed.

Lemma sum_from_const (f : Z -> Q) (c : Q) :
  forall (k : nat) (i : Z) (a : Q),
    (forall j, i <= j < i + Z.of_nat k -> (f j == c)%Q) ->
    (sum_from f k i a == a + inject_Z (Z.of_nat k) * c)%Q.
Proof.
  induction k as [| k IH]; intros i a Hf.
  - cbn. ring.
  - cbn [sum_from]. rewrite IH by (intros j Hj; apply Hf; lia).
    rewrite (Hf i) by lia.
    rewrite Nat2Z.inj_succ. unfold Z.succ. rewrite inject_Z_plus. ring.
Qed.



(** Identical times leave no variance. *)
Lemma time_variance_constant (tm : list Q) (n : Z) (c : Q) :
  0 < n ->
  (forall i, 0 <= i < n -> at_ tm i = c) ->
  (time_variance tm n == 0)%Q.
Proof.
  intros Hn Hc. unfold time_variance. cbv zeta.
  assert (Hn0 : ~ (inject_Z n == 0)%Q).
  { unfold Qeq, inject_Z. simpl. lia. }
  rewrite (sum_from_const (at_ tm) c)
    by (intros j Hj; rewrite Hc by lia; reflexivity).
  rewrite (sum_from_const (fun i => at_ tm i * at_ tm i)%Q (c * c))
    by (intros j Hj; rewrite Hc by lia; reflexivity).
  rewrite Z2Nat.id by lia. field. exact Hn0.
Qed.

(** ** The inertial default *)

(** C10.  With an empty path [read_orient] returns the table as it was,
    after one line on [cout]; a table whose [inertial] flag is set, as in a
    default-constructed [SphOrient], then yields the centre [(0,0,0)] and the
    velocity [(0,0,0)] at every query time.  The statement holds whatever the
    series contain, in particular when they are empty and any read of them
    would be out of bounds. *)
Theorem inertial_centre_is_origin (flags : Flags) (fs : file_system) (q : Q)
  (orient : SphOrient) (centre velcentre : list Q) :
  inertial orient = true ->
  List.length centre = 3%nat ->
  List.length velcentre = 3%nat ->
  read_orient flags fs "" orient = Val orient [(Cout, msg_no_file)] /\
  return_centre flags q orient centre = Val [0; 0; 0]%Q [] /\
  return_vel_centre flags q orient velcentre = Val [0; 0; 0]%Q [].
Proof.
  intros Hin Hc Hv.
  destruct (length3 _ Hc) as (c0 & c1 & c2 & ->).
  destruct (length3 _ Hv) as (v0 & v1 & v2 & ->).
  split; [reflexivity |].
  unfold return_centre, return_vel_centre, set_zero. rewrite Hin.
  split; exec; reflexivity.
Qed.

Lemma inertial_centre_is_origin_witness :
  inertial (SphOrient_init 0) = true /\
  return_centre default_flags (7 # 2) (SphOrient_init 0) [1; 2; 3]%Q
  = Val [0; 0; 0]%Q [].
Proof.
  split; [reflexivity |].
  apply (inertial_centre_is_origin default_flags Examples.fs (7 # 2)
           (SphOrient_init 0) [1; 2; 3]%Q [4; 5; 6]%Q); reflexivity.
Defined.

(** ** The regression window *)

(** A window longer than the series runs into the read of [time[n]]. *)
Lemma fit_loop_overrun (fp : Q -> Q) (tm xt yt zt : list Q) (n : Z) :
  vlen tm = n -> vlen xt = n -> vlen yt = n -> vlen zt = n ->
  forall (k : nat) (i : Z) (s : Sums),
    0 <= i <= n -> n < i + Z.of_nat k ->
    fit_loop fp k tm xt yt zt i s = Fault (OutOfBounds "time" n) [].
Proof.
  intros Ht Hx Hy Hz. induction k as [| k IH]; intros i s Hi Hk; [lia |].
  simpl fit_loop. destruct (Z.eq_dec i n) as [-> | Hne].
  - unfold fit_step. rewrite vec_get_out by lia. reflexivity.
  - destruct (fit_step_in fp tm xt yt zt i s) as (s' & Hs & _); try lia.
    rewrite Hs, bind_ret_l. apply IH; lia.
Qed.

Lemma find_initial_velocity_overrun (fp : Q -> Q) (orient : SphOrient)
  (accel : bool) (nPoints : Z) :
  fit_series_sized accel orient ->
  0 <= NUMT orient < nPoints ->
  find_initial_velocity fp orient accel nPoints
  = Fault (OutOfBounds "time" (NUMT orient)) [].
Proof.
  intros (Ht & Hx & Hy & Hz) Hn. unfold find_initial_velocity.
  rewrite (fit_loop_overrun fp _ _ _ _ (NUMT orient) Ht Hx Hy Hz) by lia.
  reflexivity.
Qed.

(** ** The degenerate fit *)

(** The test of the code: when the denominator it has computed is below the
    tolerance, the run ends. *)
Lemma find_initial_velocity_degenerate (fp : Q -> Q) (orient : SphOrient)
  (accel : bool) (nPoints : Z) :
  fit_series_sized accel orient ->
  0 < nPoints <= NUMT orient ->
  (Qabs (fit_denominator fp (time orient) nPoints) < fp fit_tolerance)%Q ->
  find_initial_velocity fp orient accel nPoints
  = Exit (-1) [(Cerr, msg_fit_fail)].
Proof.
  intros (Ht & Hx & Hy & Hz) Hn Hdeg. unfold find_initial_velocity.
  destruct (fit_loop_in fp (time orient)
              (if accel then ucen orient else xcen orient)
              (if accel then vcen orient else ycen orient)
              (if accel then wcen orient else zcen orient)
              (NUMT orient) ltac:(lia) ltac:(lia) ltac:(lia) ltac:(lia)
              (Z.to_nat nPoints) 0 Sums_zero) as (s & Hs); [lia | lia |].
  rewrite Hs, bind_ret_l. cbv zeta.
  apply fit_loop_val_inv in Hs as (_ & HT & HT2). cbn [sumT sumT2 Sums_zero] in HT, HT2.
  assert (Htest :
            Qltb (Qabs (fp (sumT2 s
                            - fp (sumT s * fp (sumT s / inject_Z nPoints)))%Q))
              (fp fit_tolerance) = true).
  { apply Qltb_true_iff. rewrite HT, HT2. exact Hdeg. }
  rewrite Htest. reflexivity.
Qed.

Lemma find_initial_velocity_val_inv (fp : Q -> Q) (o o' : SphOrient)
  (accel : bool) (nPoints : Z) l :
  find_initial_velocity fp o accel nPoints = Val o' l ->
  same_series o o' /\
  vlen (zerotimevelocities o') = vlen (zerotimevelocities o) /\
  vlen (zerotimeintercepts o') = vlen (zerotimeintercepts o).
Proof.
  unfold find_initial_velocity. intros H.
  apply bind_val_inv in H as (s & ? & ? & _ & H & ->). cbv zeta in H.
  destruct (Qltb _ _); [discriminate |].
  unfold when, ret in H. rewrite bind_ret_l in H.
  apply bind_val_inv in H as (zv1 & ? & ? & H1 & H & ->).
  apply vec_set_val_inv in H1 as (-> & L1).
  apply bind_val_inv in H as (zv2 & ? & ? & H2 & H & ->).
  apply vec_set_val_inv in H2 as (-> & L2).
  apply bind_val_inv in H as (zv3 & ? & ? & H3 & H & ->).
  apply vec_set_val_inv in H3 as (-> & L3).
  destruct accel.
  - apply bind_val_inv in H as (a0 & ? & ? & _ & H & ->).
    apply bind_val_inv in H as (zi1 & ? & ? & H4 & H & ->).
    apply vec_set_val_inv in H4 as (-> & L4).
    apply bind_val_inv in H as (a1 & ? & ? & _ & H & ->).
    apply bind_val_inv in H as (zi2 & ? & ? & H5 & H & ->).
    apply vec_set_val_inv in H5 as (-> & L5).
    apply bind_val_inv in H as (a2 & ? & ? & _ & H & ->).
    apply bind_val_inv in H as (zi3 & ? & ? & H6 & H & ->).
    apply vec_set_val_inv in H6 as (-> & L6).
    injection H as <- _. cbn in *. split; [now repeat split | lia].
  - injection H as <- _. cbn. split; [now repeat split | lia].
Qed.


(** ** The loaded table *)





(** C6, at an input where the code departs from it.  The code tests the
    denominator that it has computed in [double]s: when that one is below
    [1e-7] in magnitude [find_initial_velocity] writes its diagnostic on
    [cerr] and calls [exit(-1)], and a load with backward extrapolation that
    has read such a table ends with that exit.  Three samples at the time 1
    end that way.  But identical times do not make the computed denominator
    small: for three samples at the time 50000.3 the variance is exactly
    zero, the rounded sums leave [-2^-19], the test passes, and
    [find_initial_velocity] stores slopes and returns the table. *)
Theorem identical_times_pass_the_degeneracy_test :
  (forall (orient : SphOrient) (accel : bool) (nPoints : Z),
      fit_series_sized accel orient ->
      0 < nPoints <= NUMT orient ->
      (Qabs (fit_denominator to_double (time orient) nPoints)
       < to_double fit_tolerance)%Q ->
      find_initial_velocity to_double orient accel nPoints
      = Exit (-1) [(Cerr, msg_fit_fail)] /\
      forall (flags : Flags) (fs : file_system) (path : string)
             (o0 : SphOrient) (lines : list line) (log : list diag),
        nPoints = default_nPoints ->
        accel = backwardsaccel flags ->
        havevelocity flags = true ->
        backwards flags = true ->
        path <> ""%string ->
        fs path = Some lines ->
        read_table true lines (set_inertial o0 false) = Val orient log ->
        read_orient flags fs path o0
        = Exit (-1) (log ++ [(Cerr, msg_fit_fail)])) /\
  find_initial_velocity to_double Examples.stalled_table false 3
  = Exit (-1) [(Cerr, msg_fit_fail)] /\
  (forall i, 0 <= i < 3 ->
     at_ (time Examples.far_stalled_table) i = Examples.far_time) /\
  (time_variance (time Examples.far_stalled_table) 3 == 0)%Q /\
  (fit_denominator to_double (time Examples.far_stalled_table) 3
   == - (1 # 524288))%Q /\
  exists o',
    find_initial_velocity to_double Examples.far_stalled_table false 3
    = Val o' [] /\
    same_series Examples.far_stalled_table o' /\
    Qvec_eq (zerotimevelocities o') [0; 0; 0]%Q.
Proof.
  assert (Hsame : forall i, 0 <= i < 3 ->
            at_ (time Examples.far_stalled_table) i = Examples.far_time).
  { intros i Hi. assert (Hc : i = 0 \/ i = 1 \/ i = 2) by lia.
    destruct Hc as [-> | [-> | ->]]; reflexivity. }
  split; [| split; [| split; [| split; [| split]]]].
  - intros orient accel nPoints Hs Hn Hdeg.
    split; [now apply find_initial_velocity_degenerate |].
    intros flags fs path o0 lines log -> -> Hhv Hb Hpath Hfs Hread.
    unfold read_orient.
    rewrite (proj2 (String.eqb_neq path "") Hpath), Hfs. cbv zeta.
    rewrite Hhv, Hread. cbn [bind]. unfold init_zero_time. rewrite Hhv, Hb.
    destruct (resize_val 3 (zerotimevelocities orient)) as (zv & Ezv & _);
      [lia |].
    rewrite Ezv, bind_ret_l. cbv zeta.
    destruct (backwardsaccel flags).
    + cbn [zerotimeintercepts set_zerotimevelocities].
      destruct (resize_val 3 (zerotimeintercepts orient)) as (zi & Ezi & _);
        [lia |].
      rewrite Ezi, bind_ret_l.
      rewrite find_initial_velocity_degenerate; [reflexivity | | |]; assumption.
    + rewrite find_initial_velocity_degenerate; [reflexivity | | |]; assumption.
  - vm_compute. reflexivity.
  - exact Hsame.
  - apply (time_variance_constant _ 3 Examples.far_time); [lia | exact Hsame].
  - vm_compute. reflexivity.
  - destruct (find_initial_velocity to_double Examples.far_stalled_table false 3)
      as [o' l | c l | f l] eqn:E.
    + assert (El : l = []) by (vm_compute in E; now injection E).
      subst l. exists o'. split; [reflexivity |].
      split; [exact (proj1 (find_initial_velocity_val_inv _ _ _ _ _ _ E)) |].
      vm_compute in E. injection E as <-. repeat constructor.
    + vm_compute in E. discriminate E.
    + vm_compute in E. discriminate E.
Qed.

(** ** The regression window against the table *)

(** C8.  [find_initial_velocity] runs its loop [nPoints] times without
    looking at the number of samples: on a table of [NUMT < nPoints] samples
    the loop reaches index [NUMT] and reads [time[NUMT]], one element past the
    stored series, before any sum is used.  [read_orient] calls it with the
    default of 2000 points whenever backward extrapolation is enabled, so a
    load of fewer than 2000 samples ends in that read. *)
Theorem find_initial_velocity_reads_past_series (orient : SphOrient)
  (accel : bool) (nPoints : Z) :
  fit_series_sized accel orient ->
  0 <= NUMT orient < nPoints ->
  find_initial_velocity to_double orient accel nPoints
  = Fault (OutOfBounds "time" (NUMT orient)) [] /\
  forall (flags : Flags) (fs : file_system) (path : string) (o0 : SphOrient)
         (lines : list line) (log : list diag),
    nPoints = default_nPoints ->
    accel = backwardsaccel flags ->
    havevelocity flags = true ->
    backwards flags = true ->
    path <> ""%string ->
    fs path = Some lines ->
    read_table true lines (set_inertial o0 false) = Val orient log ->
    read_orient flags fs path o0
    = Fault (OutOfBounds "time" (NUMT orient)) log.
Proof.
  intros Hs Hn. split; [now apply find_initial_velocity_overrun |].
  intros flags fs path o0 lines log -> -> Hhv Hb Hpath Hfs Hread.
  unfold read_orient.
  rewrite (proj2 (String.eqb_neq path "") Hpath), Hfs. cbv zeta.
  rewrite Hhv, Hread. cbn [bind]. unfold init_zero_time. rewrite Hhv, Hb.
  destruct (resize_val 3 (zerotimevelocities orient)) as (zv & Ezv & _);
    [lia |].
  rewrite Ezv, bind_ret_l. cbv zeta.
  destruct (backwardsaccel flags).
  - cbn [zerotimeintercepts set_zerotimevelocities].
    destruct (resize_val 3 (zerotimeintercepts orient)) as (zi & Ezi & _);
      [lia |].
    rewrite Ezi, bind_ret_l.
    rewrite find_initial_velocity_overrun; [| assumption | assumption].
    cbn. now rewrite app_nil_r.
  - rewrite find_initial_velocity_overrun; [| assumption | assumption].
    cbn. now rewrite app_nil_r.
Qed.

Lemma find_initial_velocity_reads_past_series_witness :
  find_initial_velocity to_double
    (set_zerotimevelocities Examples.even_table []) false default_nPoints
  = Fault (OutOfBounds "time" 4) [] /\
  read_orient (mkFlags true false true) Examples.fs "even.orient"
    (SphOrient_init 0)
  = Fault (OutOfBounds "time" 4) [].
Proof.
  destruct (find_initial_velocity_reads_past_series
              (set_zerotimevelocities Examples.even_table []) false
              default_nPoints) as [Hfit Hload].
  - repeat split.
  - split; [discriminate | reflexivity].
  - split; [exact Hfit |].
    apply (Hload (mkFlags true false true) Examples.fs "even.orient"%string
             (SphOrient_init 0) Examples.even_lines []); try reflexivity.
    discriminate.
Defined.

End OrientFacts.

(** ** The resolver of the coefficient table *)

Module CoefsFacts.
Import Coefs.

Lemma raw_index_in_range (q : Q) (tbl : SphCoefs) :
  2 <= vlen (t tbl) ->
  let dt := (at_ (t tbl) 1 - at_ (t tbl) 0)%Q in
  let x := ((q - at_ (t tbl) 0) / dt)%Q in
  ~ (dt == 0)%Q ->
  int_min <= Qtrunc x <= int_max ->
  raw_index q tbl = Val (Qtrunc x, dt) [].
Proof.
  intros Hlen dt x Hdt Hx. unfold raw_index. exec.
  fold dt. rewrite quotient_to_int_in_range by assumption.
  now rewrite bind_ret_l.
Qed.

(** [select_coefficient_time] brings every index into [[0, NUMT-2]] and
    writes one line on [cerr] exactly when it moves the index, at either end. *)
Lemma clamp_index_spec (tbl : SphCoefs) (indx : Z) :
  2 <= NUMT tbl ->
  exists i log,
    clamp_index tbl indx = Val i log /\
    0 <= i <= NUMT tbl - 2 /\
    (indx < 0 -> i = 0 /\ log = [(Cerr, msg_sct_before)]) /\
    (NUMT tbl - 2 < indx -> i = NUMT tbl - 2 /\ log = [(Cerr, msg_sct_after)]) /\
    (0 <= indx <= NUMT tbl - 2 -> i = indx /\ log = []).
Proof.
  intros Hn. unfold clamp_index.
  destruct (Z_lt_le_dec indx 0) as [Hneg | Hpos].
  - rewrite (proj2 (Z.ltb_lt indx 0) Hneg).
    rewrite (gtb_false indx (NUMT tbl - 2)) by lia.
    rewrite (gtb_false 0 (NUMT tbl - 2)) by lia.
    exists 0, [(Cerr, msg_sct_before)]. split; [reflexivity |].
    repeat split; try lia; intros; lia.
  - rewrite (proj2 (Z.ltb_ge indx 0) Hpos).
    destruct (Z_le_gt_dec indx (NUMT tbl - 2)) as [Hle | Hgt].
    + rewrite (gtb_false indx (NUMT tbl - 2)) by lia.
      exists indx, []. split; [reflexivity |].
      repeat split; try lia; intros; lia.
    + rewrite (gtb_true indx (NUMT tbl - 2)) by lia.
      exists (NUMT tbl - 2), [(Cerr, msg_sct_after)]. split; [reflexivity |].
      repeat split; try lia; intros; lia.
Qed.

End CoefsFacts.

(** ** The two resolvers side by side *)

Section Resolvers.
Import Orient.

(** C2, at the input where the code departs from it.  For a query before
    the first stored time [find_time_index] resets the index to [0] and
    returns with an empty log, whereas [select_coefficient_time] writes its
    line on [cerr] whenever it resets a negative index. *)
Theorem low_end_clamp_is_silent_in_find_time_index (q : Q)
  (orient : SphOrient) :
  NUMT orient = vlen (time orient) ->
  2 <= NUMT orient ->
  (q < at_ (time orient) 0)%Q ->
  find_time_index q orient
  = Val (0, (at_ (time orient) 1 - at_ (time orient) 0)%Q) [] /\
  (forall (tbl : Coefs.SphCoefs) (indx : Z),
      2 <= Coefs.NUMT tbl -> indx < 0 ->
      Coefs.clamp_index tbl indx = Val 0 [(Cerr, Coefs.msg_sct_before)]).
Proof.
  intros Hn H2 Hq. split.
  - now apply OrientFacts.find_time_index_below_start.
  - intros tbl indx Ht Hi.
    destruct (CoefsFacts.clamp_index_spec tbl indx Ht)
      as (i & log & Hc & _ & Hlow & _).
    destruct (Hlow Hi) as [-> ->]. exact Hc.
Qed.

Lemma low_end_clamp_is_silent_in_find_time_index_witness :
  find_time_index (-1) Examples.uneven_table = Val (0, 1%Q) [] /\
  Coefs.clamp_index Examples.ramp_coefs (-1)
  = Val 0 [(Cerr, Coefs.msg_sct_before)].
Proof.
  destruct (low_end_clamp_is_silent_in_find_time_index (-1)
              Examples.uneven_table) as [Hf Hc].
  - reflexivity.
  - discriminate.
  - reflexivity.
  - split; [exact Hf |]. apply Hc; [discriminate | reflexivity].
Defined.

(** C3, at the inputs where the code departs from it.  When the quotient
    [(q - T[0]) / dt] lies strictly between [-1] and [0] its floor is [-1], but
    the index that [select_coefficient_time] and the evenly spaced branch of
    the orientation evaluators compute by [(int)] is [0]. *)
Theorem uniform_index_truncates_toward_zero (q : Q) (T : list Q) :
  2 <= vlen T ->
  let dt := (at_ T 1 - at_ T 0)%Q in
  let x := ((q - at_ T 0) / dt)%Q in
  (-1 < x)%Q -> (x < 0)%Q ->
  Qfloor x = -1 /\
  (forall tbl : Coefs.SphCoefs,
      Coefs.t tbl = T -> Coefs.raw_index q tbl = Val (0, dt) []) /\
  (forall orient : SphOrient,
      time orient = T -> eventime orient = true ->
      locate_time q orient = Val (0, dt) []).
Proof.
  intros Hlen dt x Hlo Hhi.
  assert (Ht : Qtrunc x = 0) by now apply Qtrunc_small_neg.
  assert (Hdt : ~ (dt == 0)%Q).
  { apply (quotient_gap (q - at_ T 0)). fold x. intros E. rewrite E in Hhi.
    now apply (Qlt_irrefl 0). }
  split; [now apply Qfloor_small_neg |]. split.
  - intros tbl <-. rewrite <- Ht. apply CoefsFacts.raw_index_in_range.
    + exact Hlen.
    + exact Hdt.
    + fold dt. fold x. rewrite Ht. split; discriminate.
  - intros orient <- Hev. rewrite <- Ht.
    apply OrientFacts.locate_time_even; [exact Hev | exact Hlen | exact Hdt |].
    fold dt. fold x. rewrite Ht. split; discriminate.
Qed.

Lemma uniform_index_truncates_toward_zero_witness :
  Qfloor ((- (1 # 2) - 0) / (1 - 0)) = -1 /\
  Coefs.raw_index (- (1 # 2)) Examples.ramp_coefs = Val (0, (1 - 0)%Q) [].
Proof.
  destruct (uniform_index_truncates_toward_zero (- (1 # 2)) [0; 1; 2]%Q)
    as (Hf & Hc & _).
  - discriminate.
  - reflexivity.
  - reflexivity.
  - split; [exact Hf |]. apply Hc. reflexivity.
Defined.

(** C5 fails as stated.  The file [ramp.orient] holds the axis 0, 1, 2 with
    positions 0, 10, 20 and zero velocities.  Loaded with velocity columns, the
    centre at [q = -1] is [0] on each axis, from the pre-simulation model, not
    [-10]; loaded without them, the evaluator reads [time[-1]]. *)
Lemma orientation_centre_before_start_is_not_the_segment_slope :
  read_orient default_flags Examples.fs "ramp.orient" (SphOrient_init 0)
  = Val (Examples.ramp_table [0; 0; 0] [0; 0; 0] [0; 0; 0] [0; 0; 0] [])%Q [] /\
  interpolate_centre default_flags (-1)
    (Examples.ramp_table [0; 0; 0] [0; 0; 0] [0; 0; 0] [0; 0; 0] [])%Q
    [0; 0; 0]%Q
  = Val [0; 0; 0]%Q [] /\
  ~ (0 == -10)%Q /\
  read_orient (mkFlags false false false) Examples.fs "ramp4.orient"
    (SphOrient_init 0)
  = Val (Examples.ramp_table [] [] [] [] []) [] /\
  interpolate_centre (mkFlags false false false) (-1)
    (Examples.ramp_table [] [] [] [] []) [0; 0; 0]%Q
  = Fault (OutOfBounds "time" (-1)) [].
Proof.
  split; [reflexivity |]. split; [reflexivity |]. split; [discriminate |].
  split; reflexivity.
Qed.

(** C5 (as amended).  On the axis 0, 1, 2 with values 0, 10, 20:
    [select_coefficient_time] returns [-10] at [q = -1] and [30] at [q = 3],
    each after one line on [cerr], the index being clamped and [q] not;
    [interpolate_centre] returns [30] on each axis at [q = 3] under every
    setting of the switches; at [q = -1], with velocity data and without the
    acceleration switch, it returns [cen[0] + (-1 - 0) * zeroTimeSlope], the
    pre-simulation model and not the weights. *)
Theorem boundary_slope_extrapolation :
  Coefs.select_coefficient_time (-1) Examples.ramp_coefs
  = Val [[-10]]%Q [(Cerr, Coefs.msg_sct_before)] /\
  Coefs.select_coefficient_time 3 Examples.ramp_coefs
  = Val [[30]]%Q [(Cerr, Coefs.msg_sct_after)] /\
  (forall flags us vs ws zv zi c0 c1 c2,
      interpolate_centre flags 3 (Examples.ramp_table us vs ws zv zi)
        [c0; c1; c2]
      = Val [30; 30; 30]%Q []) /\
  (forall b us vs ws s0 s1 s2 zi c0 c1 c2,
      interpolate_centre (mkFlags b false true) (-1)
        (Examples.ramp_table us vs ws [s0; s1; s2] zi) [c0; c1; c2]
      = Val [0 + (-1 - 0) * s0; 0 + (-1 - 0) * s1; 0 + (-1 - 0) * s2]%Q []).
Proof.
  split; [reflexivity |]. split; [reflexivity |]. split.
  - intros [b a h] us vs ws zv zi c0 c1 c2. destruct h; reflexivity.
  - intros. reflexivity.
Qed.

End Resolvers.

(** * Further properties of orient.h *)

Module OrientMore.
Import Orient OrientFacts.

(** ** The standard mode of the evaluators *)

Lemma prepend_val {A : Type} (l : list diag) (a : A) :
  prepend l (Val a []) = Val a l.
Proof. simpl. now rewrite app_nil_r. Qed.

(** Once the index is resolved and is not taken by the early branch, the
    centre is the blend of the two samples at the clamped index. *)
Lemma interpolate_centre_standard (flags : Flags) (q : Q) (o : SphOrient)
  (centre : list Q) (indx i : Z) (dt : Q) (l : list diag) :
  locate_time q o = Val (indx, dt) l ->
  havevelocity flags && (indx <? 0) = false ->
  i = (if indx >? NUMT o - 2 then NUMT o - 2 else indx) ->
  0 <= i -> populated o -> List.length centre = 3%nat ->
  interpolate_centre flags q o centre
  = Val [ segment_blend (time o) (xcen o) i dt q;
          segment_blend (time o) (ycen o) i dt q;
          segment_blend (time o) (zcen o) i dt q ] l.
Proof.
  intros Hloc Hearly Hi H0 (Hn & H2 & Hx & Hy & Hz) Hc.
  destruct (length3 _ Hc) as (c0 & c1 & c2 & ->).
  assert (Hup : i <= NUMT o - 2)
    by (subst i; destruct (indx >? NUMT o - 2) eqn:E;
        [lia | rewrite Z.gtb_ltb in E; apply Z.ltb_ge in E; lia]).
  unfold interpolate_centre. rewrite Hloc. cbn [bind]. cbv beta iota.
  rewrite Hearly. unfold weights. rewrite <- Hi. exec.
  unfold blend_into. exec. apply prepend_val.
Qed.

Lemma interpolate_velocity_centre_standard (flags : Flags) (q : Q)
  (o : SphOrient) (velcentre : list Q) (indx i : Z) (dt : Q) (l : list diag) :
  locate_time q o = Val (indx, dt) l ->
  0 <= indx ->
  i = (if indx >? NUMT o - 2 then NUMT o - 2 else indx) ->
  populated o ->
  vlen (ucen o) = NUMT o -> vlen (vcen o) = NUMT o -> vlen (wcen o) = NUMT o ->
  List.length velcentre = 3%nat ->
  interpolate_velocity_centre flags q o velcentre
  = Val [ segment_blend (time o) (ucen o) i dt q;
          segment_blend (time o) (vcen o) i dt q;
          segment_blend (time o) (wcen o) i dt q ] l.
Proof.
  intros Hloc H0 Hi (Hn & H2 & _) Hu Hv Hw Hc.
  destruct (length3 _ Hc) as (c0 & c1 & c2 & ->).
  assert (Hi0 : 0 <= i <= NUMT o - 2)
    by (subst i; destruct (indx >? NUMT o - 2) eqn:E;
        [lia | rewrite Z.gtb_ltb in E; apply Z.ltb_ge in E; lia]).
  unfold interpolate_velocity_centre. rewrite Hloc. cbn [bind]. cbv beta iota.
  rewrite (proj2 (Z.ltb_ge indx 0) H0). unfold weights. rewrite <- Hi. exec.
  unfold blend_into. exec. apply prepend_val.
Qed.

(** ** Unevenly spaced tables inside the stored domain *)

Lemma increasing_gap (tm : list Q) (i : Z) :
  increasing tm -> 0 <= i -> i + 1 < vlen tm ->
  ~ (at_ tm (i + 1) - at_ tm i == 0)%Q.
Proof.
  intros Hinc H0 H1 Heq.
  assert (Hlt : (at_ tm i < at_ tm (i + 1))%Q) by (apply Hinc; lia).
  apply (Qlt_not_le _ _ Hlt). rewrite <- (Qplus_0_l (at_ tm i)).
  rewrite <- Heq. ring_simplify. apply Qle_refl.
Qed.

Lemma segment_blend_lerp (tm a : list Q) (i : Z) (q : Q) :
  ~ (at_ tm (i + 1) - at_ tm i == 0)%Q ->
  (segment_blend tm a i (at_ tm (i + 1) - at_ tm i) q == lerp tm a i q)%Q.
Proof. intros Hd. unfold segment_blend, lerp. field. exact Hd. Qed.

(** The scan on a strictly increasing axis, for a query inside the stored
    domain: the interval returned brackets the query. *)
Lemma find_time_index_bracket (q : Q) (o : SphOrient) :
  NUMT o = vlen (time o) -> 2 <= NUMT o -> increasing (time o) ->
  (at_ (time o) 0 <= q)%Q -> (q < at_ (time o) (NUMT o - 1))%Q ->
  exists i,
    find_time_index q o
    = Val (i, (at_ (time o) (i + 1) - at_ (time o) i)%Q) [] /\
    0 <= i <= NUMT o - 2 /\
    (at_ (time o) i <= q)%Q /\ (q < at_ (time o) (i + 1))%Q.
Proof.
  intros Hn H2 Hinc Hlo Hhi. unfold vlen in Hn.
  destruct (OrientFacts.scan_time_cases (time o) q 0)
    as [(k & Hk & Hle & Hgt & Hs) | (Hall & _)].
  - assert (Hk1 : (1 <= k)%nat).
    { destruct k; [| lia]. exfalso.
      apply (Qlt_not_le _ _ Hgt). now rewrite <- at_nth. }
    exists (Z.of_nat k - 1).
    assert (E1 : (Z.of_nat k - 1 >? NUMT o - 2) = false)
      by (apply gtb_false; lia).
    assert (E2 : (Z.of_nat k - 1 <? 0) = false) by (apply Z.ltb_ge; lia).
    split; [| split; [lia | split]].
    + unfold find_time_index. rewrite Hs, bind_ret_l. simpl Z.add. cbv zeta.
      rewrite E1, E2. cbv iota. rewrite E1. unfold when, ret.
      rewrite bind_ret_l. rewrite !vec_get_in by (unfold vlen; lia).
      now rewrite !bind_ret_l.
    + replace (Z.of_nat k - 1) with (Z.of_nat (k - 1)) by lia.
      rewrite at_nth. apply Hle. lia.
    + replace (Z.of_nat k - 1 + 1) with (Z.of_nat k) by lia.
      now rewrite at_nth.
  - exfalso. apply (Qlt_not_le _ _ Hhi).
    replace (NUMT o - 1) with (Z.of_nat (Z.to_nat (NUMT o - 1))) by lia.
    rewrite at_nth. apply Hall. lia.
Qed.

(** The centre on an unevenly spaced table, inside the stored domain. *)
Lemma interpolate_centre_uneven_bracket (flags : Flags) (q : Q) (o : SphOrient)
  (centre : list Q) :
  populated o -> eventime o = false -> increasing (time o) ->
  (at_ (time o) 0 <= q)%Q -> (q < at_ (time o) (NUMT o - 1))%Q ->
  List.length centre = 3%nat ->
  exists i r,
    0 <= i <= NUMT o - 2 /\
    (at_ (time o) i <= q)%Q /\ (q < at_ (time o) (i + 1))%Q /\
    interpolate_centre flags q o centre = Val r [] /\
    Qvec_eq r [lerp (time o) (xcen o) i q; lerp (time o) (ycen o) i q;
               lerp (time o) (zcen o) i q].
Proof.
  intros Hp Hev Hinc Hlo Hhi Hc. pose proof Hp as (Hn & H2 & _).
  destruct (find_time_index_bracket q o Hn H2 Hinc Hlo Hhi)
    as (i & Hf & Hi & Hle & Hlt).
  exists i. eexists. split; [exact Hi |]. split; [exact Hle |].
  split; [exact Hlt |]. split.
  - apply (interpolate_centre_standard flags q o centre i i
             (at_ (time o) (i + 1) - at_ (time o) i)%Q []);
      try assumption; try lia;
      match goal with
      | |- locate_time _ _ = _ => unfold locate_time; rewrite Hev; exact Hf
      | |- andb _ _ = false =>
          rewrite (proj2 (Z.ltb_ge i 0)) by lia; apply andb_false_r
      | |- i = _ => now rewrite gtb_false by lia
      end.
  - assert (Hd : ~ (at_ (time o) (i + 1) - at_ (time o) i == 0)%Q)
      by (apply increasing_gap; [assumption | lia | lia]).
    repeat constructor; now apply segment_blend_lerp.
Qed.

(** X1.  On a table flagged unevenly spaced with a strictly increasing time
    axis, a query inside the stored domain, [T[0] <= q < T[NUMT-1]], is
    answered without any diagnostic by the linear interpolation between the
    two samples that bracket it, under every setting of the switches. *)
Theorem interpolate_centre_uneven_in_domain (flags : Flags) (q : Q)
  (o : SphOrient) (centre : list Q) :
  populated o -> eventime o = false -> increasing (time o) ->
  (at_ (time o) 0 <= q)%Q -> (q < at_ (time o) (NUMT o - 1))%Q ->
  List.length centre = 3%nat ->
  exists i r,
    0 <= i <= NUMT o - 2 /\
    (at_ (time o) i <= q)%Q /\ (q < at_ (time o) (i + 1))%Q /\
    interpolate_centre flags q o centre = Val r [] /\
    Qvec_eq r [lerp (time o) (xcen o) i q; lerp (time o) (ycen o) i q;
               lerp (time o) (zcen o) i q].
Proof. exact (interpolate_centre_uneven_bracket flags q o centre). Qed.

Lemma populated_uneven_table : populated Examples.uneven_table.
Proof. repeat split. discriminate. Qed.

Lemma interpolate_centre_uneven_in_domain_witness :
  exists i r,
    0 <= i <= 1 /\
    (at_ (time Examples.uneven_table) i <= 3 # 2)%Q /\
    (3 # 2 < at_ (time Examples.uneven_table) (i + 1))%Q /\
    interpolate_centre default_flags (3 # 2) Examples.uneven_table [0; 0; 0]%Q
    = Val r [] /\
    Qvec_eq r [lerp (time Examples.uneven_table) (xcen Examples.uneven_table) i (3 # 2);
               lerp (time Examples.uneven_table) (ycen Examples.uneven_table) i (3 # 2);
               lerp (time Examples.uneven_table) (zcen Examples.uneven_table) i (3 # 2)].
Proof.
  apply (interpolate_centre_uneven_in_domain default_flags (3 # 2)
           Examples.uneven_table [0; 0; 0]%Q).
  - exact populated_uneven_table.
  - reflexivity.
  - exact OrientFacts.increasing_uneven_table.
  - discriminate.
  - reflexivity.
  - reflexivity.
Defined.

(** A stored time other than the last, on an unevenly spaced table. *)
Lemma interpolate_centre_uneven_sample (flags : Flags) (k : Z)
  (o : SphOrient) (centre : list Q) :
  populated o -> eventime o = false -> increasing (time o) ->
  0 <= k <= NUMT o - 2 ->
  List.length centre = 3%nat ->
  exists r,
    interpolate_centre flags (at_ (time o) k) o centre = Val r [] /\
    Qvec_eq r [at_ (xcen o) k; at_ (ycen o) k; at_ (zcen o) k].
Proof.
  intros Hp Hev Hinc Hk Hc. pose proof Hp as (Hn & H2 & _).
  assert (Hmono : forall a b, 0 <= a -> a <= b -> b < NUMT o ->
                    (at_ (time o) a <= at_ (time o) b)%Q).
  { intros a b Ha Hab Hb. destruct (Z.eq_dec a b) as [-> | Hne];
      [apply Qle_refl | apply Qlt_le_weak, Hinc; lia]. }
  destruct (interpolate_centre_uneven_bracket flags (at_ (time o) k) o centre)
    as (i & r & Hi & Hle & Hlt & Hr & Hv); try assumption.
  - apply Hmono; lia.
  - apply Hinc; lia.
  - assert (Hik : i = k).
    { destruct (Z_lt_le_dec k i) as [Hki | Hik].
      - exfalso. apply (Qle_not_lt _ _ Hle). apply Hinc; lia.
      - destruct (Z.eq_dec i k) as [E | NE]; [exact E |]. exfalso.
        apply (Qlt_not_le _ _ Hlt). apply Hmono; lia. }
    subst i. exists r. split; [exact Hr |].
    inversion Hv as [| ? ? ? ? Hx Hv1]; subst.
    inversion Hv1 as [| ? ? ? ? Hy Hv2]; subst.
    inversion Hv2 as [| ? ? ? ? Hz Hv3]; subst. inversion Hv3; subst.
    assert (Hd : ~ (at_ (time o) (k + 1) - at_ (time o) k == 0)%Q)
      by (apply increasing_gap; [assumption | lia | lia]).
    repeat constructor.
    + rewrite Hx. unfold lerp. field. exact Hd.
    + rewrite Hy. unfold lerp. field. exact Hd.
    + rewrite Hz. unfold lerp. field. exact Hd.
Qed.

(** X2.  At a stored time [T[k]] other than the last, an unevenly spaced
    table returns the stored centre itself. *)
Theorem interpolate_centre_uneven_at_sample (flags : Flags) (k : Z)
  (o : SphOrient) (centre : list Q) :
  populated o -> eventime o = false -> increasing (time o) ->
  0 <= k <= NUMT o - 2 ->
  List.length centre = 3%nat ->
  exists r,
    interpolate_centre flags (at_ (time o) k) o centre = Val r [] /\
    Qvec_eq r [at_ (xcen o) k; at_ (ycen o) k; at_ (zcen o) k].
Proof. exact (interpolate_centre_uneven_sample flags k o centre). Qed.

Lemma interpolate_centre_uneven_at_sample_witness :
  exists r,
    interpolate_centre default_flags (at_ (time Examples.uneven_table) 1)
      Examples.uneven_table [0; 0; 0]%Q = Val r [] /\
    Qvec_eq r [at_ (xcen Examples.uneven_table) 1;
               at_ (ycen Examples.uneven_table) 1;
               at_ (zcen Examples.uneven_table) 1].
Proof.
  apply (interpolate_centre_uneven_at_sample default_flags 1
           Examples.uneven_table [0; 0; 0]%Q).
  - exact populated_uneven_table.
  - reflexivity.
  - exact OrientFacts.increasing_uneven_table.
  - split; discriminate.
  - reflexivity.
Defined.

(** ** Evenly spaced tables from the first stored time on *)

Lemma Qtrunc_nonneg (x : Q) : (0 <= x)%Q -> 0 <= Qtrunc x.
Proof.
  destruct x as [n d]. unfold Qle, Qtrunc. simpl. intros H.
  apply Z.quot_pos; lia.
Qed.

Lemma Qtrunc_inject (x : Q) (k : Z) : (x == inject_Z k)%Q -> Qtrunc x = k.
Proof.
  destruct x as [n d]. unfold Qeq, Qtrunc, inject_Z. simpl. intros H.
  replace n with (k * Zpos d) by lia. apply Z.quot_mul. discriminate.
Qed.

(** From the first stored time on, and as long as the quotient is an [int],
    the evenly spaced branch blends the two samples at the truncated index,
    brought down to [NUMT-2] beyond the end, and writes nothing. *)
Lemma interpolate_centre_even_forward (flags : Flags) (q : Q) (o : SphOrient)
  (centre : list Q) :
  populated o -> eventime o = true ->
  let dt := (at_ (time o) 1 - at_ (time o) 0)%Q in
  let x := ((q - at_ (time o) 0) / dt)%Q in
  ~ (dt == 0)%Q -> (0 <= x)%Q -> Qtrunc x <= int_max ->
  List.length centre = 3%nat ->
  let i := Z.min (Qtrunc x) (NUMT o - 2) in
  interpolate_centre flags q o centre
  = Val [ segment_blend (time o) (xcen o) i dt q;
          segment_blend (time o) (ycen o) i dt q;
          segment_blend (time o) (zcen o) i dt q ] [].
Proof.
  intros Hp Hev dt x Hdt Hx Hmax Hc i. pose proof Hp as (Hn & H2 & _).
  assert (H0 : 0 <= Qtrunc x) by now apply Qtrunc_nonneg.
  apply (interpolate_centre_standard flags q o centre (Qtrunc x) i dt []);
    try assumption.
  - apply OrientFacts.locate_time_even; [exact Hev | lia | exact Hdt |].
    fold dt. fold x. unfold int_min. lia.
  - rewrite (proj2 (Z.ltb_ge (Qtrunc x) 0)) by lia. apply andb_false_r.
  - unfold i. destruct (Qtrunc x >? NUMT o - 2) eqn:E; rewrite Z.gtb_ltb in E;
      [apply Z.ltb_lt in E | apply Z.ltb_ge in E]; lia.
  - unfold i. lia.
Qed.


Lemma populated_even_table : populated Examples.even_table.
Proof. repeat split. discriminate. Qed.


Lemma uniform_gap (tm : list Q) (j : Z) :
  uniform_axis tm -> 0 <= j -> j + 1 < vlen tm ->
  (at_ tm (j + 1) == at_ tm j + (at_ tm 1 - at_ tm 0))%Q.
Proof.
  intros Hu H0 H1. rewrite (Hu (j + 1)), (Hu j) by lia.
  rewrite inject_Z_plus. ring.
Qed.

Lemma Qtrunc_lower_nonneg (a : Z) (x : Q) :
  (inject_Z a <= x)%Q -> a <= Qtrunc x.
Proof.
  destruct x as [n d]. unfold Qle, Qtrunc, inject_Z. simpl. intros H.
  rewrite <- (Z.quot_mul a (Zpos d)) by discriminate.
  apply Z.quot_le_mono; lia.
Qed.

Lemma Qvec_eq_3 (a b c a' b' c' : Q) :
  (a == a')%Q -> (b == b')%Q -> (c == c')%Q -> Qvec_eq [a; b; c] [a'; b'; c'].
Proof. intros; repeat constructor; assumption. Qed.

(** A stored time on an evenly spaced table with a uniform axis. *)
Lemma interpolate_centre_even_sample (flags : Flags) (k : Z)
  (o : SphOrient) (centre : list Q) :
  populated o -> eventime o = true -> uniform_axis (time o) ->
  (at_ (time o) 0 < at_ (time o) 1)%Q ->
  0 <= k <= NUMT o - 1 -> NUMT o <= int_max ->
  List.length centre = 3%nat ->
  exists r,
    interpolate_centre flags (at_ (time o) k) o centre = Val r [] /\
    Qvec_eq r [at_ (xcen o) k; at_ (ycen o) k; at_ (zcen o) k].
Proof.
  intros Hp Hev Hu Hpos Hk Hmax Hc. pose proof Hp as (Hn & H2 & _).
  set (dt := (at_ (time o) 1 - at_ (time o) 0)%Q).
  assert (Hdt : ~ (dt == 0)%Q).
  { intros E. apply (Qlt_not_le _ _ Hpos).
    rewrite <- (Qplus_0_l (at_ (time o) 0)). rewrite <- E. unfold dt.
    ring_simplify. apply Qle_refl. }
  set (x := ((at_ (time o) k - at_ (time o) 0) / dt)%Q).
  assert (Hxk : (x == inject_Z k)%Q).
  { unfold x. rewrite (Hu k) by lia. fold dt. field. exact Hdt. }
  assert (Ht : Qtrunc x = k) by now apply Qtrunc_inject.
  assert (Hx0 : (0 <= x)%Q).
  { rewrite Hxk. unfold Qle, inject_Z. simpl. lia. }
  eexists. split.
  - apply interpolate_centre_even_forward; try assumption.
    fold dt. fold x. lia.
  - fold dt. fold x. rewrite Ht.
    destruct (Z_le_gt_dec k (NUMT o - 2)) as [Hin | Hlast].
    + rewrite Z.min_l by lia.
      assert (Hg : (at_ (time o) (k + 1) == at_ (time o) k + dt)%Q)
        by (apply uniform_gap; [exact Hu | lia | lia]).
      apply Qvec_eq_3; unfold segment_blend; rewrite Hg; field; exact Hdt.
    + rewrite Z.min_r by lia.
      assert (Hg : (at_ (time o) (NUMT o - 2 + 1)
                    == at_ (time o) (NUMT o - 2) + dt)%Q)
        by (apply uniform_gap; [exact Hu | lia | lia]).
      assert (Ek : k = NUMT o - 2 + 1) by lia. rewrite Ek.
      apply Qvec_eq_3; unfold segment_blend; rewrite Hg; field; exact Hdt.
Qed.

(** X4.  On a table flagged evenly spaced whose axis really advances by
    its first gap, [interpolate_centre] queried at any stored time [T[k]],
    the last one included, returns the stored centre and writes nothing. *)
Theorem interpolate_centre_even_at_sample (flags : Flags) (k : Z)
  (o : SphOrient) (centre : list Q) :
  populated o -> eventime o = true -> uniform_axis (time o) ->
  (at_ (time o) 0 < at_ (time o) 1)%Q ->
  0 <= k <= NUMT o - 1 -> NUMT o <= int_max ->
  List.length centre = 3%nat ->
  exists r,
    interpolate_centre flags (at_ (time o) k) o centre = Val r [] /\
    Qvec_eq r [at_ (xcen o) k; at_ (ycen o) k; at_ (zcen o) k].
Proof. exact (interpolate_centre_even_sample flags k o centre). Qed.

Lemma uniform_even_table : uniform_axis (time Examples.even_table).
Proof.
  intros j Hj. change (vlen (time Examples.even_table)) with 4 in Hj.
  assert (Hc : j = 0 \/ j = 1 \/ j = 2 \/ j = 3) by lia.
  destruct Hc as [-> | [-> | [-> | ->]]]; reflexivity.
Qed.

Lemma interpolate_centre_even_at_sample_witness :
  exists r,
    interpolate_centre default_flags (at_ (time Examples.even_table) 3)
      Examples.even_table [0; 0; 0]%Q = Val r [] /\
    Qvec_eq r [at_ (xcen Examples.even_table) 3;
               at_ (ycen Examples.even_table) 3;
               at_ (zcen Examples.even_table) 3].
Proof.
  apply (interpolate_centre_even_at_sample default_flags 3
           Examples.even_table [0; 0; 0]%Q).
  - exact populated_even_table.
  - reflexivity.
  - exact uniform_even_table.
  - reflexivity.
  - split; discriminate.
  - discriminate.
  - reflexivity.
Defined.

(** X5.  On such a table a query at or beyond the last stored time is
    answered, without any diagnostic, by extending the last segment:
    [cen[NUMT-1] + (q - T[NUMT-1]) / dt * (cen[NUMT-1] - cen[NUMT-2])]. *)
Theorem interpolate_centre_even_beyond_end (flags : Flags) (q : Q)
  (o : SphOrient) (centre : list Q) :
  populated o -> eventime o = true -> uniform_axis (time o) ->
  let dt := (at_ (time o) 1 - at_ (time o) 0)%Q in
  let x := ((q - at_ (time o) 0) / dt)%Q in
  ~ (dt == 0)%Q ->
  (inject_Z (NUMT o - 1) <= x)%Q -> Qtrunc x <= int_max ->
  List.length centre = 3%nat ->
  let n := NUMT o in
  let w := ((q - at_ (time o) (n - 1)) / dt)%Q in
  exists r,
    interpolate_centre flags q o centre = Val r [] /\
    Qvec_eq r
      [ at_ (xcen o) (n - 1) + w * (at_ (xcen o) (n - 1) - at_ (xcen o) (n - 2));
        at_ (ycen o) (n - 1) + w * (at_ (ycen o) (n - 1) - at_ (ycen o) (n - 2));
        at_ (zcen o) (n - 1) + w * (at_ (zcen o) (n - 1) - at_ (zcen o) (n - 2))
      ]%Q.
Proof.
  intros Hp Hev Hu dt x Hdt Hx Hmax Hc n w. pose proof Hp as (Hn & H2 & _).
  assert (Ht : NUMT o - 1 <= Qtrunc x) by now apply Qtrunc_lower_nonneg.
  assert (Hx0 : (0 <= x)%Q).
  { apply Qle_trans with (inject_Z (NUMT o - 1)); [| exact Hx].
    unfold Qle, inject_Z. simpl. lia. }
  eexists. split.
  - now apply interpolate_centre_even_forward.
  - fold dt. fold x. rewrite Z.min_r by lia.
    assert (Hg : (at_ (time o) (NUMT o - 2 + 1)
                  == at_ (time o) (NUMT o - 2) + dt)%Q)
      by (apply uniform_gap; [exact Hu | lia | lia]).
    unfold w, n. replace (NUMT o - 1) with (NUMT o - 2 + 1) by lia.
    apply Qvec_eq_3; unfold segment_blend; rewrite Hg; field; exact Hdt.
Qed.

Lemma interpolate_centre_even_beyond_end_witness :
  exists r,
    interpolate_centre default_flags 5 Examples.even_table [0; 0; 0]%Q
    = Val r [] /\
    Qvec_eq r [50; 50; 50]%Q.
Proof.
  destruct (interpolate_centre_even_beyond_end default_flags 5
              Examples.even_table [0; 0; 0]%Q) as (r & Hr & Hv).
  - exact populated_even_table.
  - reflexivity.
  - exact uniform_even_table.
  - discriminate.
  - discriminate.
  - discriminate.
  - reflexivity.
  - exists r. split; [exact Hr |].
    inversion Hv as [| ? ? ? ? Hx Hv1]; subst.
    inversion Hv1 as [| ? ? ? ? Hy Hv2]; subst.
    inversion Hv2 as [| ? ? ? ? Hz Hv3]; subst. inversion Hv3; subst.
    repeat constructor;
      [rewrite Hx | rewrite Hy | rewrite Hz]; reflexivity.
Defined.

(** ** What the loader stores *)

Lemma replace_nth_app_length (c z : list Q) (y x : Q) :
  replace_nth (List.length c) (c ++ y :: z) x = c ++ x :: z.
Proof. induction c as [| a c IH]; simpl; [reflexivity | now rewrite IH]. Qed.

Lemma padded_snoc (n : Z) (col : list Q) (x : Q) :
  (List.length col < Z.to_nat n)%nat ->
  replace_nth (List.length col) (padded n col) x = padded n (col ++ [x]).
Proof.
  intros Hlt. unfold padded. rewrite length_app. cbn [List.length].
  replace (Z.to_nat n - List.length col)%nat
    with (S (Z.to_nat n - (List.length col + 1)))%nat by lia.
  cbn [repeat]. rewrite replace_nth_app_length. now rewrite <- app_assoc.
Qed.

Lemma padded_length (n : Z) (col : list Q) :
  (List.length col <= Z.to_nat n)%nat -> 0 <= n -> vlen (padded n col) = n.
Proof.
  intros Hle Hn. unfold vlen, padded. rewrite length_app, repeat_length. lia.
Qed.

Lemma padded_tail_zero (n : Z) (col : list Q) :
  at_ (padded n col) (Z.of_nat (List.length col)) = 0%Q.
Proof.
  unfold at_, padded. rewrite Nat2Z.id, app_nth2 by lia.
  rewrite Nat.sub_diag. destruct (Z.to_nat n - List.length col)%nat; reflexivity.
Qed.

Lemma extract_chain (k : nat) (toks : line) :
  extract (ss_after k toks) 0%Q = (nth k toks 0%Q, ss_after (S k) toks).
Proof.
  unfold ss_after. revert k. induction toks as [| t toks IH]; intros k.
  - destruct k; reflexivity.
  - destruct k as [| k]; [reflexivity |].
    specialize (IH k). cbn [List.length skipn nth].
    change (S k <=? S (List.length toks))%nat with (k <=? List.length toks)%nat.
    change (S (S k) <=? S (List.length toks))%nat
      with (S k <=? List.length toks)%nat.
    exact IH.
Qed.

Lemma read_into_padded (name : string) (n : Z) (col : list Q) (k : nat)
  (toks : line) :
  (List.length col < Z.to_nat n)%nat ->
  read_into name (padded n col) (Z.of_nat (List.length col)) (ss_after k toks)
  = Val (padded n (col ++ [nth k toks 0%Q]), ss_after (S k) toks) [].
Proof.
  intros Hlt. unfold read_into.
  assert (Hb : 0 <= Z.of_nat (List.length col) < vlen (padded n col))
    by (rewrite padded_length by lia; lia).
  rewrite vec_get_in, bind_ret_l by exact Hb.
  rewrite padded_tail_zero, extract_chain.
  unfold vec_set. rewrite in_bounds_true by exact Hb.
  rewrite Nat2Z.id, padded_snoc by exact Hlt. reflexivity.
Qed.

Lemma column_length (k : nat) (rows : list line) :
  List.length (column k rows) = List.length rows.
Proof. apply length_map. Qed.

Lemma column_snoc (k : nat) (rows : list line) (r : line) :
  column k (rows ++ [r]) = column k rows ++ [nth k r 0%Q].
Proof. unfold column. now rewrite map_app. Qed.

Lemma read_into_column (name : string) (n : Z) (j k : nat)
  (done : list line) (r : line) :
  (List.length done < Z.to_nat n)%nat ->
  read_into name (padded n (column j done)) (Z.of_nat (List.length done))
    (ss_after k r)
  = Val (padded n (column j done ++ [nth k r 0%Q]), ss_after (S k) r) [].
Proof.
  intros Hlt. pose proof (read_into_padded name n (column j done) k r) as H.
  rewrite column_length in H. exact (H Hlt).
Qed.

(** One data line stored into the table built so far. *)
Lemma read_row_filled (hv : bool) (n : Z) (done : list line) (r : line)
  (base : SphOrient) :
  (List.length done < Z.to_nat n)%nat ->
  read_row hv r (Z.of_nat (List.length done)) (filled hv n done base)
  = Val (filled hv n (done ++ [r]) base) [].
Proof.
  intros Hlt. unfold read_row, filled.
  change (r, true) with (ss_after 0 r).
  rewrite !column_snoc.
  destruct hv;
    repeat (cbn [time xcen ycen zcen ucen vcen wcen set_time set_xcen set_ycen
                   set_zcen set_ucen set_vcen set_wcen];
            rewrite read_into_column by exact Hlt;
            rewrite bind_ret_l; cbv beta iota);
    reflexivity.
Qed.

(** The data lines stored one after the other. *)
Lemma read_rows_filled (hv : bool) (n : Z) (base : SphOrient) :
  forall (rows done : list line),
    (List.length done + List.length rows <= Z.to_nat n)%nat ->
    read_lines hv rows (Z.of_nat (List.length done) + 1)
      (filled hv n done base)
    = Val (filled hv n (done ++ rows) base) [].
Proof.
  induction rows as [| r rows IH]; intros done Hlen.
  - now rewrite app_nil_r.
  - cbn [read_lines]. cbn [List.length] in Hlen.
    rewrite (proj2 (Z.eqb_neq _ 0)) by lia.
    replace (Z.of_nat (List.length done) + 1 - 1)
      with (Z.of_nat (List.length done)) by lia.
    rewrite read_row_filled, bind_ret_l by lia.
    replace (Z.of_nat (List.length done) + 1)
      with (Z.of_nat (List.length (done ++ [r]))) by (rewrite length_app; cbn; lia).
    rewrite IH by (rewrite length_app; cbn; lia).
    now rewrite <- app_assoc.
Qed.

Lemma read_header_filled (hv : bool) (h : line) (numt0 : Z) :
  0 <= extract_int h numt0 ->
  read_header hv h (set_inertial (SphOrient_init numt0) false)
  = Val (filled hv (extract_int h numt0) []
           (set_inertial (SphOrient_init numt0) false)) [].
Proof.
  intros Hn. unfold read_header, resize.
  cbn [NUMT set_NUMT set_inertial SphOrient_init time xcen ycen zcen ucen vcen
       wcen set_time set_xcen set_ycen set_zcen set_ucen set_vcen set_wcen
       inertial eventime zerotimevelocities zerotimeintercepts].
  rewrite (proj2 (Z.ltb_ge (extract_int h numt0) 0) Hn). rewrite firstn_nil.
  destruct hv; reflexivity.
Qed.

(** The first half of the loader on a fresh structure: the series are the
    columns of the file, followed by zeros where data lines are missing. *)
Lemma read_table_filled (hv : bool) (h : line) (rows : list line) (numt0 : Z) :
  2 <= extract_int h numt0 ->
  Z.of_nat (List.length rows) <= extract_int h numt0 ->
  exists b,
    read_table hv (h :: rows) (set_inertial (SphOrient_init numt0) false)
    = Val (set_eventime
             (filled hv (extract_int h numt0) rows
                (set_inertial (SphOrient_init numt0) false)) b) [].
Proof.
  intros H2 Hrows. unfold read_table. cbn [read_lines].
  change (0 =? 0) with true. cbv iota.
  rewrite read_header_filled, bind_ret_l by lia.
  change (0 + 1) with (Z.of_nat (List.length (@nil line)) + 1).
  rewrite read_rows_filled, bind_ret_l by (cbn [List.length]; lia).
  cbn [app].
  set (tbl := filled hv (extract_int h numt0) rows
                (set_inertial (SphOrient_init numt0) false)).
  assert (Ht : vlen (time tbl) = extract_int h numt0).
  { unfold tbl. cbn [time filled]. apply padded_length; [| lia].
    rewrite column_length. lia. }
  rewrite !vec_get_in by lia. exec.
  destruct (OrientFacts.check_spacing_spec
              (at_ (time tbl) 1 - at_ (time tbl) 0)
              (Z.to_nat (NUMT tbl - 2)) 2 tbl) as (b & Hb & _);
    [lia | unfold tbl at 1; cbn [NUMT filled]; lia |].
  exists b. exact Hb.
Qed.

(** Without backward extrapolation the slopes are the first velocities. *)
Lemma init_zero_time_default (flags : Flags) (o : SphOrient) :
  havevelocity flags = true -> backwards flags = false ->
  1 <= vlen (ucen o) -> 1 <= vlen (vcen o) -> 1 <= vlen (wcen o) ->
  init_zero_time flags o
  = Val (set_zerotimevelocities o
           [at_ (ucen o) 0; at_ (vcen o) 0; at_ (wcen o) 0]) [].
Proof.
  intros Hhv Hb Hu Hv Hw. unfold init_zero_time. rewrite Hhv, Hb.
  destruct (resize_val 3 (zerotimevelocities o)) as (zv & Ezv & Lzv); [lia |].
  rewrite Ezv, bind_ret_l.
  destruct (length3 zv) as (a & b & c & ->); [unfold vlen in Lzv; lia |].
  cbn [ucen vcen wcen set_zerotimevelocities]. exec. reflexivity.
Qed.

(** The whole load of a file that declares at least two samples and no
    fewer than it holds, without backward extrapolation. *)
Lemma read_orient_filled (flags : Flags) (fs : file_system) (path : string)
  (numt0 : Z) (h : line) (rows : list line) :
  path <> ""%string ->
  fs path = Some (h :: rows) ->
  2 <= extract_int h numt0 ->
  Z.of_nat (List.length rows) <= extract_int h numt0 ->
  backwards flags = false ->
  exists b,
    let t := set_eventime
               (filled (havevelocity flags) (extract_int h numt0) rows
                  (set_inertial (SphOrient_init numt0) false)) b in
    read_orient flags fs path (SphOrient_init numt0)
    = Val (if havevelocity flags
           then set_zerotimevelocities t
                  [at_ (ucen t) 0; at_ (vcen t) 0; at_ (wcen t) 0]
           else t) [].
Proof.
  intros Hpath Hfs H2 Hrows Hb. unfold read_orient.
  rewrite (proj2 (String.eqb_neq path "") Hpath), Hfs. cbv zeta.
  destruct (read_table_filled (havevelocity flags) h rows numt0 H2 Hrows)
    as (b & Hread).
  exists b. rewrite Hread, bind_ret_l.
  destruct (havevelocity flags) eqn:Hhv.
  - apply init_zero_time_default; try assumption;
      cbn [ucen vcen wcen set_eventime filled];
      rewrite padded_length; try lia; rewrite column_length; lia.
  - unfold init_zero_time. now rewrite Hhv.
Qed.

(** X6.  [read_orient] stores the file column by column.  For a file whose
    header declares [n >= 2] samples (a blank header leaving the [NUMT] of the
    structure in that place) and that holds at most [n] data lines,
    loaded into a default-constructed table without backward extrapolation,
    the load returns a table that is no longer inertial, with [NUMT = n],
    whose time and position series are columns 0 to 3 of the data lines and
    whose velocity series are columns 4 to 6, each followed by zeros up to [n]
    entries; an entry whose token is missing from its line keeps the zero of
    the resize.  Without velocity columns the velocity series and the slopes
    stay empty. *)
Theorem read_orient_stores_columns (flags : Flags) (fs : file_system)
  (path : string) (numt0 : Z) (h : line) (rows : list line) :
  path <> ""%string ->
  fs path = Some (h :: rows) ->
  2 <= extract_int h numt0 ->
  Z.of_nat (List.length rows) <= extract_int h numt0 ->
  backwards flags = false ->
  let n := extract_int h numt0 in
  exists tbl,
    read_orient flags fs path (SphOrient_init numt0) = Val tbl [] /\
    inertial tbl = false /\ NUMT tbl = n /\
    time tbl = padded n (column 0 rows) /\
    xcen tbl = padded n (column 1 rows) /\
    ycen tbl = padded n (column 2 rows) /\
    zcen tbl = padded n (column 3 rows) /\
    (if havevelocity flags
     then ucen tbl = padded n (column 4 rows) /\
          vcen tbl = padded n (column 5 rows) /\
          wcen tbl = padded n (column 6 rows)
     else ucen tbl = [] /\ vcen tbl = [] /\ wcen tbl = [] /\
          zerotimevelocities tbl = []).
Proof.
  intros Hpath Hfs H2 Hrows Hb n.
  destruct (read_orient_filled flags fs path numt0 h rows Hpath Hfs H2 Hrows Hb)
    as (b & Hload).
  cbv zeta in Hload. eexists. split; [exact Hload |].
  destruct (havevelocity flags); cbn; repeat split.
Qed.

Lemma read_orient_stores_columns_witness :
  exists tbl,
    read_orient default_flags Examples.fs "even.orient" (SphOrient_init 0)
    = Val tbl [] /\
    time tbl = padded 4 (column 0 (tl Examples.even_lines)) /\
    ucen tbl = padded 4 (column 4 (tl Examples.even_lines)).
Proof.
  destruct (read_orient_stores_columns default_flags Examples.fs
              "even.orient" 0 [4]%Q (tl Examples.even_lines))
    as (tbl & Hl & _ & _ & Ht & _ & _ & _ & Hu & _).
  - discriminate.
  - reflexivity.
  - discriminate.
  - discriminate.
  - reflexivity.
  - exists tbl. repeat split; assumption.
Defined.

(** X7.  Loaded with velocity columns and without backward extrapolation,
    the table carries as its three slopes the first stored velocity
    [(ucen[0], vcen[0], wcen[0])], and no intercepts. *)
Theorem read_orient_default_slopes (flags : Flags) (fs : file_system)
  (path : string) (numt0 : Z) (h : line) (rows : list line) :
  path <> ""%string ->
  fs path = Some (h :: rows) ->
  2 <= extract_int h numt0 ->
  Z.of_nat (List.length rows) <= extract_int h numt0 ->
  backwards flags = false ->
  havevelocity flags = true ->
  exists tbl,
    read_orient flags fs path (SphOrient_init numt0) = Val tbl [] /\
    zerotimevelocities tbl
    = [at_ (ucen tbl) 0; at_ (vcen tbl) 0; at_ (wcen tbl) 0] /\
    zerotimeintercepts tbl = [].
Proof.
  intros Hpath Hfs H2 Hrows Hb Hhv.
  destruct (read_orient_filled flags fs path numt0 h rows Hpath Hfs H2 Hrows Hb)
    as (b & Hload).
  cbv zeta in Hload. rewrite Hhv in Hload.
  eexists. split; [exact Hload |]. split; reflexivity.
Qed.

Lemma read_orient_default_slopes_witness :
  exists tbl,
    read_orient default_flags Examples.fs "uneven.orient" (SphOrient_init 0)
    = Val tbl [] /\
    zerotimevelocities tbl
    = [at_ (ucen tbl) 0; at_ (vcen tbl) 0; at_ (wcen tbl) 0] /\
    zerotimeintercepts tbl = [].
Proof.
  apply (read_orient_default_slopes default_flags Examples.fs "uneven.orient"
           0 [3]%Q (tl Examples.uneven_lines)).
  - discriminate.
  - reflexivity.
  - discriminate.
  - discriminate.
  - reflexivity.
  - reflexivity.
Defined.

(** ** Queries the table cannot answer *)

Lemma vec_get_nil (name : string) (i : Z) :
  vec_get name [] i = Fault (OutOfBounds name i) [].
Proof. apply vec_get_out. unfold vlen. cbn [List.length]. lia. Qed.

Lemma returns_prepend {A : Type} (l : list diag) (m : outcome A) :
  returns (prepend l m) = returns m.
Proof. now destruct m. Qed.

Lemma returns_bind_false {A B : Type} (m : outcome A) (k : A -> outcome B) :
  (forall a, returns (k a) = false) -> returns (bind m k) = false.
Proof.
  intros Hk. destruct m as [a l | c l | f l]; cbn [bind]; [| reflexivity ..].
  now rewrite returns_prepend.
Qed.

(** X8.  [interpolate_centre] has no lower clamp of its own.  With the
    velocity switch off, on a table flagged evenly spaced, a query at least
    one step before the first stored time keeps its negative index and the
    evaluator reads the time axis at a negative position. *)
Theorem interpolate_centre_without_velocity_reads_before_axis (flags : Flags)
  (q : Q) (o : SphOrient) (centre : list Q) :
  populated o -> eventime o = true -> havevelocity flags = false ->
  let dt := (at_ (time o) 1 - at_ (time o) 0)%Q in
  let x := ((q - at_ (time o) 0) / dt)%Q in
  (inject_Z int_min <= x)%Q -> (x <= -1)%Q ->
  exists i,
    i < 0 /\
    interpolate_centre flags q o centre = Fault (OutOfBounds "time" i) [].
Proof.
  intros (Hn & H2 & _) Hev Hhv dt x Hlo Hhi.
  assert (Hneg : Qtrunc x <= -1) by now apply Qtrunc_le_m1.
  assert (Hmin : int_min <= Qtrunc x)
    by (apply Qtrunc_lower; [unfold int_min; lia | exact Hlo]).
  assert (Hloc : locate_time q o = Val (Qtrunc x, dt) []).
  { apply locate_time_even;
      [exact Hev | lia | exact (quotient_le_m1_gap _ _ Hhi) |].
    fold dt; fold x. unfold int_max. lia. }
  unfold interpolate_centre. rewrite Hloc, Hhv. exec. cbn [andb].
  unfold weights. rewrite (gtb_false (Qtrunc x) (NUMT o - 2)) by lia.
  destruct (Z.eq_dec (Qtrunc x) (-1)) as [E | NE].
  - exists (-1). split; [lia |]. rewrite E. cbn [Z.add Z.opp Z.pos_sub].
    rewrite vec_get_in, bind_ret_l by lia.
    rewrite vec_get_out by lia. reflexivity.
  - exists (Qtrunc x + 1). split; [lia |].
    rewrite vec_get_out by lia. reflexivity.
Qed.

Lemma populated_ramp_table (us vs ws zv zi : list Q) :
  populated (Examples.ramp_table us vs ws zv zi).
Proof. repeat split. discriminate. Qed.

Lemma interpolate_centre_without_velocity_reads_before_axis_witness :
  exists i,
    i < 0 /\
    interpolate_centre (mkFlags false false false) (-1)
      (Examples.ramp_table [] [] [] [] []) [0; 0; 0]%Q
    = Fault (OutOfBounds "time" i) [].
Proof.
  apply (interpolate_centre_without_velocity_reads_before_axis
           (mkFlags false false false) (-1)
           (Examples.ramp_table [] [] [] [] []) [0; 0; 0]%Q).
  - apply populated_ramp_table.
  - reflexivity.
  - reflexivity.
  - discriminate.
  - discriminate.
Defined.

(** X9.  [interpolate_velocity_centre] never consults the velocity switch.
    On a table that holds no velocity series and no slopes, as [read_orient]
    leaves it without velocity columns, no query time at all gets a velocity
    back: every path of the evaluator runs into a read of an empty vector (or
    stops earlier in the index resolution). *)
Theorem interpolate_velocity_centre_needs_velocity_series (flags : Flags)
  (q : Q) (o : SphOrient) (velcentre : list Q) :
  ucen o = [] -> zerotimevelocities o = [] ->
  returns (interpolate_velocity_centre flags q o velcentre) = false.
Proof.
  intros Hu Hzv. unfold interpolate_velocity_centre.
  apply returns_bind_false. intros [indx dt].
  destruct (indx <? 0); [destruct (backwardsaccel flags) |].
  - apply returns_bind_false. intros t0. rewrite Hzv, vec_get_nil. reflexivity.
  - rewrite Hzv, vec_get_nil. reflexivity.
  - apply returns_bind_false. intros [[i x1] x2].
    unfold blend_into. rewrite Hu, vec_get_nil. reflexivity.
Qed.

Lemma interpolate_velocity_centre_needs_velocity_series_witness :
  returns (interpolate_velocity_centre (mkFlags false false false) (1 # 2)
             (Examples.ramp_table [] [] [] [] []) [0; 0; 0]%Q) = false.
Proof.
  apply (interpolate_velocity_centre_needs_velocity_series
           (mkFlags false false false) (1 # 2)
           (Examples.ramp_table [] [] [] [] []) [0; 0; 0]%Q); reflexivity.
Defined.

(** X10.  The acceleration switch alone is not enough.  On a table with
    velocity data but without intercepts, as [read_orient] leaves it when
    backward extrapolation was off, a query at least one step before the first
    stored time with the acceleration switch on makes [interpolate_centre]
    read [zerotimeintercepts[0]] out of bounds. *)
Theorem acceleration_without_intercepts_reads_out_of_bounds (flags : Flags)
  (q : Q) (o : SphOrient) (centre : list Q) :
  populated o -> eventime o = true ->
  havevelocity flags = true -> backwardsaccel flags = true ->
  vlen (zerotimevelocities o) = 3 -> zerotimeintercepts o = [] ->
  let dt := (at_ (time o) 1 - at_ (time o) 0)%Q in
  let x := ((q - at_ (time o) 0) / dt)%Q in
  (inject_Z int_min <= x)%Q -> (x <= -1)%Q ->
  interpolate_centre flags q o centre
  = Fault (OutOfBounds "zerotimeintercepts" 0) [].
Proof.
  intros (Hn & H2 & Hx & _) Hev Hhv Hacc Hzv Hzi dt x Hlo Hhi.
  assert (Hneg : Qtrunc x <= -1) by now apply Qtrunc_le_m1.
  assert (Hmin : int_min <= Qtrunc x)
    by (apply Qtrunc_lower; [unfold int_min; lia | exact Hlo]).
  assert (Hloc : locate_time q o = Val (Qtrunc x, dt) []).
  { apply locate_time_even;
      [exact Hev | lia | exact (quotient_le_m1_gap _ _ Hhi) |].
    fold dt; fold x. unfold int_max. lia. }
  unfold interpolate_centre. rewrite Hloc, Hhv, Hacc. exec.
  rewrite (proj2 (Z.ltb_lt (Qtrunc x) 0)) by lia. cbn [andb]. exec.
  rewrite Hzi, vec_get_nil. reflexivity.
Qed.

Lemma acceleration_without_intercepts_reads_out_of_bounds_witness :
  interpolate_centre (mkFlags false true true) (-1) Examples.even_table
    [0; 0; 0]%Q
  = Fault (OutOfBounds "zerotimeintercepts" 0) [].
Proof.
  apply (acceleration_without_intercepts_reads_out_of_bounds
           (mkFlags false true true) (-1) Examples.even_table [0; 0; 0]%Q).
  - exact populated_even_table.
  - reflexivity.
  - reflexivity.
  - reflexivity.
  - reflexivity.
  - reflexivity.
  - discriminate.
  - discriminate.
Defined.

(** ** How a load can end *)

Lemma sized_filled (hv : bool) (n : Z) (done : list line) (base : SphOrient) :
  0 <= n -> (List.length done <= Z.to_nat n)%nat ->
  sized hv (filled hv n done base).
Proof.
  intros Hn Hlen. unfold sized, filled.
  cbn [time xcen ycen zcen ucen vcen wcen NUMT].
  repeat split; try (apply padded_length; [rewrite column_length; lia | lia]);
    destruct hv; try discriminate;
    apply padded_length; try lia; rewrite column_length; lia.
Qed.

(** A data line beyond the declared number of samples is stored past the
    end of the series. *)
Lemma read_rows_overflow (hv : bool) (n : Z) (base : SphOrient) :
  0 <= n ->
  forall (rows done : list line),
    (List.length done <= Z.to_nat n)%nat ->
    (Z.to_nat n < List.length done + List.length rows)%nat ->
    read_lines hv rows (Z.of_nat (List.length done) + 1)
      (filled hv n done base)
    = Fault (OutOfBounds "time" n) [].
Proof.
  intros Hn. induction rows as [| r rows IH]; intros done Hd Hlen.
  - cbn [List.length] in Hlen. lia.
  - cbn [read_lines]. cbn [List.length] in Hlen.
    rewrite (proj2 (Z.eqb_neq _ 0)) by lia.
    replace (Z.of_nat (List.length done) + 1 - 1)
      with (Z.of_nat (List.length done)) by lia.
    destruct (Nat.eq_dec (List.length done) (Z.to_nat n)) as [E | NE].
    + rewrite read_row_out.
      * cbn [bind]. do 2 f_equal. lia.
      * apply sized_filled; lia.
      * cbn [NUMT filled]. lia.
    + rewrite read_row_filled, bind_ret_l by lia.
      replace (Z.of_nat (List.length done) + 1)
        with (Z.of_nat (List.length (done ++ [r])))
        by (rewrite length_app; cbn; lia).
      apply IH; rewrite length_app; cbn [List.length]; lia.
Qed.

(** X11.  A file that holds more data lines than the count [NUMT] left by
    its header (the header's number, or for a blank header the value [NUMT]
    had before) is not truncated to that size: the first line in excess is
    stored at index [NUMT], one element past every series. *)
Theorem read_orient_too_many_lines (flags : Flags) (fs : file_system)
  (path : string) (numt0 : Z) (h : line) (rows : list line) :
  path <> ""%string ->
  fs path = Some (h :: rows) ->
  0 <= extract_int h numt0 < Z.of_nat (List.length rows) ->
  read_orient flags fs path (SphOrient_init numt0)
  = Fault (OutOfBounds "time" (extract_int h numt0)) [].
Proof.
  intros Hpath Hfs Hn. unfold read_orient.
  rewrite (proj2 (String.eqb_neq path "") Hpath), Hfs. cbv zeta.
  unfold read_table. cbn [read_lines]. change (0 =? 0) with true. cbv iota.
  rewrite read_header_filled, bind_ret_l by lia.
  change (0 + 1) with (Z.of_nat (List.length (@nil line)) + 1).
  rewrite read_rows_overflow by (cbn [List.length]; lia). reflexivity.
Qed.

Lemma read_orient_too_many_lines_witness :
  read_orient default_flags
    (fun _ => Some ([2] :: tl Examples.even_lines)%Q) "long.orient"
    (SphOrient_init 0)
  = Fault (OutOfBounds "time" 2) [].
Proof.
  apply (read_orient_too_many_lines default_flags
           (fun _ => Some ([2] :: tl Examples.even_lines)%Q) "long.orient" 0
           [2]%Q (tl Examples.even_lines)).
  - discriminate.
  - reflexivity.
  - split; [discriminate | reflexivity].
Defined.

(** X12.  A table needs two samples.  A file without any line, or whose
    header leaves [NUMT] below two (by its number, or for a blank header by
    the value [NUMT] had before), is never loaded: the load stops at a fault,
    a resize to a negative size, a line stored out of bounds or the read of
    [time[1]] for the first gap. *)
Theorem read_orient_needs_two_samples (flags : Flags) (fs : file_system)
  (path : string) (numt0 : Z) (lines : list line) :
  path <> ""%string ->
  fs path = Some lines ->
  (lines = [] \/ exists h rows, lines = h :: rows /\ extract_int h numt0 < 2) ->
  exists f, read_orient flags fs path (SphOrient_init numt0) = Fault f [].
Proof.
  intros Hpath Hfs Hcase. unfold read_orient.
  rewrite (proj2 (String.eqb_neq path "") Hpath), Hfs. cbv zeta.
  destruct Hcase as [-> | (h & rows & -> & Hn)].
  - eexists. reflexivity.
  - unfold read_table. cbn [read_lines]. change (0 =? 0) with true. cbv iota.
    destruct (Z_lt_le_dec (extract_int h numt0) 0) as [Hneg | Hpos].
    + destruct (read_header_cases (havevelocity flags) h
                  (set_inertial (SphOrient_init numt0) false))
        as [(Hge & _) | (_ & n & E)];
        cbn [NUMT set_inertial SphOrient_init] in *; [lia |].
      rewrite E. eexists. reflexivity.
    + rewrite read_header_filled, bind_ret_l by lia.
      change (0 + 1) with (Z.of_nat (List.length (@nil line)) + 1).
      destruct (Z_lt_le_dec (extract_int h numt0) (Z.of_nat (List.length rows)))
        as [Hmany | Hfit].
      * rewrite read_rows_overflow by (cbn [List.length]; lia).
        eexists. reflexivity.
      * rewrite read_rows_filled, bind_ret_l by (cbn [List.length]; lia).
        rewrite vec_get_out.
        -- eexists. reflexivity.
        -- right. cbn [app time filled]. rewrite padded_length; try lia.
           rewrite column_length. lia.
Qed.

Lemma read_orient_needs_two_samples_witness :
  exists f,
    read_orient default_flags (fun _ => Some [[1]; [0; 0; 0; 0; 1; 1; 1]]%Q)
      "single.orient" (SphOrient_init 0)
    = Fault f [].
Proof.
  apply (read_orient_needs_two_samples default_flags
           (fun _ => Some [[1]; [0; 0; 0; 0; 1; 1; 1]]%Q) "single.orient" 0
           [[1]; [0; 0; 0; 0; 1; 1; 1]]%Q).
  - discriminate.
  - reflexivity.
  - right. exists [1]%Q, [[0; 0; 0; 0; 1; 1; 1]]%Q. split; reflexivity.
Defined.

Lemma exit_codes_bind {A B : Type} (P : Z -> Prop) (m : outcome A)
  (k : A -> outcome B) :
  exit_codes P m -> (forall a, exit_codes P (k a)) -> exit_codes P (bind m k).
Proof.
  intros Hm Hk c l. destruct m as [a l1 | c1 l1 | f l1]; cbn [bind].
  - destruct (k a) as [b l2 | c2 l2 | f l2] eqn:Ek; cbn [prepend];
      try discriminate.
    intros H. injection H as <- _. exact (Hk a c2 l2 Ek).
  - intros H. injection H as <- <-. exact (Hm c1 l1 eq_refl).
  - discriminate.
Qed.

Lemma exit_codes_val {A : Type} (P : Z -> Prop) (a : A) l :
  exit_codes P (Val a l).
Proof. intros c l' H. discriminate H. Qed.

Lemma exit_codes_fault {A : Type} (P : Z -> Prop) f l :
  exit_codes P (@Fault A f l).
Proof. intros c l' H. discriminate H. Qed.

Lemma exit_codes_vec_get (P : Z -> Prop) name v i :
  exit_codes P (vec_get name v i).
Proof.
  unfold vec_get. destruct (in_bounds v i);
    [apply exit_codes_val | apply exit_codes_fault].
Qed.

Lemma exit_codes_vec_set (P : Z -> Prop) name v i x :
  exit_codes P (vec_set name v i x).
Proof.
  unfold vec_set. destruct (in_bounds v i);
    [apply exit_codes_val | apply exit_codes_fault].
Qed.

Lemma exit_codes_resize (P : Z -> Prop) n v : exit_codes P (resize n v).
Proof.
  unfold resize. destruct (n <? 0);
    [apply exit_codes_fault | apply exit_codes_val].
Qed.

(** Closes a goal [exit_codes P m] for straight-line code. *)
Ltac no_exit :=
  repeat first
    [ apply exit_codes_val
    | apply exit_codes_fault
    | apply exit_codes_vec_get
    | apply exit_codes_vec_set
    | apply exit_codes_resize
    | apply exit_codes_bind; [| intros ? ]
    | match goal with
      | |- exit_codes _ (match ?x with pair _ _ => _ end) => destruct x
      | |- exit_codes _ (if ?b then _ else _) => destruct b
      end ].

Lemma exit_codes_read_lines (P : Z -> Prop) (hv : bool) :
  forall lines linenum o, exit_codes P (read_lines hv lines linenum o).
Proof.
  induction lines as [| toks lines IH]; intros linenum o; cbn [read_lines].
  - apply exit_codes_val.
  - apply exit_codes_bind; [| intros o'; apply IH].
    destruct (linenum =? 0).
    + unfold read_header. cbv zeta. no_exit.
    + unfold read_row, read_into. cbv zeta. no_exit.
Qed.

Lemma exit_codes_check_spacing (P : Z -> Prop) (dt : Q) :
  forall k i o, exit_codes P (check_spacing k i dt o).
Proof.
  induction k as [| k IH]; intros i o; cbn [check_spacing].
  - apply exit_codes_val.
  - apply exit_codes_bind; [apply exit_codes_vec_get | intros ti].
    apply exit_codes_bind; [apply exit_codes_vec_get | intros tp]. apply IH.
Qed.

Lemma exit_codes_read_table (P : Z -> Prop) hv lines o :
  exit_codes P (read_table hv lines o).
Proof.
  unfold read_table.
  apply exit_codes_bind; [apply exit_codes_read_lines | intros o1].
  apply exit_codes_bind; [apply exit_codes_vec_get | intros t1].
  apply exit_codes_bind; [apply exit_codes_vec_get | intros t0].
  apply exit_codes_check_spacing.
Qed.

Lemma exit_codes_fit_loop (P : Z -> Prop) fp tm xt yt zt :
  forall k i s, exit_codes P (fit_loop fp k tm xt yt zt i s).
Proof.
  induction k as [| k IH]; intros i s; cbn [fit_loop].
  - apply exit_codes_val.
  - apply exit_codes_bind; [| intros s'; apply IH].
    unfold fit_step. no_exit.
Qed.

Lemma exit_codes_find_initial_velocity fp (o : SphOrient) accel nPoints :
  exit_codes (fun c => c = -1) (find_initial_velocity fp o accel nPoints).
Proof.
  unfold find_initial_velocity.
  apply exit_codes_bind; [apply exit_codes_fit_loop | intros s]. cbv zeta.
  apply exit_codes_bind.
  - unfold when. destruct (Qltb _ _); [| apply exit_codes_val].
    intros c l H. cbn in H. now injection H as <- _.
  - intros _. no_exit.
Qed.

Lemma init_zero_time_exit_inv (flags : Flags) (o : SphOrient) c l :
  init_zero_time flags o = Exit c l ->
  c = -1 /\ havevelocity flags = true /\ backwards flags = true.
Proof.
  unfold init_zero_time.
  destruct (havevelocity flags); [| discriminate].
  destruct (backwards flags).
  - intros H. split; [| now split]. revert c l H.
    change (exit_codes (fun c => c = -1)
              (zv <- resize 3 (zerotimevelocities o) ;;
               (let orient := set_zerotimevelocities o zv in
                if backwardsaccel flags
                then zi <- resize 3 (zerotimeintercepts orient) ;;
                     find_initial_velocity to_double
                       (set_zerotimeintercepts orient zi) true default_nPoints
                else find_initial_velocity to_double orient false
                       default_nPoints))).
    apply exit_codes_bind; [apply exit_codes_resize | intros zv]. cbv zeta.
    destruct (backwardsaccel flags).
    + apply exit_codes_bind; [apply exit_codes_resize | intros zi].
      apply exit_codes_find_initial_velocity.
    + apply exit_codes_find_initial_velocity.
  - intros H. exfalso. revert c l H.
    change (exit_codes (fun _ => False)
              (zv <- resize 3 (zerotimevelocities o) ;;
               (let orient := set_zerotimevelocities o zv in
                u0 <- vec_get "ucen" (ucen orient) 0 ;;
                zv <- vec_set "zerotimevelocities" zv 0 u0 ;;
                v0 <- vec_get "vcen" (vcen orient) 0 ;;
                zv <- vec_set "zerotimevelocities" zv 1 v0 ;;
                w0 <- vec_get "wcen" (wcen orient) 0 ;;
                zv <- vec_set "zerotimevelocities" zv 2 w0 ;;
                ret (set_zerotimevelocities orient zv)))).
    cbv zeta. unfold ret. no_exit.
Qed.

(** X13.  The calls of [exit] that [read_orient] can make.  It calls
    [exit(1)], after one line on [cout], when a non-empty path cannot be
    opened, and an [exit] with the code 1 happens in no other case; every
    other call of [exit] is the [exit(-1)] of the regression and needs an
    opened file, the velocity switch and backward extrapolation.  Reading and
    checking the lines never calls [exit], whatever the file holds.  (The
    other abnormal ends, the exception of a resize to a negative size and the
    accesses out of bounds, are faults and not exits; the statement does not
    cover them.) *)
Theorem read_orient_exits (flags : Flags) (fs : file_system) (path : string)
  (o : SphOrient) :
  (path <> ""%string -> fs path = None ->
   read_orient flags fs path o = Exit 1 [(Cout, msg_cannot_open)]) /\
  (forall c l,
      read_orient flags fs path o = Exit c l ->
      (c = 1 /\ path <> ""%string /\ fs path = None)
      \/ (c = -1 /\ path <> ""%string /\ fs path <> None /\
          havevelocity flags = true /\ backwards flags = true)).
Proof.
  split.
  - intros Hpath Hfs. unfold read_orient.
    now rewrite (proj2 (String.eqb_neq path "") Hpath), Hfs.
  - intros c l. unfold read_orient.
    destruct (String.eqb path "") eqn:Epath; [discriminate |].
    apply String.eqb_neq in Epath.
    destruct (fs path) as [lines |] eqn:Efs.
    + cbv zeta. intros H. right.
      destruct (read_table (havevelocity flags) lines (set_inertial o false))
        as [t l1 | c1 l1 | f l1] eqn:Eread; cbn [bind] in H.
      * destruct (init_zero_time flags t) as [t' l2 | c2 l2 | f l2] eqn:Einit;
          cbn [prepend] in H; try discriminate.
        injection H as <- _.
        apply init_zero_time_exit_inv in Einit as (-> & Hhv & Hb).
        repeat split; try assumption. discriminate.
      * exfalso.
        exact (exit_codes_read_table (fun _ => False) _ _ _ c1 l1 Eread).
      * discriminate.
    + intros H. left. cbn in H. injection H as <- _. now repeat split.
Qed.

(** ** The regression on an exactly linear series *)













(** ** The velocity inside the stored domain *)

(** X15.  On a table with velocity series, flagged unevenly spaced and with
    a strictly increasing time axis, [interpolate_velocity_centre] answers a
    query inside the stored domain, without any diagnostic, by the linear
    interpolation of the stored velocities between the two samples that
    bracket it; the slopes of the pre-simulation model play no part. *)
Theorem interpolate_velocity_centre_uneven_in_domain (flags : Flags) (q : Q)
  (o : SphOrient) (velcentre : list Q) :
  populated o -> eventime o = false -> increasing (time o) ->
  vlen (ucen o) = NUMT o -> vlen (vcen o) = NUMT o -> vlen (wcen o) = NUMT o ->
  (at_ (time o) 0 <= q)%Q -> (q < at_ (time o) (NUMT o - 1))%Q ->
  List.length velcentre = 3%nat ->
  exists i r,
    0 <= i <= NUMT o - 2 /\
    (at_ (time o) i <= q)%Q /\ (q < at_ (time o) (i + 1))%Q /\
    interpolate_velocity_centre flags q o velcentre = Val r [] /\
    Qvec_eq r [lerp (time o) (ucen o) i q; lerp (time o) (vcen o) i q;
               lerp (time o) (wcen o) i q].
Proof.
  intros Hp Hev Hinc Hu Hv Hw Hlo Hhi Hc. pose proof Hp as (Hn & H2 & _).
  destruct (find_time_index_bracket q o Hn H2 Hinc Hlo Hhi)
    as (i & Hf & Hi & Hle & Hlt).
  exists i. eexists. split; [exact Hi |]. split; [exact Hle |].
  split; [exact Hlt |]. split.
  - apply (interpolate_velocity_centre_standard flags q o velcentre i i
             (at_ (time o) (i + 1) - at_ (time o) i)%Q []);
      try assumption; try lia;
      match goal with
      | |- locate_time _ _ = _ => unfold locate_time; rewrite Hev; exact Hf
      | |- i = _ => now rewrite gtb_false by lia
      end.
  - assert (Hd : ~ (at_ (time o) (i + 1) - at_ (time o) i == 0)%Q)
      by (apply increasing_gap; [assumption | lia | lia]).
    repeat constructor; now apply segment_blend_lerp.
Qed.

Lemma interpolate_velocity_centre_uneven_in_domain_witness :
  exists i r,
    0 <= i <= 1 /\
    interpolate_velocity_centre default_flags (3 # 2) Examples.uneven_table
      [0; 0; 0]%Q = Val r [].
Proof.
  destruct (interpolate_velocity_centre_uneven_in_domain default_flags (3 # 2)
              Examples.uneven_table [0; 0; 0]%Q)
    as (i & r & Hi & _ & _ & Hr & _).
  - exact populated_uneven_table.
  - reflexivity.
  - exact increasing_uneven_table.
  - reflexivity.
  - reflexivity.
  - reflexivity.
  - discriminate.
  - reflexivity.
  - reflexivity.
  - exists i, r. split; assumption.
Defined.

(** ** Loading and querying *)




End OrientMore.

(** * Further properties of sphcoefs.h *)

Module CoefsMore.
Import Coefs.

(** ** The blend of [select_coefficient_time] *)

Lemma prepend_val_log {A : Type} (l : list diag) (a : A) :
  prepend l (Val a []) = Val a l.
Proof. simpl. now rewrite app_nil_r. Qed.

Lemma well_shaped_plane (tbl : SphCoefs) (i : Z) :
  well_shaped tbl -> 0 <= i < NUMT tbl ->
  Z.of_nat (List.length (nth (Z.to_nat i) (coefs tbl) [])) = numl_of tbl /\
  Forall (fun row => vlen row = NMAX tbl) (nth (Z.to_nat i) (coefs tbl) []).
Proof.
  intros (_ & _ & _ & _ & Hlen & Hall) Hi.
  rewrite Forall_forall in Hall. apply Hall. apply nth_In. lia.
Qed.

Lemma coef_get_in (tbl : SphCoefs) (i l n : Z) :
  well_shaped tbl ->
  0 <= i < NUMT tbl -> 0 <= l < numl_of tbl -> 0 <= n < NMAX tbl ->
  coef_get (coefs tbl) i l n = Val (cget (coefs tbl) i l n) [].
Proof.
  intros Hw Hi Hl Hn. pose proof Hw as (_ & _ & _ & _ & Hlen & _).
  destruct (well_shaped_plane tbl i Hw Hi) as (Hpl & Hrows).
  unfold coef_get. rewrite in_bounds_true by lia.
  rewrite in_bounds_true by lia.
  rewrite Forall_forall in Hrows.
  assert (Hrow : vlen (nth (Z.to_nat l) (nth (Z.to_nat i) (coefs tbl) []) [])
                 = NMAX tbl) by (apply Hrows, nth_In; lia).
  rewrite vec_get_in by lia. reflexivity.
Qed.

Lemma blend_row_spec (tbl : SphCoefs) (indx l : Z) (x1 x2 : Q) :
  well_shaped tbl -> 0 <= indx -> indx + 1 < NUMT tbl -> 0 <= l < numl_of tbl ->
  forall (k : nat) (n : Z),
    0 <= n -> n + Z.of_nat k <= NMAX tbl ->
    blend_row k (coefs tbl) indx l n x1 x2
    = Val (map (fun n => x1 * cget (coefs tbl) indx l n
                         + x2 * cget (coefs tbl) (indx + 1) l n)%Q
               (zrange n k)) [].
Proof.
  intros Hw Hi0 Hi1 Hl. induction k as [| k IH]; intros n Hn Hk.
  - reflexivity.
  - cbn [blend_row zrange map].
    rewrite !coef_get_in by (assumption || lia). rewrite !bind_ret_l.
    rewrite IH by lia. reflexivity.
Qed.

Lemma blend_rows_spec (tbl : SphCoefs) (indx : Z) (x1 x2 : Q) :
  well_shaped tbl -> 0 <= indx -> indx + 1 < NUMT tbl ->
  forall (k : nat) (l : Z),
    0 <= l -> l + Z.of_nat k <= numl_of tbl ->
    blend_rows k (coefs tbl) (NMAX tbl) indx l x1 x2
    = Val (map (fun l =>
                  map (fun n => x1 * cget (coefs tbl) indx l n
                                + x2 * cget (coefs tbl) (indx + 1) l n)%Q
                      (zrange 0 (Z.to_nat (NMAX tbl))))
               (zrange l k)) [].
Proof.
  intros Hw Hi0 Hi1. pose proof Hw as (_ & _ & Hnmax & _).
  induction k as [| k IH]; intros l Hl Hk.
  - reflexivity.
  - cbn [blend_rows zrange map].
    rewrite (blend_row_spec tbl indx l x1 x2) by (assumption || lia).
    rewrite bind_ret_l, IH by lia. reflexivity.
Qed.

Lemma numl_nonneg (tbl : SphCoefs) : 0 <= numl_of tbl.
Proof. unfold numl_of. apply Z.square_nonneg. Qed.

(** What [select_coefficient_time] returns on a well-shaped table. *)
Lemma select_coefficient_time_spec (q : Q) (tbl : SphCoefs) :
  well_shaped tbl ->
  let dt := (at_ (t tbl) 1 - at_ (t tbl) 0)%Q in
  let x := ((q - at_ (t tbl) 0) / dt)%Q in
  ~ (dt == 0)%Q ->
  int_min <= Qtrunc x <= int_max ->
  let i := Z.max 0 (Z.min (Qtrunc x) (NUMT tbl - 2)) in
  let x1 := ((at_ (t tbl) (i + 1) - q) / dt)%Q in
  let x2 := ((q - at_ (t tbl) i) / dt)%Q in
  exists log,
    select_coefficient_time q tbl
    = Val (tabulate (numl_of tbl) (NMAX tbl)
             (fun l n => x1 * cget (coefs tbl) i l n
                         + x2 * cget (coefs tbl) (i + 1) l n)%Q) log /\
    (Qtrunc x < 0 -> log = [(Cerr, msg_sct_before)]) /\
    (NUMT tbl - 2 < Qtrunc x -> log = [(Cerr, msg_sct_after)]) /\
    (0 <= Qtrunc x <= NUMT tbl - 2 -> log = []).
Proof.
  intros Hw dt x Hdt Hx i x1 x2. pose proof Hw as (Hn & H2 & Hnmax & _).
  unfold select_coefficient_time.
  rewrite CoefsFacts.raw_index_in_range by (assumption || lia).
  rewrite bind_ret_l. cbv beta iota. fold dt. fold x.
  destruct (CoefsFacts.clamp_index_spec tbl (Qtrunc x) H2)
    as (i' & log & Hc & Hi' & Hlow & Hhigh & Hmid).
  assert (Ei : i' = i).
  { unfold i. destruct (Z_lt_le_dec (Qtrunc x) 0) as [Hneg | Hpos].
    - destruct (Hlow Hneg) as [-> _]. lia.
    - destruct (Z_le_gt_dec (Qtrunc x) (NUMT tbl - 2)) as [Hle | Hgt].
      + destruct (Hmid (conj Hpos Hle)) as [-> _]. lia.
      + destruct (Hhigh ltac:(lia)) as [-> _]. lia. }
  subst i'. exists log. split.
  - rewrite Hc. cbn [bind].
    rewrite !vec_get_in by lia. exec.
    rewrite (proj2 (Z.ltb_ge (NMAX tbl) 0) Hnmax).
    fold (numl_of tbl).
    rewrite (blend_rows_spec tbl i) by (assumption || lia || apply numl_nonneg
                                        || (pose proof (numl_nonneg tbl); lia)).
    apply prepend_val_log.
  - split; [| split]; intros H.
    + now destruct (Hlow H).
    + now destruct (Hhigh H).
    + now destruct (Hmid H).
Qed.


Lemma well_shaped_ramp_coefs : well_shaped Examples.ramp_coefs.
Proof.
  unfold well_shaped. repeat split; try discriminate.
  repeat constructor.
Qed.


Lemma zrange_bounds (k : nat) :
  forall (s l : Z), In l (zrange s k) -> s <= l < s + Z.of_nat k.
Proof.
  induction k as [| k IH]; intros s l Hin; cbn [zrange] in Hin.
  - contradiction.
  - destruct Hin as [<- | Hin]; [lia |]. apply IH in Hin. lia.
Qed.

Lemma Forall2_map_same {A B : Type} (R : B -> B -> Prop) (f g : A -> B)
  (L : list A) :
  (forall a, In a L -> R (f a) (g a)) -> Forall2 R (map f L) (map g L).
Proof.
  induction L as [| a L IH]; intros H; cbn [map]; constructor.
  - apply H. now left.
  - apply IH. intros b Hb. apply H. now right.
Qed.

Lemma tabulate_ext (rows cols : Z) (f g : Z -> Z -> Q) :
  (forall l n, 0 <= l < rows -> 0 <= n < cols -> (f l n == g l n)%Q) ->
  Qmat_eq (tabulate rows cols f) (tabulate rows cols g).
Proof.
  intros H. unfold tabulate, Qmat_eq. apply Forall2_map_same. intros l Hl.
  apply zrange_bounds in Hl. apply Forall2_map_same. intros n Hn.
  apply zrange_bounds in Hn. apply H; lia.
Qed.

(** X17.  On a well-shaped table whose time axis really advances by its
    first gap, [select_coefficient_time] queried at a stored time [T[k]]
    returns the stored coefficients [coefs[k]].  It writes nothing for
    [k <= NUMT-2]; at the last stored time, which is inside the domain, it
    still writes the line that announces a time after the end of the
    simulation. *)
Theorem select_coefficient_time_at_sample (k : Z) (tbl : SphCoefs) :
  well_shaped tbl -> uniform_axis (t tbl) ->
  (at_ (t tbl) 0 < at_ (t tbl) 1)%Q ->
  0 <= k <= NUMT tbl - 1 -> NUMT tbl <= int_max ->
  exists M,
    select_coefficient_time (at_ (t tbl) k) tbl
    = Val M (if k =? NUMT tbl - 1 then [(Cerr, msg_sct_after)] else []) /\
    Qmat_eq M (tabulate (numl_of tbl) (NMAX tbl)
                 (fun l n => cget (coefs tbl) k l n)).
Proof.
  intros Hw Hu Hpos Hk Hmax. pose proof Hw as (Hn & H2 & _).
  set (dt := (at_ (t tbl) 1 - at_ (t tbl) 0)%Q).
  assert (Hdt : ~ (dt == 0)%Q).
  { intros E. apply (Qlt_not_le _ _ Hpos).
    rewrite <- (Qplus_0_l (at_ (t tbl) 0)). rewrite <- E. unfold dt.
    ring_simplify. apply Qle_refl. }
  set (x := ((at_ (t tbl) k - at_ (t tbl) 0) / dt)%Q).
  assert (Hxk : (x == inject_Z k)%Q).
  { unfold x. rewrite (Hu k) by lia. fold dt. field. exact Hdt. }
  assert (Ht : Qtrunc x = k) by now apply OrientMore.Qtrunc_inject.
  destruct (select_coefficient_time_spec (at_ (t tbl) k) tbl Hw)
    as (log & Hs & Hlow & Hhigh & Hmid).
  { exact Hdt. }
  { fold dt. fold x. rewrite Ht. unfold int_min. lia. }
  fold dt in Hs, Hlow, Hhigh, Hmid. fold x in Hs, Hlow, Hhigh, Hmid.
  rewrite Ht in Hs, Hlow, Hhigh, Hmid.
  destruct (Z.eqb_spec k (NUMT tbl - 1)) as [Elast | Nlast].
  - rewrite Hhigh in Hs by lia. eexists. split; [exact Hs |].
    apply tabulate_ext. intros l n Hl Hnn.
    replace (Z.max 0 (Z.min k (NUMT tbl - 2))) with (NUMT tbl - 2) by lia.
    assert (Hg : (at_ (t tbl) (NUMT tbl - 2 + 1)
                  == at_ (t tbl) (NUMT tbl - 2) + dt)%Q)
      by (apply OrientMore.uniform_gap; [exact Hu | lia | lia]).
    assert (Ek : k = NUMT tbl - 2 + 1) by lia. rewrite Ek.
    rewrite Hg. field. exact Hdt.
  - rewrite Hmid in Hs by lia. eexists. split; [exact Hs |].
    apply tabulate_ext. intros l n Hl Hnn.
    replace (Z.max 0 (Z.min k (NUMT tbl - 2))) with k by lia.
    assert (Hg : (at_ (t tbl) (k + 1) == at_ (t tbl) k + dt)%Q)
      by (apply OrientMore.uniform_gap; [exact Hu | lia | lia]).
    rewrite Hg. field. exact Hdt.
Qed.

Lemma uniform_ramp_coefs : uniform_axis (t Examples.ramp_coefs).
Proof.
  intros j Hj. change (vlen (t Examples.ramp_coefs)) with 3 in Hj.
  assert (Hc : j = 0 \/ j = 1 \/ j = 2) by lia.
  destruct Hc as [-> | [-> | ->]]; reflexivity.
Qed.

Lemma select_coefficient_time_at_sample_witness :
  exists M,
    select_coefficient_time (at_ (t Examples.ramp_coefs) 2) Examples.ramp_coefs
    = Val M [(Cerr, msg_sct_after)] /\
    Qmat_eq M (tabulate 1 1 (fun l n => cget (coefs Examples.ramp_coefs) 2 l n)).
Proof.
  apply (select_coefficient_time_at_sample 2 Examples.ramp_coefs).
  - exact well_shaped_ramp_coefs.
  - exact uniform_ramp_coefs.
  - reflexivity.
  - split; discriminate.
  - discriminate.
Defined.

(** ** The loader of the coefficient file *)

Lemma read_double_chain (D : list Q) (j : Z) (old : Q) :
  0 <= j ->
  read_double (bs_after D j) old = (word_or D j old, bs_after D (j + 1)).
Proof.
  intros Hj. unfold bs_after, word_or, read_double.
  destruct (Z_lt_le_dec j (Z.of_nat (List.length D))) as [Hlt | Hge].
  - rewrite (proj2 (Z.leb_le j _)) by lia.
    rewrite (proj2 (Z.ltb_lt j _)) by lia.
    rewrite (proj2 (Z.leb_le (j + 1) _)) by lia. cbn [good doubles_left ints_left].
    assert (Hs : skipn (Z.to_nat j) D
                 = nth (Z.to_nat j) D 0%Q :: skipn (Z.to_nat (j + 1)) D).
    { replace (Z.to_nat (j + 1)) with (S (Z.to_nat j)) by lia.
      assert (Hn : (Z.to_nat j < List.length D)%nat) by lia.
      clear Hlt Hj. revert Hn. generalize (Z.to_nat j) as k.
      induction D as [| d D IH]; intros k Hn; cbn [List.length] in Hn; [lia |].
      destruct k as [| k]; [reflexivity |]. cbn [skipn nth]. apply IH. lia. }
    now rewrite Hs.
  - rewrite (proj2 (Z.ltb_ge j _)) by lia.
    rewrite (proj2 (Z.leb_gt (j + 1) _)) by lia.
    destruct (Z.eq_dec j (Z.of_nat (List.length D))) as [E | NE].
    + rewrite (proj2 (Z.leb_le j _)) by lia. cbn [good doubles_left ints_left].
      rewrite skipn_all2 by lia. reflexivity.
    + rewrite (proj2 (Z.leb_gt j _)) by lia. reflexivity.
Qed.

Lemma update_nth_length {A : Type} (f : A -> A) (l : list A) :
  forall n, List.length (update_nth n f l) = List.length l.
Proof.
  induction l as [| a l IH]; intros [| n]; cbn [update_nth List.length]; auto.
Qed.

Lemma update_nth_same {A : Type} (f : A -> A) (d : A) (l : list A) :
  forall n, (n < List.length l)%nat ->
            nth n (update_nth n f l) d = f (nth n l d).
Proof.
  induction l as [| a l IH]; intros [| n] Hn; cbn [List.length] in Hn;
    try lia; cbn [update_nth nth]; [reflexivity | apply IH; lia].
Qed.

Lemma update_nth_other {A : Type} (f : A -> A) (d : A) (l : list A) :
  forall n m, n <> m -> nth m (update_nth n f l) d = nth m l d.
Proof.
  induction l as [| a l IH]; intros [| n] [| m] Hne;
    cbn [update_nth nth]; try reflexivity; try congruence.
  apply IH. congruence.
Qed.

Lemma update_nth_Forall {A : Type} (P : A -> Prop) (f : A -> A) (l : list A) :
  Forall P l -> (forall a, P a -> P (f a)) ->
  forall n, Forall P (update_nth n f l).
Proof.
  intros Hl Hf. induction Hl as [| a l Ha Hl IH]; intros [| n];
    cbn [update_nth]; constructor; auto.
Qed.

Lemma replace_nth_same (v : list Q) (x : Q) :
  forall n, (n < List.length v)%nat -> nth n (replace_nth n v x) 0%Q = x.
Proof.
  induction v as [| a v IH]; intros [| n] Hn; cbn [List.length] in Hn;
    try lia; cbn [replace_nth nth]; [reflexivity | apply IH; lia].
Qed.

Lemma replace_nth_other (v : list Q) (x : Q) :
  forall n m, n <> m -> nth m (replace_nth n v x) 0%Q = nth m v 0%Q.
Proof.
  induction v as [| a v IH]; intros [| n] [| m] Hne;
    cbn [replace_nth nth]; try reflexivity; try congruence.
  apply IH. congruence.
Qed.

Lemma shape3_plane (c : list (list (list Q))) (n1 n2 n3 i : Z) :
  shape3 c n1 n2 n3 -> 0 <= i < n1 ->
  Z.of_nat (List.length (nth (Z.to_nat i) c [])) = n2 /\
  Forall (fun row => vlen row = n3) (nth (Z.to_nat i) c []).
Proof.
  intros (Hlen & Hall) Hi. rewrite Forall_forall in Hall.
  apply Hall, nth_In. lia.
Qed.

Lemma shape3_row (c : list (list (list Q))) (n1 n2 n3 i l : Z) :
  shape3 c n1 n2 n3 -> 0 <= i < n1 -> 0 <= l < n2 ->
  vlen (nth (Z.to_nat l) (nth (Z.to_nat i) c []) []) = n3.
Proof.
  intros Hs Hi Hl. destruct (shape3_plane c n1 n2 n3 i Hs Hi) as (Hpl & Hrows).
  rewrite Forall_forall in Hrows. apply Hrows, nth_In. lia.
Qed.

Lemma coef_get_shape (c : list (list (list Q))) (n1 n2 n3 i l n : Z) :
  shape3 c n1 n2 n3 -> 0 <= i < n1 -> 0 <= l < n2 -> 0 <= n < n3 ->
  coef_get c i l n = Val (cget c i l n) [].
Proof.
  intros Hs Hi Hl Hn. pose proof Hs as (Hlen & _).
  destruct (shape3_plane c n1 n2 n3 i Hs Hi) as (Hpl & _).
  pose proof (shape3_row c n1 n2 n3 i l Hs Hi Hl) as Hrow.
  unfold coef_get. rewrite in_bounds_true by lia.
  rewrite in_bounds_true by lia. rewrite vec_get_in by lia. reflexivity.
Qed.

(** A write inside the array keeps its shape and changes one entry. *)
Lemma coef_set_spec (c : list (list (list Q))) (n1 n2 n3 i l n : Z) (x : Q) :
  shape3 c n1 n2 n3 -> 0 <= i < n1 -> 0 <= l < n2 -> 0 <= n < n3 ->
  exists c',
    coef_set c i l n x = Val c' [] /\ shape3 c' n1 n2 n3 /\
    forall i' l' n', 0 <= i' -> 0 <= l' -> 0 <= n' ->
      cget c' i' l' n'
      = if (i' =? i) && (l' =? l) && (n' =? n) then x else cget c i' l' n'.
Proof.
  intros Hs Hi Hl Hn. pose proof Hs as (Hlen & Hall).
  destruct (shape3_plane c n1 n2 n3 i Hs Hi) as (Hpl & Hrows).
  pose proof (shape3_row c n1 n2 n3 i l Hs Hi Hl) as Hrow.
  unfold coef_set. rewrite in_bounds_true by lia.
  rewrite in_bounds_true by lia. rewrite in_bounds_true by (unfold vlen in Hrow; lia).
  eexists. split; [reflexivity |]. split.
  - split; [now rewrite update_nth_length |].
    apply update_nth_Forall; [exact Hall |]. intros plane (Hp & Hr). split.
    + now rewrite update_nth_length.
    + apply update_nth_Forall; [exact Hr |]. intros row Hrw.
      unfold vlen. rewrite OrientFacts.replace_nth_length. exact Hrw.
  - intros i' l' n' Hi' Hl' Hn'. unfold cget.
    destruct (Z.eqb_spec i' i) as [-> | Ni]; cbn [andb].
    + rewrite update_nth_same by lia.
      destruct (Z.eqb_spec l' l) as [-> | Nl]; cbn [andb].
      * rewrite update_nth_same by lia.
        destruct (Z.eqb_spec n' n) as [-> | Nn].
        -- apply replace_nth_same. unfold vlen in Hrow. lia.
        -- apply replace_nth_other. lia.
      * rewrite update_nth_other by lia. reflexivity.
    + rewrite update_nth_other by lia. reflexivity.
Qed.

(** Splits the goal along every integer comparison in it. *)
Ltac bcases :=
  repeat match goal with
    | |- context [?a =? ?b] => destruct (Z.eqb_spec a b)
    | |- context [?a <=? ?b] => destruct (Z.leb_spec a b)
    | |- context [?a <? ?b] => destruct (Z.ltb_spec a b)
    end;
  cbn [andb]; try lia; try reflexivity.

(** The innermost loop: the entries of one row receive consecutive words. *)
Lemma read_radial_spec (D : list Q) (n1 n2 n3 tt l : Z) :
  0 <= tt < n1 -> 0 <= l < n2 ->
  forall (k : nat) (ir j : Z) (c : list (list (list Q))),
    shape3 c n1 n2 n3 -> 0 <= ir -> ir + Z.of_nat k <= n3 -> 0 <= j ->
    exists c',
      read_radial k c (bs_after D j) tt l ir
      = Val (c', bs_after D (j + Z.of_nat k)) [] /\
      shape3 c' n1 n2 n3 /\
      forall i' l' n', 0 <= i' -> 0 <= l' -> 0 <= n' ->
        cget c' i' l' n'
        = if (i' =? tt) && (l' =? l) && (ir <=? n') && (n' <? ir + Z.of_nat k)
          then word_or D (j + (n' - ir)) (cget c i' l' n')
          else cget c i' l' n'.
Proof.
  intros Htt Hl. induction k as [| k IH]; intros ir j c Hs Hir Hk Hj.
  - exists c. split; [cbn [read_radial]; unfold ret; do 3 f_equal; lia |].
    split; [exact Hs |]. intros i' l' n' _ _ _. bcases.
  - cbn [read_radial].
    rewrite (coef_get_shape c n1 n2 n3) by (assumption || lia).
    rewrite bind_ret_l, read_double_chain by lia.
    destruct (coef_set_spec c n1 n2 n3 tt l ir
                (word_or D j (cget c tt l ir)) Hs) as (c1 & E1 & S1 & G1);
      try lia.
    rewrite E1, bind_ret_l.
    destruct (IH (ir + 1) (j + 1) c1 S1) as (c' & E' & S' & G'); try lia.
    exists c'. split; [rewrite E'; do 3 f_equal; lia |].
    split; [exact S' |]. intros i' l' n' Hi' Hl' Hn'.
    rewrite G' by assumption. rewrite !G1 by assumption.
    bcases; subst; try (f_equal; lia).
Qed.

(** The middle loop: the rows of one plane, one after the other. *)
Lemma read_harmonics_spec (D : list Q) (n1 n2 n3 tt : Z) :
  0 <= tt < n1 -> 0 <= n3 ->
  forall (k : nat) (l j : Z) (c : list (list (list Q))),
    shape3 c n1 n2 n3 -> 0 <= l -> l + Z.of_nat k <= n2 -> 0 <= j ->
    exists c',
      read_harmonics k n3 c (bs_after D j) tt l
      = Val (c', bs_after D (j + Z.of_nat k * n3)) [] /\
      shape3 c' n1 n2 n3 /\
      forall i' l' n', 0 <= i' -> 0 <= l' -> 0 <= n' ->
        cget c' i' l' n'
        = if (i' =? tt) && (l <=? l') && (l' <? l + Z.of_nat k) && (n' <? n3)
          then word_or D (j + (l' - l) * n3 + n') (cget c i' l' n')
          else cget c i' l' n'.
Proof.
  intros Htt Hn3. induction k as [| k IH]; intros l j c Hs Hl Hk Hj.
  - exists c. split; [cbn [read_harmonics]; unfold ret; do 3 f_equal; lia |].
    split; [exact Hs |]. intros i' l' n' _ _ _. bcases.
  - cbn [read_harmonics].
    destruct (read_radial_spec D n1 n2 n3 tt l Htt ltac:(lia)
                (Z.to_nat n3) 0 j c Hs) as (c1 & E1 & S1 & G1); try lia.
    rewrite E1, bind_ret_l. cbv beta iota.
    rewrite Z2Nat.id in E1, G1 by lia.
    rewrite Z2Nat.id by lia.
    destruct (IH (l + 1) (j + n3) c1 S1) as (c' & E' & S' & G'); try lia.
    exists c'. split.
    + rewrite E'. do 3 f_equal. lia.
    + split; [exact S' |]. intros i' l' n' Hi' Hl' Hn'.
      rewrite G' by assumption. rewrite !G1 by assumption.
      bcases; subst; try (f_equal; lia).
Qed.

Lemma vec_set_spec (name : string) (v : list Q) (i : Z) (x : Q) :
  0 <= i < vlen v ->
  vec_set name v i x = Val (replace_nth (Z.to_nat i) v x) [].
Proof. intros Hi. unfold vec_set. now rewrite in_bounds_true by exact Hi. Qed.

Lemma at_replace_nth (v : list Q) (i i' : Z) (x : Q) :
  0 <= i < vlen v -> 0 <= i' ->
  at_ (replace_nth (Z.to_nat i) v x) i' = if i' =? i then x else at_ v i'.
Proof.
  intros Hi Hi'. unfold at_. destruct (Z.eqb_spec i' i) as [-> | Hne].
  - apply replace_nth_same. unfold vlen in Hi. lia.
  - apply replace_nth_other. lia.
Qed.

(** The outer loop: each time takes one word and its plane the next
    [n2 * n3]. *)
Lemma read_times_spec (D : list Q) (n1 n2 n3 : Z) :
  0 <= n2 -> 0 <= n3 ->
  forall (k : nat) (tt j : Z) (tv : list Q) (c : list (list (list Q))),
    shape3 c n1 n2 n3 -> vlen tv = n1 ->
    0 <= tt -> tt + Z.of_nat k <= n1 -> 0 <= j ->
    exists tv' c',
      read_times k n2 n3 tv c (bs_after D j) tt
      = Val (tv', c', bs_after D (j + Z.of_nat k * (1 + n2 * n3))) [] /\
      shape3 c' n1 n2 n3 /\ vlen tv' = n1 /\
      (forall i', 0 <= i' ->
         at_ tv' i'
         = if (tt <=? i') && (i' <? tt + Z.of_nat k)
           then word_or D (j + (i' - tt) * (1 + n2 * n3)) (at_ tv i')
           else at_ tv i') /\
      (forall i' l' n', 0 <= i' -> 0 <= l' -> 0 <= n' ->
         cget c' i' l' n'
         = if (tt <=? i') && (i' <? tt + Z.of_nat k) && (l' <? n2) && (n' <? n3)
           then word_or D (j + (i' - tt) * (1 + n2 * n3) + 1 + l' * n3 + n')
                  (cget c i' l' n')
           else cget c i' l' n').
Proof.
  intros Hn2 Hn3. induction k as [| k IH]; intros tt j tv c Hs Htv Htt Hk Hj.
  - exists tv, c. split; [cbn [read_times]; unfold ret; do 3 f_equal; lia |].
    split; [exact Hs |]. split; [exact Htv |].
    split; [intros i' _ | intros i' l' n' _ _ _]; bcases.
  - cbn [read_times]. rewrite vec_get_in, bind_ret_l by lia.
    rewrite read_double_chain by lia.
    rewrite vec_set_spec, bind_ret_l by lia.
    destruct (read_harmonics_spec D n1 n2 n3 tt ltac:(lia) Hn3
                (Z.to_nat n2) 0 (j + 1) c Hs) as (c1 & E1 & S1 & G1); try lia.
    rewrite E1, bind_ret_l. cbv beta iota.
    rewrite Z2Nat.id in E1, G1 by lia.
    rewrite Z2Nat.id by lia.
    set (tv1 := replace_nth (Z.to_nat tt) tv (word_or D j (at_ tv tt))).
    assert (Htv1 : vlen tv1 = n1)
      by (unfold tv1, vlen; rewrite OrientFacts.replace_nth_length; exact Htv).
    destruct (IH (tt + 1) (j + 1 + n2 * n3) tv1 c1 S1 Htv1)
      as (tv' & c' & E' & S' & L' & T' & G'); try lia.
    exists tv', c'. split; [rewrite E'; do 3 f_equal; lia |].
    split; [exact S' |]. split; [exact L' |]. split.
    + intros i' Hi'. rewrite T' by assumption. unfold tv1.
      rewrite !at_replace_nth by lia.
      bcases; subst; try (f_equal; lia).
    + intros i' l' n' Hi' Hl' Hn'.
      rewrite G' by assumption. rewrite !G1 by assumption.
      bcases; subst; try (f_equal; lia).
Qed.

Lemma zrange_length (n : nat) : forall s, List.length (zrange s n) = n.
Proof. induction n as [| n IH]; intros s; cbn [zrange List.length]; auto. Qed.

Lemma nth_map_zrange {A : Type} (f : Z -> A) (d : A) (n : nat) :
  forall (s : Z) (k : nat),
    (k < n)%nat -> nth k (map f (zrange s n)) d = f (s + Z.of_nat k).
Proof.
  induction n as [| n IH]; intros s k Hk; [lia |].
  cbn [zrange map]. destruct k as [| k].
  - cbn [nth]. f_equal. lia.
  - cbn [nth]. rewrite IH by lia. f_equal. lia.
Qed.

Lemma resize3_spec (n1 n2 n3 : Z) (c : list (list (list Q))) :
  0 <= n1 -> 0 <= n2 -> 0 <= n3 ->
  exists c0,
    resize3 n1 n2 n3 c = Val c0 [] /\ shape3 c0 n1 n2 n3 /\
    forall i l n, 0 <= i < n1 -> 0 <= l < n2 -> 0 <= n < n3 ->
                  cget c0 i l n = cget c i l n.
Proof.
  intros H1 H2 H3. unfold resize3.
  rewrite (proj2 (Z.ltb_ge n1 0) H1), (proj2 (Z.ltb_ge n2 0) H2),
    (proj2 (Z.ltb_ge n3 0) H3).
  eexists. split; [reflexivity |]. split.
  - split; [rewrite length_map, zrange_length; lia |].
    apply Forall_forall. intros plane Hin. apply in_map_iff in Hin.
    destruct Hin as (i & <- & _). split.
    + rewrite length_map, zrange_length. lia.
    + apply Forall_forall. intros row Hrow. apply in_map_iff in Hrow.
      destruct Hrow as (l & <- & _). unfold vlen.
      rewrite length_map, zrange_length. lia.
  - intros i l n Hi Hl Hn. unfold cget at 1.
    rewrite (nth_map_zrange _ [] (Z.to_nat n1) 0 (Z.to_nat i)) by lia.
    rewrite (nth_map_zrange _ [] (Z.to_nat n2) 0 (Z.to_nat l)) by lia.
    rewrite (nth_map_zrange _ 0%Q (Z.to_nat n3) 0 (Z.to_nat n)) by lia.
    rewrite !Z2Nat.id by lia. reflexivity.
Qed.

Lemma resize_spec (n : Z) (v : list Q) :
  0 <= n ->
  exists v',
    resize n v = Val v' [] /\ vlen v' = n /\
    forall i, 0 <= i < n -> at_ v' i = at_ v i.
Proof.
  intros Hn. unfold resize. rewrite (proj2 (Z.ltb_ge n 0) Hn).
  eexists. split; [reflexivity |]. split.
  - unfold vlen. rewrite length_app, repeat_length, length_firstn. lia.
  - intros i Hi. unfold at_.
    destruct (Nat.lt_ge_cases (Z.to_nat i) (List.length v)) as [Hlt | Hge].
    + rewrite app_nth1 by (rewrite length_firstn; lia).
      rewrite nth_firstn.
      now rewrite (proj2 (Nat.ltb_lt (Z.to_nat i) (Z.to_nat n))) by lia.
    + rewrite app_nth2 by (rewrite length_firstn; lia).
      rewrite nth_repeat. symmetry. apply nth_overflow. lia.
Qed.

Lemma bs_after_0 (D : list Q) : bs_after D 0 = mkBstream [] D true.
Proof.
  unfold bs_after. rewrite (proj2 (Z.leb_le 0 _)) by lia. reflexivity.
Qed.

Lemma word_or_nil (j : Z) (old : Q) : 0 <= j -> word_or [] j old = old.
Proof.
  intros Hj. unfold word_or.
  destruct (Z.ltb_spec j (Z.of_nat (List.length (@nil Q)))) as [H | H];
    [cbn [List.length] in H; lia | reflexivity].
Qed.

(** The body of [read_coef_file] from the resizes on, for the stream left by
    the three header reads and whatever follows the loops. *)
Lemma read_body_spec (D : list Q) (j numt lmax nmax : Z) (prior : SphCoefs) :
  0 <= numt -> 0 <= nmax -> 0 <= j ->
  let numl := (lmax + 1) * (lmax + 1) in
  let B := 1 + numl * nmax in
  exists tv c,
    (forall (R : Type)
            (K : list Q * list (list (list Q)) * bstream -> outcome R),
        (c0 <- resize3 numt numl nmax (coefs prior) ;;
         tv0 <- resize numt (t prior) ;;
         p <- read_times (Z.to_nat numt) numl nmax tv0 c0 (bs_after D j) 0 ;;
         K p)
        = K (tv, c, bs_after D (j + numt * B))) /\
    vlen tv = numt /\ shape3 c numt numl nmax /\
    (forall tt, 0 <= tt < numt ->
       at_ tv tt = word_or D (j + tt * B) (at_ (t prior) tt)) /\
    (forall tt l ir, 0 <= tt < numt -> 0 <= l < numl -> 0 <= ir < nmax ->
       cget c tt l ir
       = word_or D (j + tt * B + 1 + l * nmax + ir)
           (cget (coefs prior) tt l ir)).
Proof.
  intros Hnumt Hnmax Hj numl B.
  assert (Hnuml : 0 <= numl) by (unfold numl; apply Z.square_nonneg).
  destruct (resize3_spec numt numl nmax (coefs prior) Hnumt Hnuml Hnmax)
    as (c0 & E0 & S0 & G0).
  destruct (resize_spec numt (t prior) Hnumt) as (tv0 & Et & Lt & Gt).
  destruct (read_times_spec D numt numl nmax Hnuml Hnmax (Z.to_nat numt) 0 j
              tv0 c0 S0 Lt) as (tv & c & E & S & L & T & G); try lia.
  rewrite Z2Nat.id in E, T, G by lia.
  exists tv, c. split; [| split; [exact L | split; [exact S | split]]].
  - intros R K. now rewrite E0, bind_ret_l, Et, bind_ret_l, E, bind_ret_l.
  - intros tt Htt. rewrite T by lia.
    rewrite (proj2 (Z.leb_le 0 tt)), (proj2 (Z.ltb_lt tt (0 + numt))) by lia.
    cbn [andb]. rewrite Gt by lia. f_equal. unfold B. lia.
  - intros tt l ir Htt Hl Hir. rewrite G by lia.
    rewrite (proj2 (Z.leb_le 0 tt)), (proj2 (Z.ltb_lt tt (0 + numt))),
      (proj2 (Z.ltb_lt l numl)), (proj2 (Z.ltb_lt ir nmax)) by lia.
    cbn [andb]. rewrite G0 by lia. f_equal. unfold B. lia.
Qed.

(** What [read_coef_file] returns for a file with a complete header. *)
Lemma read_coef_file_spec (fs : coef_file_system) (path : string)
  (prior : SphCoefs) (numt lmax nmax : Z) (D : list Q) :
  fs path = Some (mkCoefFile [numt; lmax; nmax] D) ->
  0 <= numt -> 0 <= nmax ->
  let numl := (lmax + 1) * (lmax + 1) in
  numl <= int_max ->
  let B := 1 + numl * nmax in
  exists tbl,
    read_coef_file fs path prior = Val tbl (coef_log numt lmax nmax) /\
    NUMT tbl = numt /\ LMAX tbl = lmax /\ NMAX tbl = nmax /\
    vlen (t tbl) = numt /\ shape3 (coefs tbl) numt numl nmax /\
    (forall tt, 0 <= tt < numt ->
       at_ (t tbl) tt = word_or D (tt * B) (at_ (t prior) tt)) /\
    (forall tt l ir, 0 <= tt < numt -> 0 <= l < numl -> 0 <= ir < nmax ->
       cget (coefs tbl) tt l ir
       = word_or D (tt * B + 1 + l * nmax + ir) (cget (coefs prior) tt l ir)).
Proof.
  intros Hfs Hnumt Hnmax numl _ B.
  destruct (read_body_spec D 0 numt lmax nmax prior Hnumt Hnmax ltac:(lia))
    as (tv & c & HK & L & S & T & G).
  exists (mkSphCoefs lmax nmax numt tv c). split.
  - unfold read_coef_file. rewrite Hfs.
    unfold open_stream, read_int.
    cbn [good ints_left doubles_left header_words body_words].
    cbv beta iota. rewrite <- bs_after_0.
    cbn [bind emit prepend]. fold numl. rewrite HK. reflexivity.
  - cbn [NUMT LMAX NMAX t coefs].
    split; [reflexivity |]. split; [reflexivity |]. split; [reflexivity |].
    split; [exact L |]. split; [exact S |]. split.
    + intros tt Htt. now rewrite T.
    + intros tt l ir Htt Hl Hir. now rewrite G.
Qed.

(** X18.  [read_coef_file] follows the layout of the file word by word.
    For a file with a complete header [NUMT >= 0], [LMAX], [NMAX >= 0] it
    returns a table of those dimensions, time [tt] being word
    [tt * (1 + numl * NMAX)] of the body and [coefs[tt][l][ir]] the word
    [1 + l * NMAX + ir] places further on, [numl = (LMAX+1)^2] being an
    [int].  Where the body
    is too short the entry keeps what the table held there before the call,
    zero in a fresh table: a truncated file is accepted without any error and
    the run still ends with the line [success!!]. *)
Theorem read_coef_file_layout (fs : coef_file_system) (path : string)
  (prior : SphCoefs) (numt lmax nmax : Z) (D : list Q) :
  fs path = Some (mkCoefFile [numt; lmax; nmax] D) ->
  0 <= numt -> 0 <= nmax ->
  let numl := (lmax + 1) * (lmax + 1) in
  numl <= int_max ->
  let B := 1 + numl * nmax in
  exists tbl,
    read_coef_file fs path prior = Val tbl (coef_log numt lmax nmax) /\
    NUMT tbl = numt /\ LMAX tbl = lmax /\ NMAX tbl = nmax /\
    vlen (t tbl) = numt /\ shape3 (coefs tbl) numt numl nmax /\
    (forall tt, 0 <= tt < numt ->
       at_ (t tbl) tt = word_or D (tt * B) (at_ (t prior) tt)) /\
    (forall tt l ir, 0 <= tt < numt -> 0 <= l < numl -> 0 <= ir < nmax ->
       cget (coefs tbl) tt l ir
       = word_or D (tt * B + 1 + l * nmax + ir) (cget (coefs prior) tt l ir)).
Proof. exact (read_coef_file_spec fs path prior numt lmax nmax D). Qed.

Lemma read_coef_file_layout_witness :
  exists tbl,
    read_coef_file
      (fun _ => Some (mkCoefFile [3; 0; 1] [0; 0; 1; 10; 2; 20]%Q)) "ramp.coef"
      (mkSphCoefs 0 0 0 [] [])
    = Val tbl (coef_log 3 0 1) /\
    cget (coefs tbl) 1 0 0 = 10%Q.
Proof.
  destruct (read_coef_file_layout
              (fun _ => Some (mkCoefFile [3; 0; 1] [0; 0; 1; 10; 2; 20]%Q))
              "ramp.coef" (mkSphCoefs 0 0 0 [] []) 3 0 1
              [0; 0; 1; 10; 2; 20]%Q)
    as (tbl & Hr & _ & _ & _ & _ & _ & _ & Hc).
  - reflexivity.
  - discriminate.
  - discriminate.
  - discriminate.
  - exists tbl. split; [exact Hr |].
    rewrite (Hc 1 0 0); [reflexivity | | |]; split; (discriminate || reflexivity).
Defined.

(** X19.  The coefficient loader does not look at whether the file opened.
    For a path that cannot be opened every read is skipped: on a table with
    [NUMT >= 0], [NMAX >= 0] and [(LMAX+1)^2] an [int] the call returns a
    table with the three dimensions it had on entry, entries as they were
    (zero where the table was smaller), writes those dimensions and the line
    [success!!] on [cout], and never exits. *)
Theorem read_coef_file_unopenable (fs : coef_file_system) (path : string)
  (prior : SphCoefs) :
  fs path = None ->
  0 <= NUMT prior -> 0 <= NMAX prior -> numl_of prior <= int_max ->
  exists tbl,
    read_coef_file fs path prior
    = Val tbl (coef_log (NUMT prior) (LMAX prior) (NMAX prior)) /\
    NUMT tbl = NUMT prior /\ LMAX tbl = LMAX prior /\ NMAX tbl = NMAX prior /\
    vlen (t tbl) = NUMT prior /\
    shape3 (coefs tbl) (NUMT prior) (numl_of prior) (NMAX prior) /\
    (forall tt, 0 <= tt < NUMT prior -> at_ (t tbl) tt = at_ (t prior) tt) /\
    (forall tt l ir,
        0 <= tt < NUMT prior -> 0 <= l < numl_of prior -> 0 <= ir < NMAX prior ->
        cget (coefs tbl) tt l ir = cget (coefs prior) tt l ir).
Proof.
  intros Hfs Hnumt Hnmax _.
  destruct (read_body_spec [] 1 (NUMT prior) (LMAX prior) (NMAX prior) prior
              Hnumt Hnmax ltac:(lia)) as (tv & c & HK & L & S & T & G).
  exists (mkSphCoefs (LMAX prior) (NMAX prior) (NUMT prior) tv c). split.
  - unfold read_coef_file. rewrite Hfs.
    unfold open_stream, read_int. cbn [good]. cbv beta iota.
    change (mkBstream [] [] false) with (bs_after [] 1).
    cbn [bind emit prepend]. rewrite HK. reflexivity.
  - cbn [NUMT LMAX NMAX t coefs].
    split; [reflexivity |]. split; [reflexivity |]. split; [reflexivity |].
    split; [exact L |]. split; [exact S |]. split.
    + intros tt Htt. rewrite T by assumption. apply word_or_nil.
      assert (0 <= tt * (1 + (LMAX prior + 1) * (LMAX prior + 1) * NMAX prior))
        by (apply Z.mul_nonneg_nonneg; [lia |];
            pose proof (Z.square_nonneg (LMAX prior + 1));
            assert (0 <= (LMAX prior + 1) * (LMAX prior + 1) * NMAX prior)
              by (apply Z.mul_nonneg_nonneg; lia); lia).
      lia.
    + intros tt l ir Htt Hl Hir. rewrite G by assumption. apply word_or_nil.
      assert (0 <= tt * (1 + (LMAX prior + 1) * (LMAX prior + 1) * NMAX prior))
        by (apply Z.mul_nonneg_nonneg; [lia |];
            pose proof (Z.square_nonneg (LMAX prior + 1));
            assert (0 <= (LMAX prior + 1) * (LMAX prior + 1) * NMAX prior)
              by (apply Z.mul_nonneg_nonneg; lia); lia).
      assert (0 <= l * NMAX prior) by (apply Z.mul_nonneg_nonneg; lia).
      lia.
Qed.

Lemma read_coef_file_unopenable_witness :
  exists tbl,
    read_coef_file (fun _ => None) "missing.coef" Examples.ramp_coefs
    = Val tbl (coef_log 3 0 1) /\
    NUMT tbl = 3.
Proof.
  destruct (read_coef_file_unopenable (fun _ => None) "missing.coef"
              Examples.ramp_coefs) as (tbl & Hr & Hn & _).
  - reflexivity.
  - discriminate.
  - discriminate.
  - discriminate.
  - exists tbl. split; assumption.
Defined.







End CoefsMore.
